(** * The storage write path: update executors and per-partition results

    A shallow embedding of the update/upsert executors
    ([UpdateNode], [UpdateTagNode], [UpdateEdgeNode]), of the node that
    emits the yielded columns ([UpdateResNode]), and of the result
    bookkeeping of the processors ([BaseProcessor], [LookupProcessor]).

    The executors mutate their own fields and a few shared objects (the
    plan context, the expression context, the lock tables, the store).
    Here every such object is a record field that is threaded explicitly;
    a function of the source returning [ErrorCode] becomes a function
    returning the code together with the new state. *)

From Stdlib Require Import ZArith Bool List Lia Ascii.
From stdpp Require Import base gmap strings list fin_maps.

Local Open Scope Z_scope.

(** ** Common types *)

Abbreviation GraphSpaceID := Z (only parsing).
Abbreviation PartitionID := Z (only parsing).
Abbreviation TagID := Z (only parsing).
Abbreviation EdgeType := Z (only parsing).
Abbreviation EdgeRanking := Z (only parsing).
Abbreviation IndexID := Z (only parsing).
Abbreviation VertexID := string (only parsing).

(** Modelled from the spec: the error taxonomy.  The enum itself is
    declared outside these sources; the constructors below are the codes
    the sources name, [E_INDEX_LOCKED] stands for the index-locked kind of
    the taxonomy, and [E_OTHER] covers every remaining code (time-outs,
    engine errors) that a collaborator may reply with. *)
Inductive ErrorCode : Set :=
| SUCCEEDED
| E_LEADER_CHANGED
| E_UNKNOWN
| E_INDEX_NOT_FOUND
| E_INDEX_LOCKED
| E_STORAGE_KVSTORE_KEY_NOT_FOUND
| E_STORAGE_QUERY_INVALID_DATA
| E_STORAGE_QUERY_FILTER_NOT_PASSED
| E_STORAGE_QUERY_CONCURRENT_MODIFY
| E_STORAGE_QUERY_READ_TAG_PROP_FAILD
| E_STORAGE_QUERY_READ_EDGE_PROP_FAILED
| E_STORAGE_SCHEMA_TAG_NOT_FOUND
| E_STORAGE_SCHEMA_EDGE_NOT_FOUND
| E_STORAGE_SCHEMA_TAG_PROP_NOT_FOUND
| E_STORAGE_SCHEMA_EDGE_PROP_NOT_FOUND
| E_STORAGE_SCHEMA_NO_DEFAULT_VALUE_AND_NOT_NULLABLE
| E_OTHER (code : Z).

#[global] Instance ErrorCode_eq_dec : EqDecision ErrorCode.
Proof. solve_decision. Defined.

Definition succeeded (c : ErrorCode) : bool := bool_decide (c = SUCCEEDED).

(** [HostAddr] is a host name with a port; the address with the empty
    host name and the port 0 is the default argument that means that no
    leader is known. *)
Record HostAddr : Set := mkHostAddr { host : string; port : Z }.

#[global] Instance HostAddr_eq_dec : EqDecision HostAddr.
Proof. solve_decision. Defined.

Definition noHost : HostAddr := mkHostAddr EmptyString 0.

(** ** BaseProcessor: the per-partition result vector *)

Module BaseProcessor.

(** [cpp2::PartitionResult]: the leader is an optional thrift field. *)
Record PartitionResult : Set := mkPartitionResult {
  code : ErrorCode;
  part_id : PartitionID;
  leader : option HostAddr
}.

Section Processor.
(** [env_->kvstore_->partLeader]: the leader of a partition, or the
    error of the look-up. *)
Variable partLeader : GraphSpaceID -> PartitionID -> ErrorCode + HostAddr.

(** [pushResultCode(code, partId, leader)] on the vector [codes_]. *)
Definition pushResultCode (c : ErrorCode) (partId : PartitionID)
    (ldr : HostAddr) (codes_ : list PartitionResult) : list PartitionResult :=
  if succeeded c then codes_
  else codes_ ++ [mkPartitionResult c partId
                    (if bool_decide (ldr = noHost) then None else Some ldr)].

Definition handleLeaderChanged (spaceId : GraphSpaceID) (partId : PartitionID)
    (codes_ : list PartitionResult) : list PartitionResult :=
  match partLeader spaceId partId with
  | inr ldr => pushResultCode E_LEADER_CHANGED partId ldr codes_
  | inl err => pushResultCode err partId noHost codes_
  end.

Definition handleErrorCode (c : ErrorCode) (spaceId : GraphSpaceID)
    (partId : PartitionID) (codes_ : list PartitionResult) : list PartitionResult :=
  if succeeded c then codes_
  else if bool_decide (c = E_LEADER_CHANGED)
       then handleLeaderChanged spaceId partId codes_
       else pushResultCode c partId noHost codes_.
End Processor.

End BaseProcessor.

(** ** LookupProcessor: one plan run per requested partition *)

Module LookupProcessor.
Import BaseProcessor.

Section Process.
Variable partLeader : GraphSpaceID -> PartitionID -> ErrorCode + HostAddr.
(** The plan built for the request: [plan.go(partId)] runs it on one
    partition; the plan keeps state between runs. *)
Variable Plan : Type.
Variable go : Plan -> PartitionID -> ErrorCode * Plan.

(** The loop over [req.get_parts()], with the local set [failedParts]
    and the processor's [codes_]. *)
Fixpoint processParts (spaceId_ : GraphSpaceID) (parts : list PartitionID)
    (plan : Plan) (failedParts : gset Z) (codes_ : list PartitionResult)
    : list PartitionResult :=
  match parts with
  | [] => codes_
  | partId :: rest =>
      let '(ret, plan') := go plan partId in
      if succeeded ret then processParts spaceId_ rest plan' failedParts codes_
      else if bool_decide (partId ∈ failedParts)
           then processParts spaceId_ rest plan' failedParts codes_
           else processParts spaceId_ rest plan' ({[partId]} ∪ failedParts)
                  (handleErrorCode partLeader ret spaceId_ partId codes_)
  end.

(** [process(req)]: [requestCheck] and [buildPlan] are given by their
    results; a failure of either is pushed for every requested part. *)
Definition process (spaceId_ : GraphSpaceID) (requestCheck : ErrorCode)
    (buildPlan : option Plan) (parts : list PartitionID) : list PartitionResult :=
  if negb (succeeded requestCheck)
  then fold_left (fun cs p => pushResultCode requestCheck p noHost cs) parts []
  else match buildPlan with
       | None => fold_left (fun cs p => pushResultCode E_INDEX_NOT_FOUND p noHost cs)
                   parts []
       | Some plan => processParts spaceId_ parts plan ∅ []
       end.

(** The codes the plan returns, in the order of the runs. *)
Fixpoint runs (parts : list PartitionID) (plan : Plan)
    : list (PartitionID * ErrorCode) :=
  match parts with
  | [] => []
  | partId :: rest =>
      let '(ret, plan') := go plan partId in (partId, ret) :: runs rest plan'
  end.

(** The first failure of partition [p] among the runs. *)
Definition firstFailure (rs : list (PartitionID * ErrorCode)) (p : PartitionID)
    : option ErrorCode :=
  snd <$> List.find (fun r => bool_decide (fst r = p) && negb (succeeded (snd r))) rs.
End Process.

End LookupProcessor.

(** ** Values, expressions and rows: the collaborators of the executors *)

(** [nebula::Value], restricted to the kinds the executors build
    themselves ([Value::kNullValue], a bool, an integer, a string). *)
Inductive Value : Set :=
| VEmpty
| VNull
| VBool (b : bool)
| VInt (i : Z)
| VStr (s : string).

#[global] Instance Value_eq_dec : EqDecision Value.
Proof. solve_decision. Defined.

(** The expression engine and the [StorageExpressionContext].  Their
    code is outside these sources; the executors use them through this
    interface only.  [sym] and [prop] are the accessors of a
    [PropertyExpression]. *)
Class ExprEngine : Type := {
  Expression : Type;
  ExprCtx : Type;
  Expression_decode : string -> option Expression;
  Expression_eval : Expression -> ExprCtx -> Value;
  sym : Expression -> string;
  prop : Expression -> string;
  reset : ExprCtx -> ExprCtx;
  setTagProp : ExprCtx -> string -> string -> Value -> ExprCtx;
  setEdgeProp : ExprCtx -> string -> string -> Value -> ExprCtx
}.

Section Schema.
Context {E : ExprEngine}.

(** [meta::SchemaProviderIf::Field]: [hasDefault()] holds when
    [defaultValue] is present. *)
Record Field : Type := mkField {
  Field_name : string;
  Field_defaultValue : option Expression;
  Field_nullable : bool
}.

(** A [NebulaSchemaProvider] is its ordered list of fields. *)
Definition Schema : Type := list Field.

(** [schema->field(name)]: the field of that name, or null. *)
Definition Schema_field (schema : Schema) (name : string) : option Field :=
  List.find (fun f => bool_decide (Field_name f = name)) schema.
End Schema.

(** Row decoding and encoding ([RowReader], [RowReaderWrapper],
    [RowWriterV2], [QueryUtils::readValue], [CommonUtils::ttlValue]).
    A [StatusOr] result is an [option]; a null reader is [None]. *)
Class RowCodec {E : ExprEngine} : Type := {
  RowReader : Type;
  getData : RowReader -> string;
  readValue : RowReader -> string -> Schema -> option Value;
  getTagPropReader : GraphSpaceID -> TagID -> string -> option RowReader;
  getEdgePropReader : GraphSpaceID -> EdgeType -> string -> option RowReader;
  ttlValue : Schema -> RowReader -> option Value;
  RowWriterV2 : Type;
  RowWriterV2_new : Schema -> RowWriterV2;
  setValue : RowWriterV2 -> string -> Value -> ErrorCode * RowWriterV2;
  finish : RowWriterV2 -> ErrorCode * RowWriterV2;
  moveEncodedStr : RowWriterV2 -> string
}.

(** [meta::cpp2::ColumnDef], as built by [BaseProcessor::columnDef]. *)
Record ColumnDef : Set := mkColumnDef { col_name : string; col_type : Z }.

Definition columnDef (name : string) (type : Z) : ColumnDef := mkColumnDef name type.

(** The key codecs ([NebulaKeyUtils], [IndexKeyUtils],
    [OperationKeyUtils]); the first argument of the key builders is the
    vertex-id length of the space. *)
Class KeyUtils {E : ExprEngine} {C : RowCodec} : Type := {
  vertexKey : Z -> PartitionID -> VertexID -> TagID -> string;
  edgeKey : Z -> PartitionID -> VertexID -> EdgeType -> EdgeRanking -> VertexID -> string;
  collectIndexValues : RowReader -> list ColumnDef -> option string;
  vertexIndexKey : Z -> PartitionID -> IndexID -> VertexID -> string -> string;
  edgeIndexKey : Z -> PartitionID -> IndexID -> VertexID -> EdgeRanking -> VertexID
                 -> string -> string;
  indexVal : Value -> string;
  deleteOperationKey : PartitionID -> string;
  modifyOperationKey : PartitionID -> string -> string
}.

(** The names of the implicit columns. *)
Definition kVid : string := "_vid".
Definition kTag : string := "_tag".
Definition kSrc : string := "_src".
Definition kType : string := "_type".
Definition kRank : string := "_rank".
Definition kDst : string := "_dst".

(** [meta::cpp2::SchemaID] is a thrift union of a tag id and an edge
    type; both members are 32-bit integers in the same storage. *)
Inductive SchemaID : Set :=
| tag_id (t : TagID)
| edge_type (t : EdgeType).

Definition get_tag_id (s : SchemaID) : TagID :=
  match s with tag_id t => t | edge_type t => t end.

Definition get_edge_type (s : SchemaID) : EdgeType :=
  match s with tag_id t => t | edge_type t => t end.

Record IndexItem : Set := mkIndexItem {
  index_id : IndexID;
  index_name : string;
  schema_id : SchemaID;
  fields : list ColumnDef
}.

(** [storage::cpp2::UpdatedProp]: a property name and the encoded
    expression of its new value. *)
Record UpdatedProp : Set := mkUpdatedProp {
  UpdatedProp_name : string;
  UpdatedProp_value : string
}.

(** [storage::cpp2::EdgeKey]. *)
Record EdgeKey : Set := mkEdgeKey {
  EdgeKey_src : VertexID;
  EdgeKey_edge_type : EdgeType;
  EdgeKey_ranking : EdgeRanking;
  EdgeKey_dst : VertexID
}.

(** ** The write batch and the store *)

(** One entry of a [kvstore::BatchHolder]. *)
Inductive BatchOp : Set :=
| OP_BATCH_PUT (key val : string)
| OP_BATCH_REMOVE (key : string).

#[global] Instance BatchOp_eq_dec : EqDecision BatchOp.
Proof. solve_decision. Defined.

(** [BatchHolder::put] and [BatchHolder::remove] append in call order.
    [encodeBatchValue] serialises the list; the model hands the list
    itself to the store. *)
Definition BatchHolder_put (k v : string) (batch : list BatchOp) : list BatchOp :=
  batch ++ [OP_BATCH_PUT k v].

Definition BatchHolder_remove (k : string) (batch : list BatchOp) : list BatchOp :=
  batch ++ [OP_BATCH_REMOVE k].

(** The contents of the store of this node: (space, part, key) to value. *)
Abbreviation Store := (gmap (Z * Z * string) string).

(** Modelled from the spec: the replicated store applies a batch
    all-or-nothing, its operations in insertion order, so that the last
    operation on a key wins. *)
Definition applyBatch (spaceId : GraphSpaceID) (partId : PartitionID)
    (batch : list BatchOp) (store : Store) : Store :=
  fold_left (fun s op =>
               match op with
               | OP_BATCH_PUT k v => <[(spaceId, partId, k) := v]> s
               | OP_BATCH_REMOVE k => delete (spaceId, partId, k) s
               end) batch store.

(** Modelled from the spec: the index state oracle. *)
Inductive IndexState : Set := Normal | Rebuilding | Locked.

#[global] Instance IndexState_eq_dec : EqDecision IndexState.
Proof. solve_decision. Defined.

Definition checkRebuilding (s : IndexState) : bool := bool_decide (s = Rebuilding).
Definition checkIndexLocked (s : IndexState) : bool := bool_decide (s = Locked).

(** Modelled from the spec: the transaction manager takes the closure
    that produces the batch; the model runs the closure once and gives
    its result to the manager, which replies with a code ([None] is an
    invalid future) and the store it leaves behind. *)
Record TransactionManager : Type := mkTransactionManager {
  enableToss : GraphSpaceID -> bool;
  updateEdgeAtomic : Z -> GraphSpaceID -> PartitionID -> EdgeKey
                     -> option (list BatchOp) -> Store -> option ErrorCode * Store
}.

(** [StorageEnv]: the index state of a partition, the reply of the
    replicated store to [asyncAppendBatch], the transaction manager. *)
Record StorageEnv : Type := mkStorageEnv {
  getIndexState : GraphSpaceID -> PartitionID -> IndexState;
  appendReply : GraphSpaceID -> PartitionID -> list BatchOp -> ErrorCode;
  txnMan_ : option TransactionManager
}.

(** The keys of the two memory-lock tables. *)
Abbreviation VMLI := (Z * Z * Z * string)%type.
Abbreviation EMLI := (Z * Z * string * Z * Z * string)%type.

(** What an executor does that others can see.  [LOG] and [VLOG] lines
    other than the two conflict reports are not modelled. *)
Inductive Event : Set :=
| LogVertexConflict (conflict : VMLI)
| LogEdgeConflict (conflict : EMLI)
| RunDependencies (partId : PartitionID)
| AsyncAppendBatch (spaceId : GraphSpaceID) (partId : PartitionID) (batch : list BatchOp)
| UpdateEdgeAtomic (spaceId : GraphSpaceID) (partId : PartitionID) (key : EdgeKey)
    (batch : option (list BatchOp)).

(** The state shared between executors: the lock tables, the store and
    the events so far. *)
Record World : Type := mkWorld {
  verticesML_ : gset (Z * Z * Z * string);
  edgesML_ : gset (Z * Z * string * Z * Z * string);
  kvstore_ : gmap (Z * Z * string) string;
  events : list Event
}.

Definition emit (e : Event) (w : World) : World :=
  mkWorld (verticesML_ w) (edgesML_ w) (kvstore_ w) (events w ++ [e]).

Definition set_verticesML_ (l : gset (Z * Z * Z * string)) (w : World) : World :=
  mkWorld l (edgesML_ w) (kvstore_ w) (events w).

Definition set_edgesML_ (l : gset (Z * Z * string * Z * Z * string)) (w : World) : World :=
  mkWorld (verticesML_ w) l (kvstore_ w) (events w).

Definition set_kvstore_ (s : gmap (Z * Z * string) string) (w : World) : World :=
  mkWorld (verticesML_ w) (edgesML_ w) s (events w).

(** Modelled from the spec: the memory lock guard.  A lock table holds
    a set of keys; taking the key of a row fails at once when the key is
    already in the table (the key is then the conflict key), and the
    guard releases the key on every way out of the scope. *)
Definition MemoryLockGuard_lock `{Countable K} (table : gset K) (key : K)
    : option (gset K) :=
  if bool_decide (key ∈ table) then None else Some ({[key]} ∪ table).

Definition MemoryLockGuard_unlock `{Countable K} (table : gset K) (key : K) : gset K :=
  table ∖ {[key]}.

(** [kvstore_->asyncAppendBatch] followed by [baton.wait()]: the batch
    is applied when the reply is [SUCCEEDED] and not at all otherwise. *)
Definition asyncAppendBatch (env : StorageEnv) (spaceId : GraphSpaceID)
    (partId : PartitionID) (batch : list BatchOp) (w : World) : ErrorCode * World :=
  let code := appendReply env spaceId partId batch in
  let w' := emit (AsyncAppendBatch spaceId partId batch) w in
  (code, if succeeded code
         then set_kvstore_ (applyBatch spaceId partId batch (kvstore_ w')) w'
         else w').

(** ** UpdateNode: the state of an executor and the shared checks *)

(** [ResultStatus] of the plan context, set by the filter node. *)
Inductive ResultStatus : Set := NORMAL | ILLEGAL_DATA | FILTER_OUT.

Section UpdateNode.
Context {E : ExprEngine} {C : RowCodec} {U : KeyUtils}.

(** What [RelNode::execute] leaves behind: its return code, the
    [resultStat_] of the plan context, the expression context as the
    filter node left it, and the accessors of the filter node. *)
Record FilterRun : Type := mkFilterRun {
  RelNode_ret : ErrorCode;
  RelNode_resultStat : ResultStatus;
  RelNode_expCtx : ExprCtx;
  FilterNode_valid : bool;
  FilterNode_reader : option RowReader;
  FilterNode_key : string
}.

(** The immutable part of [PlanContext]. *)
Record PlanContext : Type := mkPlanContext {
  env_ : StorageEnv;
  spaceId_ : GraphSpaceID;
  vIdLen_ : Z;
  tagId_ : TagID;
  edgeType_ : EdgeType
}.

(** The constructor arguments of an [UpdateNode<T>], but for the
    filter node, which the two subclasses take next to it.  The second
    component of an entry of [depPropMap_] lists the property names in
    iteration order. *)
Record UpdateNode : Type := mkUpdateNode {
  planContext_ : PlanContext;
  indexes_ : list IndexItem;
  updatedProps_ : list UpdatedProp;
  insertable_ : bool;
  depPropMap_ : list (string * list string);
  isEdge_ : bool
}.

(** The nodes an update node depends on, [filterNode_] and what is
    behind it: given the partition, the row identity, the store and the
    expression context, they yield what [RelNode::execute] leaves
    behind. *)
Definition FilterNode (T : Type) : Type :=
  PartitionID -> T -> gmap (Z * Z * string) string -> ExprCtx -> FilterRun.

(** The mutable members of an update node ([tagName_] and [edgeName_]
    are those of the two subclasses), the shared expression context and
    the two mutable members of the plan context.  A null pointer is
    [None]. *)
Record State : Type := mkState {
  key_ : string;
  reader_ : option RowReader;
  schema_ : option Schema;
  val_ : string;
  rowWriter_ : option RowWriterV2;
  props_ : gmap string Value;
  exeResult_ : ErrorCode;
  tagName_ : string;
  edgeName_ : string;
  expCtx_ : ExprCtx;
  insert_ : bool;
  resultStat_ : ResultStatus
}.

Definition set_key_ (v : string) (s : State) : State :=
  mkState v (reader_ s) (schema_ s) (val_ s) (rowWriter_ s) (props_ s) (exeResult_ s)
    (tagName_ s) (edgeName_ s) (expCtx_ s) (insert_ s) (resultStat_ s).
Definition set_reader_ (v : option RowReader) (s : State) : State :=
  mkState (key_ s) v (schema_ s) (val_ s) (rowWriter_ s) (props_ s) (exeResult_ s)
    (tagName_ s) (edgeName_ s) (expCtx_ s) (insert_ s) (resultStat_ s).
Definition set_schema_ (v : option Schema) (s : State) : State :=
  mkState (key_ s) (reader_ s) v (val_ s) (rowWriter_ s) (props_ s) (exeResult_ s)
    (tagName_ s) (edgeName_ s) (expCtx_ s) (insert_ s) (resultStat_ s).
Definition set_val_ (v : string) (s : State) : State :=
  mkState (key_ s) (reader_ s) (schema_ s) v (rowWriter_ s) (props_ s) (exeResult_ s)
    (tagName_ s) (edgeName_ s) (expCtx_ s) (insert_ s) (resultStat_ s).
Definition set_rowWriter_ (v : option RowWriterV2) (s : State) : State :=
  mkState (key_ s) (reader_ s) (schema_ s) (val_ s) v (props_ s) (exeResult_ s)
    (tagName_ s) (edgeName_ s) (expCtx_ s) (insert_ s) (resultStat_ s).
Definition set_props_ (v : gmap string Value) (s : State) : State :=
  mkState (key_ s) (reader_ s) (schema_ s) (val_ s) (rowWriter_ s) v (exeResult_ s)
    (tagName_ s) (edgeName_ s) (expCtx_ s) (insert_ s) (resultStat_ s).
Definition set_exeResult_ (v : ErrorCode) (s : State) : State :=
  mkState (key_ s) (reader_ s) (schema_ s) (val_ s) (rowWriter_ s) (props_ s) v
    (tagName_ s) (edgeName_ s) (expCtx_ s) (insert_ s) (resultStat_ s).
Definition set_tagName_ (v : string) (s : State) : State :=
  mkState (key_ s) (reader_ s) (schema_ s) (val_ s) (rowWriter_ s) (props_ s)
    (exeResult_ s) v (edgeName_ s) (expCtx_ s) (insert_ s) (resultStat_ s).
Definition set_edgeName_ (v : string) (s : State) : State :=
  mkState (key_ s) (reader_ s) (schema_ s) (val_ s) (rowWriter_ s) (props_ s)
    (exeResult_ s) (tagName_ s) v (expCtx_ s) (insert_ s) (resultStat_ s).
Definition set_expCtx_ (v : ExprCtx) (s : State) : State :=
  mkState (key_ s) (reader_ s) (schema_ s) (val_ s) (rowWriter_ s) (props_ s)
    (exeResult_ s) (tagName_ s) (edgeName_ s) v (insert_ s) (resultStat_ s).
Definition set_insert_ (v : bool) (s : State) : State :=
  mkState (key_ s) (reader_ s) (schema_ s) (val_ s) (rowWriter_ s) (props_ s)
    (exeResult_ s) (tagName_ s) (edgeName_ s) (expCtx_ s) v (resultStat_ s).
Definition set_resultStat_ (v : ResultStatus) (s : State) : State :=
  mkState (key_ s) (reader_ s) (schema_ s) (val_ s) (rowWriter_ s) (props_ s)
    (exeResult_ s) (tagName_ s) (edgeName_ s) (expCtx_ s) (insert_ s) v.

(** A node as its constructor and the member initialisers leave it,
    with a fresh plan context, over the expression context [ctx]. *)
Definition newState (ctx : ExprCtx) : State :=
  mkState EmptyString None None EmptyString None ∅ SUCCEEDED EmptyString EmptyString ctx false NORMAL.

Section Checks.
Variable node : UpdateNode.

Definition checkField (field : option Field) : ErrorCode :=
  match field with
  | None => if isEdge_ node then E_STORAGE_SCHEMA_EDGE_PROP_NOT_FOUND
            else E_STORAGE_SCHEMA_TAG_PROP_NOT_FOUND
  | Some _ => SUCCEEDED
  end.

Definition getDefaultOrNullValue (field : Field) (name : string) (st : State)
    : ErrorCode * State :=
  match Field_defaultValue field with
  | Some expr =>
      (SUCCEEDED,
       set_props_ (<[Field_name field := Expression_eval expr (expCtx_ st)]> (props_ st)) st)
  | None =>
      if Field_nullable field
      then (SUCCEEDED, set_props_ (<[name := VNull]> (props_ st)) st)
      else (E_STORAGE_SCHEMA_NO_DEFAULT_VALUE_AND_NOT_NULLABLE, st)
  end.

(** The inner loop of [checkPropsAndGetDefaultValue]: the properties
    the value expression of one updated property depends on. *)
Fixpoint checkDepProps (schema : Schema) (deps : list string)
    (checkedProp : gset string) (st : State) : ErrorCode * gset string * State :=
  match deps with
  | [] => (SUCCEEDED, checkedProp, st)
  | p :: rest =>
      if bool_decide (p ∈ checkedProp) then checkDepProps schema rest checkedProp st
      else
        let field := Schema_field schema p in
        match field with
        | None => (checkField field, checkedProp, st)
        | Some f =>
            let '(ret, st') := getDefaultOrNullValue f p st in
            if succeeded ret
            then checkDepProps schema rest ({[p]} ∪ checkedProp) st'
            else (ret, checkedProp, st')
        end
  end.

(** The loop over [depPropMap_]. *)
Fixpoint checkSetProps (schema : Schema) (depPropMap : list (string * list string))
    (checkedProp : gset string) (st : State) : ErrorCode * gset string * State :=
  match depPropMap with
  | [] => (SUCCEEDED, checkedProp, st)
  | prop :: rest =>
      let '(ret, checkedProp', st') := checkDepProps schema prop.2 checkedProp st in
      if succeeded ret
      then
        let ret := checkField (Schema_field schema prop.1) in
        if succeeded ret
        then checkSetProps schema rest ({[prop.1]} ∪ checkedProp') st'
        else (ret, checkedProp', st')
      else (ret, checkedProp', st')
  end.

(** The loop over the fields of the schema: the properties that are
    not in the set clause. *)
Fixpoint checkOtherProps (fieldIter : list Field) (checkedProp : gset string)
    (st : State) : ErrorCode * State :=
  match fieldIter with
  | [] => (SUCCEEDED, st)
  | f :: rest =>
      if bool_decide (Field_name f ∈ checkedProp)
      then checkOtherProps rest checkedProp st
      else
        let '(ret, st') := getDefaultOrNullValue f (Field_name f) st in
        if succeeded ret then checkOtherProps rest checkedProp st' else (ret, st')
  end.

Definition checkPropsAndGetDefaultValue (schema : Schema) (st : State)
    : ErrorCode * State :=
  let '(ret, checkedProp, st') := checkSetProps schema (depPropMap_ node) ∅ st in
  if succeeded ret then checkOtherProps schema checkedProp st' else (ret, st').

(** [for (auto& p : props_) expCtx_->set...Prop(name, p.first, p.second)] *)
Definition setProps (setProp : ExprCtx -> string -> string -> Value -> ExprCtx)
    (name : string) (props : gmap string Value) (ctx : ExprCtx) : ExprCtx :=
  fold_left (fun c p => setProp c name p.1 p.2) (map_to_list props) ctx.

(** The loop over the fields of the latest schema in [collTagProp] and
    [collEdgeProp]; [false] when a value cannot be read. *)
Fixpoint collectProps (reader : RowReader) (schema : Schema) (fieldIter : list Field)
    (st : State) : bool * State :=
  match fieldIter with
  | [] => (true, st)
  | f :: rest =>
      let propName := Field_name f in
      match readValue reader propName schema with
      | None => (false, st)
      | Some retVal =>
          collectProps reader schema rest
            (set_props_ (<[propName := retVal]> (props_ st)) st)
      end
  end.

(** The first loop of [updateAndWriteBack]: decode, evaluate, assign
    and update the expression context, property by property. *)
Fixpoint applyUpdatedProps (setProp : ExprCtx -> string -> string -> Value -> ExprCtx)
    (name : string) (updatedProps : list UpdatedProp) (st : State) : bool * State :=
  match updatedProps with
  | [] => (true, st)
  | updateProp :: rest =>
      let propName := UpdatedProp_name updateProp in
      match Expression_decode (UpdatedProp_value updateProp) with
      | None => (false, st)
      | Some updateExp =>
          let updateVal := Expression_eval updateExp (expCtx_ st) in
          let st1 := set_props_ (<[propName := updateVal]> (props_ st)) st in
          let st2 := set_expCtx_ (setProp (expCtx_ st1) name propName updateVal) st1 in
          applyUpdatedProps setProp name rest st2
      end
  end.

(** The second loop: [rowWriter_->setValue] for every property. *)
Fixpoint setValues (props : list (string * Value)) (w : RowWriterV2)
    : bool * RowWriterV2 :=
  match props with
  | [] => (true, w)
  | e :: rest =>
      let '(wRet, w') := setValue w e.1 e.2 in
      if succeeded wRet then setValues rest w' else (false, w')
  end.

(** The loop over [indexes_] of [updateAndWriteBack].  [matches] is the
    test that the index targets this schema, [indexKey] the member of
    that name, [newReader] the reader made from the new row when the
    loop first needs it, [iState] the state [getIndexState] reports for
    the space and the partition.  [None] is [return folly::none]. *)
Section UpdateIndexes.
Variable matches : IndexItem -> bool.
Variable indexKey : RowReader -> IndexItem -> string.
Variable newReader : option RowReader.
Variable schema : Schema.
Variable iState : IndexState.
Variable partId : PartitionID.
Variable val : string.
Variable reader : option RowReader.

(** step 1, delete old version index if exists *)
Definition removeOldIndex (index : IndexItem) (batch : list BatchOp)
    : option (list BatchOp) :=
  if bool_decide (val = EmptyString) then Some batch
  else match reader with
       | None => None
       | Some r =>
           let oi := indexKey r index in
           if bool_decide (oi = EmptyString) then Some batch
           else if checkRebuilding iState
                then Some (BatchHolder_put (deleteOperationKey partId) oi batch)
                else if checkIndexLocked iState then None
                     else Some (BatchHolder_remove oi batch)
       end.

(** step 2, insert new index *)
Definition putNewIndex (index : IndexItem) (nReader : RowReader)
    (batch : list BatchOp) : option (list BatchOp) :=
  let ni := indexKey nReader index in
  if bool_decide (ni = EmptyString) then Some batch
  else
    let niv := match ttlValue schema nReader with
               | Some v => indexVal v
               | None => EmptyString
               end in
    if checkRebuilding iState
    then Some (BatchHolder_put (modifyOperationKey partId ni) niv batch)
    else if checkIndexLocked iState then None
         else Some (BatchHolder_put ni niv batch).

Fixpoint updateIndexes (indexes : list IndexItem) (nReader : option RowReader)
    (batch : list BatchOp) : option (list BatchOp) :=
  match indexes with
  | [] => Some batch
  | index :: rest =>
      if matches index then
        match removeOldIndex index batch with
        | None => None
        | Some batch1 =>
            let nReader' := match nReader with
                            | None => newReader
                            | Some _ => nReader
                            end in
            match nReader' with
            | None => None
            | Some nr =>
                match putNewIndex index nr batch1 with
                | None => None
                | Some batch2 => updateIndexes rest nReader' batch2
                end
            end
        end
      else updateIndexes rest nReader batch
  end.
End UpdateIndexes.

(** The second loop of [updateAndWriteBack], [finish] and
    [moveEncodedStr]: the encoded new row, or none.  The branch of a
    null [rowWriter_] is a null dereference in the source; it is never
    taken, since the writer is made on every path that leads here. *)
Definition encodeRow (st : State) : option string * State :=
  match rowWriter_ st with
  | Some w =>
      let '(ok, w1) := setValues (map_to_list (props_ st)) w in
      if ok then
        let '(wRet, w2) := finish w1 in
        let st2 := set_rowWriter_ (Some w2) st in
        if succeeded wRet then (Some (moveEncodedStr w2), st2) else (None, st2)
      else (None, set_rowWriter_ (Some w1) st)
  | None => (None, st)
  end.

(** [updateAndWriteBack] after its first loop; the two subclasses
    differ in [matches], [indexKey] and the reader of the new row.
    (A null [schema_] is excluded like a null [rowWriter_].) *)
Definition writeBack (matches : IndexItem -> bool)
    (indexKey : RowReader -> IndexItem -> string)
    (getPropReader : string -> option RowReader)
    (partId : PartitionID) (st : State) : option (list BatchOp) * State :=
  let '(encoded, st2) := encodeRow st in
  match encoded, schema_ st2 with
  | Some nVal, Some schema =>
      let iState := getIndexState (env_ (planContext_ node))
                      (spaceId_ (planContext_ node)) partId in
      match updateIndexes matches indexKey (getPropReader nVal) schema iState
              partId (val_ st2) (reader_ st2) (indexes_ node) None [] with
      | None => (None, st2)
      | Some batch =>
          (* step 3, insert new data *)
          (Some (BatchHolder_put (key_ st2) nVal batch), st2)
      end
  | _, _ => (None, st2)
  end.
End Checks.
End UpdateNode.

(** ** UpdateTagNode: update or upsert of one vertex *)

Module UpdateTagNode.
Section UpdateTagNode.
Context {E : ExprEngine} {C : RowCodec} {U : KeyUtils}.

(** [TagContext]: the versions of every tag schema, oldest first (a
    version may be a null pointer), and the tag names. *)
Record TagContext : Type := mkTagContext {
  schemas_ : gmap Z (list (option Schema));
  tagNames_ : gmap Z string
}.

Variable node : UpdateNode.
Variable filterNode_ : FilterNode string.
Variable tagContext_ : TagContext.

Let planCtx := planContext_ node.
Let tagId := tagId_ (planContext_ node).

Definition getLatestTagSchemaAndName (st : State) : ErrorCode * State :=
  match schemas_ tagContext_ !! tagId with
  | None => (E_STORAGE_SCHEMA_TAG_NOT_FOUND, st)
  | Some versions =>
      match last versions with
      | None => (E_STORAGE_SCHEMA_TAG_NOT_FOUND, st)
      | Some back =>
          let st1 := set_schema_ back st in
          match back with
          | None => (E_STORAGE_SCHEMA_TAG_NOT_FOUND, st1)
          | Some _ =>
              match tagNames_ tagContext_ !! tagId with
              | None => (E_STORAGE_SCHEMA_TAG_NOT_FOUND, st1)
              | Some name => (SUCCEEDED, set_tagName_ name st1)
              end
          end
      end
  end.

(** The expression context of a vertex: [kVid], [kTag], then every
    collected property. *)
Definition buildTagContext (vId : string) (st : State) : State :=
  let ctx1 := setTagProp (expCtx_ st) (tagName_ st) kVid (VStr vId) in
  let ctx2 := setTagProp ctx1 (tagName_ st) kTag (VInt tagId) in
  set_expCtx_ (setProps setTagProp (tagName_ st) (props_ st) ctx2) st.

(** In [insertTagProps], [collTagProp] and [updateAndWriteBack] the
    branch of a null [schema_], [reader_] or [rowWriter_] is a null
    dereference in the source; it is never taken, since these members
    are set on every path that reaches it. *)
Definition insertTagProps (partId : PartitionID) (vId : string) (st : State)
    : ErrorCode * State :=
  let st0 := set_insert_ true st in
  let '(ret, st1) := getLatestTagSchemaAndName st0 in
  if succeeded ret then
    match schema_ st1 with
    | None => (E_STORAGE_SCHEMA_TAG_NOT_FOUND, st1)
    | Some schema =>
        let '(ret2, st2) := checkPropsAndGetDefaultValue node schema st1 in
        if succeeded ret2 then
          let st3 := buildTagContext vId st2 in
          let st4 := set_key_ (vertexKey (vIdLen_ planCtx) partId vId tagId) st3 in
          (SUCCEEDED, set_rowWriter_ (Some (RowWriterV2_new schema)) st4)
        else (ret2, st2)
    end
  else (ret, st1).

Definition collTagProp (vId : string) (st : State) : ErrorCode * State :=
  let '(ret, st1) := getLatestTagSchemaAndName st in
  if succeeded ret then
    match schema_ st1, reader_ st1 with
    | Some schema, Some reader =>
        let '(ok, st2) := collectProps reader schema schema st1 in
        if ok then
          let st3 := buildTagContext vId st2 in
          let st4 := set_rowWriter_ (Some (RowWriterV2_new schema)) st3 in
          (SUCCEEDED, set_val_ (getData reader) st4)
        else (E_STORAGE_QUERY_READ_TAG_PROP_FAILD, st2)
    | _, _ => (E_STORAGE_SCHEMA_TAG_NOT_FOUND, st1)
    end
  else (ret, st1).

Definition indexKey (partId : PartitionID) (vId : string) (reader : RowReader)
    (index : IndexItem) : string :=
  match collectIndexValues reader (fields index) with
  | None => EmptyString
  | Some values =>
      vertexIndexKey (vIdLen_ planCtx) partId (index_id index) vId values
  end.

Definition updateAndWriteBack (partId : PartitionID) (vId : string) (st : State)
    : option (list BatchOp) * State :=
  let '(ok, st1) := applyUpdatedProps setTagProp (tagName_ st) (updatedProps_ node) st in
  if ok then
    writeBack node
      (fun index => bool_decide (tagId = get_tag_id (schema_id index)))
      (indexKey partId vId)
      (getTagPropReader (spaceId_ planCtx) tagId)
      partId st1
  else (None, st1).

(** The part of [execute] that takes the reader of the filter node,
    resets the expression context and collects the properties of the
    row, old or new. *)
Definition collect (run : FilterRun) (partId : PartitionID) (vId : string) (st1 : State)
    : ErrorCode * State :=
  let st2 := if FilterNode_valid run
             then set_reader_ (FilterNode_reader run) st1 else st1 in
  (* reset StorageExpressionContext reader_, because it contains old value *)
  let st3 := set_expCtx_ (reset (expCtx_ st2)) st2 in
  match reader_ st3 with
  | None => if insertable_ node then insertTagProps partId vId st3
            else (E_STORAGE_KVSTORE_KEY_NOT_FOUND, st3)
  | Some _ => collTagProp vId (set_key_ (FilterNode_key run) st3)
  end.

(** [execute] between taking the lock and releasing it. *)
Definition executeLocked (partId : PartitionID) (vId : string) (st : State) (w : World)
    : ErrorCode * State * World :=
  let run := filterNode_ partId vId (kvstore_ w) (expCtx_ st) in
  let w1 := emit (RunDependencies partId) w in
  let st1 := set_expCtx_ (RelNode_expCtx run)
               (set_resultStat_ (RelNode_resultStat run) st) in
  if succeeded (RelNode_ret run) then
    match resultStat_ st1 with
    | ILLEGAL_DATA => (E_STORAGE_QUERY_INVALID_DATA, st1, w1)
    | FILTER_OUT => (E_STORAGE_QUERY_FILTER_NOT_PASSED, st1, w1)
    | NORMAL =>
        let '(ret, st4) := collect run partId vId st1 in
        if succeeded ret then
          let '(batch, st5) := updateAndWriteBack partId vId st4 in
          match batch with
          | None => (E_STORAGE_QUERY_INVALID_DATA, st5, w1)
          | Some b =>
              let '(code, w2) := asyncAppendBatch (env_ planCtx) (spaceId_ planCtx)
                                   partId b w1 in
              (code, st5, w2)
          end
        else (ret, st4, w1)
    end
  else (RelNode_ret run, st1, w1).

Definition execute (partId : PartitionID) (vId : string) (st : State) (w : World)
    : ErrorCode * State * World :=
  (* Update is read-modify-write, which is an atomic operation. *)
  let dummyLock := (spaceId_ planCtx, partId, tagId, vId) in
  match MemoryLockGuard_lock (verticesML_ w) dummyLock with
  | None =>
      (E_STORAGE_QUERY_CONCURRENT_MODIFY, st, emit (LogVertexConflict dummyLock) w)
  | Some locked =>
      let '(ret, st', w') := executeLocked partId vId st (set_verticesML_ locked w) in
      (ret, st', set_verticesML_ (MemoryLockGuard_unlock (verticesML_ w') dummyLock) w')
  end.
End UpdateTagNode.
End UpdateTagNode.

(** ** UpdateEdgeNode: update or upsert of one edge *)

(** [std::abs] on a 32-bit integer.  It is undefined on the least value,
    which the model leaves as it is. *)
Definition std_abs (t : Z) : Z :=
  if bool_decide (t = -2147483648) then t else Z.abs t.

Module UpdateEdgeNode.
Section UpdateEdgeNode.
Context {E : ExprEngine} {C : RowCodec} {U : KeyUtils}.

(** [EdgeContext]: the versions of every edge schema under the positive
    edge type, oldest first, and the edge names under the signed type. *)
Record EdgeContext : Type := mkEdgeContext {
  schemas_ : gmap Z (list (option Schema));
  edgeNames_ : gmap Z string
}.

Variable node : UpdateNode.
Variable filterNode_ : FilterNode EdgeKey.
Variable edgeContext_ : EdgeContext.

Let planCtx := planContext_ node.
Let edgeType := edgeType_ (planContext_ node).

Definition getLatestEdgeSchemaAndName (st : State) : ErrorCode * State :=
  match schemas_ edgeContext_ !! std_abs edgeType with
  | None => (E_STORAGE_SCHEMA_EDGE_NOT_FOUND, st)
  | Some versions =>
      match last versions with
      | None => (E_STORAGE_SCHEMA_EDGE_NOT_FOUND, st)
      | Some back =>
          let st1 := set_schema_ back st in
          match back with
          | None => (E_STORAGE_SCHEMA_EDGE_NOT_FOUND, st1)
          | Some _ =>
              match edgeNames_ edgeContext_ !! edgeType with
              | None => (E_STORAGE_SCHEMA_EDGE_NOT_FOUND, st1)
              | Some name => (SUCCEEDED, set_edgeName_ name st1)
              end
          end
      end
  end.

(** build expression context: add kSrc, kType, kRank, kDst, then every
    collected property. *)
Definition buildEdgeContext (edgeKey : EdgeKey) (st : State) : State :=
  let name := edgeName_ st in
  let ctx1 := setEdgeProp (expCtx_ st) name kSrc (VStr (EdgeKey_src edgeKey)) in
  let ctx2 := setEdgeProp ctx1 name kDst (VStr (EdgeKey_dst edgeKey)) in
  let ctx3 := setEdgeProp ctx2 name kRank (VInt (EdgeKey_ranking edgeKey)) in
  let ctx4 := setEdgeProp ctx3 name kType (VInt (EdgeKey_edge_type edgeKey)) in
  set_expCtx_ (setProps setEdgeProp name (props_ st) ctx4) st.

(** As for a vertex, the branch of a null [schema_], [reader_] or
    [rowWriter_] is a null dereference in the source and is never
    taken. *)
Definition insertEdgeProps (partId : PartitionID) (ek : EdgeKey) (st : State)
    : ErrorCode * State :=
  let st0 := set_insert_ true st in
  let '(ret, st1) := getLatestEdgeSchemaAndName st0 in
  if succeeded ret then
    match schema_ st1 with
    | None => (E_STORAGE_SCHEMA_EDGE_NOT_FOUND, st1)
    | Some schema =>
        let '(ret2, st2) := checkPropsAndGetDefaultValue node schema st1 in
        if succeeded ret2 then
          let st3 := buildEdgeContext ek st2 in
          let st4 := set_key_ (edgeKey (vIdLen_ planCtx) partId (EdgeKey_src ek)
                                 (EdgeKey_edge_type ek) (EdgeKey_ranking ek)
                                 (EdgeKey_dst ek)) st3 in
          (SUCCEEDED, set_rowWriter_ (Some (RowWriterV2_new schema)) st4)
        else (ret2, st2)
    end
  else (ret, st1).

Definition collEdgeProp (ek : EdgeKey) (st : State) : ErrorCode * State :=
  let '(ret, st1) := getLatestEdgeSchemaAndName st in
  if succeeded ret then
    match schema_ st1, reader_ st1 with
    | Some schema, Some reader =>
        let '(ok, st2) := collectProps reader schema schema st1 in
        if ok then
          let st3 := buildEdgeContext ek st2 in
          let st4 := set_rowWriter_ (Some (RowWriterV2_new schema)) st3 in
          (SUCCEEDED, set_val_ (getData reader) st4)
        else (E_STORAGE_QUERY_READ_EDGE_PROP_FAILED, st2)
    | _, _ => (E_STORAGE_SCHEMA_EDGE_NOT_FOUND, st1)
    end
  else (ret, st1).

Definition indexKey (partId : PartitionID) (ek : EdgeKey) (reader : RowReader)
    (index : IndexItem) : string :=
  match collectIndexValues reader (fields index) with
  | None => EmptyString
  | Some values =>
      edgeIndexKey (vIdLen_ planCtx) partId (index_id index) (EdgeKey_src ek)
        (EdgeKey_ranking ek) (EdgeKey_dst ek) values
  end.

Definition updateAndWriteBack (partId : PartitionID) (ek : EdgeKey) (st : State)
    : option (list BatchOp) * State :=
  let '(ok, st1) := applyUpdatedProps setEdgeProp (edgeName_ st) (updatedProps_ node) st in
  if ok then
    writeBack node
      (fun index => bool_decide (edgeType = get_edge_type (schema_id index)))
      (indexKey partId ek)
      (getEdgePropReader (spaceId_ planCtx) (std_abs edgeType))
      partId st1
  else (None, st1).

(** The part of [op] that takes the reader of the filter node, resets
    the expression context and collects the properties of the row, old
    or new. *)
Definition collect (run : FilterRun) (partId : PartitionID) (ek : EdgeKey) (st1 : State)
    : ErrorCode * State :=
  let st2 := if FilterNode_valid run
             then set_reader_ (FilterNode_reader run) st1 else st1 in
  (* reset StorageExpressionContext reader_ to clean old value in context *)
  let st3 := set_expCtx_ (reset (expCtx_ st2)) st2 in
  match reader_ st3 with
  | None => if insertable_ node then insertEdgeProps partId ek st3
            else (E_STORAGE_KVSTORE_KEY_NOT_FOUND, st3)
  | Some _ => collEdgeProp ek (set_key_ (FilterNode_key run) st3)
  end.

(** The closure [op] of [execute]: the batch to commit, or none with
    the reason in [exeResult_]. *)
Definition op (partId : PartitionID) (ek : EdgeKey) (st : State) (w : World)
    : option (list BatchOp) * State * World :=
  let run := filterNode_ partId ek (kvstore_ w) (expCtx_ st) in
  let w1 := emit (RunDependencies partId) w in
  let st1 := set_exeResult_ (RelNode_ret run)
               (set_expCtx_ (RelNode_expCtx run)
                  (set_resultStat_ (RelNode_resultStat run) st)) in
  if succeeded (exeResult_ st1) then
    if negb (bool_decide (EdgeKey_edge_type ek = edgeType))
    then (None, set_exeResult_ E_STORAGE_KVSTORE_KEY_NOT_FOUND st1, w1)
    else
      match resultStat_ st1 with
      | ILLEGAL_DATA => (None, set_exeResult_ E_STORAGE_QUERY_INVALID_DATA st1, w1)
      | FILTER_OUT => (None, set_exeResult_ E_STORAGE_QUERY_FILTER_NOT_PASSED st1, w1)
      | NORMAL =>
          let '(ret, st4) := collect run partId ek st1 in
          let st5 := set_exeResult_ ret st4 in
          if succeeded (exeResult_ st5) then
            let '(batch, st6) := updateAndWriteBack partId ek st5 in
            match batch with
            | None =>
                (* There is an error in updateAndWriteBack *)
                (None, set_exeResult_ E_STORAGE_QUERY_INVALID_DATA st6, w1)
            | Some b => (Some b, st6, w1)
            end
          else (None, st5, w1)
      end
  else
    (* If filter out, StorageExpressionContext is set in filterNode *)
    (None, st1, w1).

(** [txnMan_ && txnMan_->enableToss(spaceId_)]: the manager to go
    through, if any. *)
Definition tossManager : option TransactionManager :=
  match txnMan_ (env_ planCtx) with
  | Some txnMan => if enableToss txnMan (spaceId_ planCtx) then Some txnMan else None
  | None => None
  end.

(** [execute] between taking the lock and releasing it: through the
    transaction manager when it is enabled for the space, with
    [asyncAppendBatch] otherwise.  The closure runs once on both ways. *)
Definition executeLocked (partId : PartitionID) (ek : EdgeKey) (st : State) (w : World)
    : ErrorCode * State * World :=
  let '(batch, st', w1) := op partId ek st w in
  match tossManager with
  | Some txnMan =>
      let w2 := emit (UpdateEdgeAtomic (spaceId_ planCtx) partId ek batch) w1 in
      let '(f, store') := updateEdgeAtomic txnMan (vIdLen_ planCtx) (spaceId_ planCtx)
                            partId ek batch (kvstore_ w2) in
      (match f with Some ret => ret | None => E_UNKNOWN end,
       st', set_kvstore_ store' w2)
  | None =>
      match batch with
      | None => (exeResult_ st', st', w1)
      | Some b =>
          let '(code, w2) := asyncAppendBatch (env_ planCtx) (spaceId_ planCtx)
                               partId b w1 in
          (code, st', w2)
      end
  end.

Definition execute (partId : PartitionID) (ek : EdgeKey) (st : State) (w : World)
    : ErrorCode * State * World :=
  (* Update is read-modify-write, which is an atomic operation. *)
  let dummyLock := (spaceId_ planCtx, partId, EdgeKey_src ek, EdgeKey_edge_type ek,
                    EdgeKey_ranking ek, EdgeKey_dst ek) in
  match MemoryLockGuard_lock (edgesML_ w) dummyLock with
  | None =>
      (E_STORAGE_QUERY_CONCURRENT_MODIFY, st, emit (LogEdgeConflict dummyLock) w)
  | Some locked =>
      let '(ret, st', w') := executeLocked partId ek st (set_edgesML_ locked w) in
      (ret, st', set_edgesML_ (MemoryLockGuard_unlock (edgesML_ w') dummyLock) w')
  end.
End UpdateEdgeNode.
End UpdateEdgeNode.

(** ** UpdateResNode: the yielded columns *)

Module UpdateResNode.
Section UpdateResNode.
Context {E : ExprEngine} {C : RowCodec} {U : KeyUtils}.

(** [nebula::DataSet]. *)
Record DataSet : Type := mkDataSet {
  colNames : list string;
  rows : list (list Value)
}.

Variable returnPropsExp_ : list Expression.

(** [execute], given what the update node it depends on has returned
    and left behind. *)
Definition execute (updateNode : ErrorCode * State * World) (result_ : DataSet)
    : ErrorCode * DataSet :=
  let '(ret, st, _) := updateNode in
  if negb (succeeded ret) && negb (bool_decide (ret = E_STORAGE_QUERY_FILTER_NOT_PASSED))
  then (ret, result_)
  else
    (* Note: If filtered out, the result of tag prop is old *)
    let names := "_inserted"
                 :: map (fun exp => String.append (sym exp) (String.append "." (prop exp)))
                      returnPropsExp_ in
    let row := VBool (insert_ st)
               :: map (fun exp => Expression_eval exp (expCtx_ st)) returnPropsExp_ in
    (ret, mkDataSet (colNames result_ ++ names) (rows result_ ++ [row])).
End UpdateResNode.
End UpdateResNode.

(** ** A reference implementation of the collaborators

    The expression engine, the row codec and the key codec are outside
    these sources.  [Ref] gives each of them a small textual
    implementation, so that the executors can be run on concrete
    requests. *)

Module Ref.

(** *** Text helpers *)

Fixpoint showPos (p : positive) : string :=
  match p with
  | xH => "1"
  | xO q => String.append (showPos q) "0"
  | xI q => String.append (showPos q) "1"
  end.

(** An integer as its sign and binary digits. *)
Definition showZ (z : Z) : string :=
  match z with
  | Z0 => "0"
  | Zpos p => showPos p
  | Zneg p => String.append "-" (showPos p)
  end.

Fixpoint readBits (s : string) (acc : Z) : option Z :=
  match s with
  | EmptyString => Some acc
  | String c r =>
      if Ascii.eqb c "0"%char then readBits r (2 * acc)
      else if Ascii.eqb c "1"%char then readBits r (2 * acc + 1)
      else None
  end.

Definition readZ (s : string) : option Z :=
  match s with
  | EmptyString => None
  | String c r => if Ascii.eqb c "-"%char then Z.opp <$> readBits r 0 else readBits s 0
  end.

(** The text before and after the first occurrence of [c]. *)
Fixpoint splitAt (c : Ascii.ascii) (s : string) : option (string * string) :=
  match s with
  | EmptyString => None
  | String d r =>
      if Ascii.eqb d c then Some (EmptyString, r)
      else '(a, b) ← splitAt c r; Some (String d a, b)
  end.

Definition showValue (v : Value) : string :=
  match v with
  | VEmpty => "E"
  | VNull => "N"
  | VBool true => "T"
  | VBool false => "F"
  | VInt i => String "I"%char (showZ i)
  | VStr s => String "S"%char s
  end.

Definition readVal (s : string) : option Value :=
  match s with
  | String c r =>
      if Ascii.eqb c "E"%char then Some VEmpty
      else if Ascii.eqb c "N"%char then Some VNull
      else if Ascii.eqb c "T"%char then Some (VBool true)
      else if Ascii.eqb c "F"%char then Some (VBool false)
      else if Ascii.eqb c "I"%char then VInt <$> readZ r
      else if Ascii.eqb c "S"%char then Some (VStr r)
      else None
  | EmptyString => None
  end.

(** *** Rows: a header byte, then [name=value;] for every column *)

Record Reader : Set := mkReader {
  rr_data : string;
  rr_row : list (string * Value)
}.

Definition lookupProp (p : string) (row : list (string * Value)) : option Value :=
  snd <$> List.find (fun e => bool_decide (e.1 = p)) row.

Fixpoint parseRow (fuel : nat) (s : string) : option (list (string * Value)) :=
  match s, fuel with
  | EmptyString, _ => Some []
  | _, O => None
  | _, S n =>
      '(col, rest) ← splitAt ";"%char s;
      '(name, txt) ← splitAt "="%char col;
      v ← readVal txt;
      row ← parseRow n rest;
      Some ((name, v) :: row)
  end.

Definition parseReader (data : string) : option Reader :=
  match data with
  | String c r =>
      if Ascii.eqb c "R"%char then mkReader data <$> parseRow (String.length r) r else None
  | EmptyString => None
  end.

(** *** Expressions and their context *)

Inductive Expr : Set :=
| ConstantExpression (v : Value)
| TagPropertyExpression (sym prop : string)
| EdgePropertyExpression (sym prop : string)
| ArithmeticAdd (a b : Expr)
| RelationalGT (a b : Expr).

(** The context reads a property from the row it was last pointed at,
    if any, and from the properties set on it otherwise. *)
Record Ctx : Type := mkCtx {
  ctx_reader : option (string * list (string * Value));
  ctx_props : gmap (string * string) Value
}.

Definition getProp (ctx : Ctx) (s p : string) : Value :=
  match ctx_reader ctx with
  | Some (name, row) =>
      if bool_decide (name = s) then default VEmpty (lookupProp p row) else VEmpty
  | None => default VEmpty (ctx_props ctx !! (s, p))
  end.

Fixpoint evalExpr (e : Expr) (ctx : Ctx) : Value :=
  match e with
  | ConstantExpression v => v
  | TagPropertyExpression s p => getProp ctx s p
  | EdgePropertyExpression s p => getProp ctx s p
  | ArithmeticAdd a b =>
      match evalExpr a ctx, evalExpr b ctx with
      | VInt x, VInt y => VInt (x + y)
      | _, _ => VNull
      end
  | RelationalGT a b =>
      match evalExpr a ctx, evalExpr b ctx with
      | VInt x, VInt y => VBool (Z.ltb y x)
      | _, _ => VNull
      end
  end.

Fixpoint encodeExpr (e : Expr) : string :=
  match e with
  | ConstantExpression v => String "C"%char (String.append (showValue v) ";")
  | TagPropertyExpression s p =>
      String "T"%char (String.append s (String "."%char (String.append p ";")))
  | EdgePropertyExpression s p =>
      String "P"%char (String.append s (String "."%char (String.append p ";")))
  | ArithmeticAdd a b => String "+"%char (String.append (encodeExpr a) (encodeExpr b))
  | RelationalGT a b => String ">"%char (String.append (encodeExpr a) (encodeExpr b))
  end.

Fixpoint parseExpr (fuel : nat) (s : string) : option (Expr * string) :=
  match fuel, s with
  | S n, String c r =>
      if Ascii.eqb c "C"%char then
        '(txt, rest) ← splitAt ";"%char r; v ← readVal txt; Some (ConstantExpression v, rest)
      else if Ascii.eqb c "T"%char then
        '(q, rest) ← splitAt ";"%char r; '(sy, pr) ← splitAt "."%char q;
        Some (TagPropertyExpression sy pr, rest)
      else if Ascii.eqb c "P"%char then
        '(q, rest) ← splitAt ";"%char r; '(sy, pr) ← splitAt "."%char q;
        Some (EdgePropertyExpression sy pr, rest)
      else if Ascii.eqb c "+"%char then
        '(a, r1) ← parseExpr n r; '(b, r2) ← parseExpr n r1; Some (ArithmeticAdd a b, r2)
      else if Ascii.eqb c ">"%char then
        '(a, r1) ← parseExpr n r; '(b, r2) ← parseExpr n r1; Some (RelationalGT a b, r2)
      else None
  | _, _ => None
  end.

Definition decodeExpr (s : string) : option Expr :=
  match parseExpr (String.length s) s with
  | Some (e, EmptyString) => Some e
  | _ => None
  end.

#[export] Instance engine : ExprEngine := {|
  Expression := Expr;
  ExprCtx := Ctx;
  Expression_decode := decodeExpr;
  Expression_eval := evalExpr;
  sym := fun e => match e with
                  | TagPropertyExpression s _ | EdgePropertyExpression s _ => s
                  | _ => EmptyString
                  end;
  prop := fun e => match e with
                   | TagPropertyExpression _ p | EdgePropertyExpression _ p => p
                   | _ => EmptyString
                   end;
  reset := fun ctx => mkCtx None (ctx_props ctx);
  setTagProp := fun ctx s p v => mkCtx (ctx_reader ctx) (<[(s, p) := v]> (ctx_props ctx));
  setEdgeProp := fun ctx s p v => mkCtx (ctx_reader ctx) (<[(s, p) := v]> (ctx_props ctx))
|}.

Definition emptyCtx : Ctx := mkCtx None ∅.

(** *** Reading and writing rows under a schema *)

(** The stored value, else the default of the column, else null. *)
Definition readProp (reader : Reader) (p : string) (schema : Schema) : option Value :=
  match lookupProp p (rr_row reader) with
  | Some v => Some v
  | None =>
      f ← Schema_field schema p;
      match Field_defaultValue f with
      | Some e => Some (evalExpr e emptyCtx)
      | None => if Field_nullable f then Some VNull else None
      end
  end.

Record Writer : Type := mkWriter {
  w_schema : Schema;
  w_values : gmap string Value;
  w_out : string
}.

Definition writerSet (w : Writer) (name : string) (v : Value) : ErrorCode * Writer :=
  match Schema_field (w_schema w) name with
  | None => (E_OTHER 1, w)
  | Some f =>
      if bool_decide (v = VNull) && negb (Field_nullable f) then (E_OTHER 2, w)
      else (SUCCEEDED, mkWriter (w_schema w) (<[name := v]> (w_values w)) (w_out w))
  end.

Fixpoint encodeFields (fs : list Field) (vals : gmap string Value) : option string :=
  match fs with
  | [] => Some EmptyString
  | f :: rest =>
      v ← match vals !! Field_name f with
          | Some v => Some v
          | None =>
              match Field_defaultValue f with
              | Some e => Some (evalExpr e emptyCtx)
              | None => if Field_nullable f then Some VNull else None
              end
          end;
      tail ← encodeFields rest vals;
      Some (String.append (Field_name f)
              (String "="%char (String.append (showValue v) (String ";"%char tail))))
  end.

Definition writerFinish (w : Writer) : ErrorCode * Writer :=
  match encodeFields (w_schema w) (w_values w) with
  | Some out => (SUCCEEDED, mkWriter (w_schema w) (w_values w) (String "R"%char out))
  | None => (E_OTHER 3, w)
  end.

#[export] Instance codec : RowCodec := {|
  RowReader := Reader;
  getData := rr_data;
  readValue := readProp;
  getTagPropReader := fun _ _ data => parseReader data;
  getEdgePropReader := fun _ _ data => parseReader data;
  ttlValue := fun _ _ => None;
  RowWriterV2 := Writer;
  RowWriterV2_new := fun schema => mkWriter schema ∅ EmptyString;
  setValue := writerSet;
  finish := writerFinish;
  moveEncodedStr := w_out
|}.

(** *** Keys *)

Definition join (parts : list string) : string :=
  fold_right (fun a b => String.append a (String ":"%char b)) EmptyString parts.

Fixpoint indexValues (row : list (string * Value)) (cols : list ColumnDef)
    : option string :=
  match cols with
  | [] => Some EmptyString
  | c :: rest =>
      v ← lookupProp (col_name c) row;
      tail ← indexValues row rest;
      if bool_decide (v = VNull) then None
      else Some (String.append (showValue v) (String ","%char tail))
  end.

#[export] Instance keys : KeyUtils := {|
  vertexKey := fun _ part vid tag => join ["V"; showZ part; vid; showZ tag];
  edgeKey := fun _ part src type rank dst =>
    join ["E"; showZ part; src; showZ type; showZ rank; dst];
  collectIndexValues := fun reader cols => indexValues (rr_row reader) cols;
  vertexIndexKey := fun _ part idx vid values => join ["I"; showZ part; showZ idx; values; vid];
  edgeIndexKey := fun _ part idx src rank dst values =>
    join ["I"; showZ part; showZ idx; values; src; showZ rank; dst];
  indexVal := showValue;
  deleteOperationKey := fun part => join ["D"; showZ part];
  modifyOperationKey := fun part key => join ["M"; showZ part; key]
|}.

(** *** The nodes an update node depends on *)

(** Modelled from the spec: the read of the row and the filter.  A row
    that is not found is not an error; on a row that is found the
    filter is evaluated in a context that reads the row, a boolean
    false yields [FILTER_OUT] and any other value but true yields
    [ILLEGAL_DATA]. *)
Definition filterRun (spaceId : GraphSpaceID) (name key : string)
    (filterExp : option Expr) (store : gmap (Z * Z * string) string)
    (partId : PartitionID) (ctx : Ctx) : FilterRun :=
  match store !! (spaceId, partId, key) with
  | None => mkFilterRun SUCCEEDED NORMAL ctx false None EmptyString
  | Some data =>
      match parseReader data with
      | None => mkFilterRun E_STORAGE_QUERY_INVALID_DATA NORMAL ctx false None EmptyString
      | Some reader =>
          let ctx' := mkCtx (Some (name, rr_row reader)) (ctx_props ctx) in
          let stat := match filterExp with
                      | None => NORMAL
                      | Some f =>
                          match evalExpr f ctx' with
                          | VBool true => NORMAL
                          | VBool false => FILTER_OUT
                          | _ => ILLEGAL_DATA
                          end
                      end in
          mkFilterRun SUCCEEDED stat ctx' true (Some reader) key
      end
  end.

Definition tagFilterNode (spaceId : GraphSpaceID) (vIdLen : Z) (tagId : TagID)
    (tagName : string) (filterExp : option Expr)
    : PartitionID -> string -> gmap (Z * Z * string) string -> Ctx -> FilterRun :=
  fun partId vId store ctx =>
    filterRun spaceId tagName (vertexKey vIdLen partId vId tagId) filterExp store partId ctx.

Definition edgeFilterNode (spaceId : GraphSpaceID) (vIdLen : Z)
    (edgeName : string) (filterExp : option Expr)
    : PartitionID -> EdgeKey -> gmap (Z * Z * string) string -> Ctx -> FilterRun :=
  fun partId ek store ctx =>
    filterRun spaceId edgeName
      (edgeKey vIdLen partId (EdgeKey_src ek) (EdgeKey_edge_type ek)
         (EdgeKey_ranking ek) (EdgeKey_dst ek))
      filterExp store partId ctx.

End Ref.

(** ** The index records of a mutation, by the state of the index *)

Section IndexRecords.
Context {E : ExprEngine} {C : RowCodec} {U : KeyUtils}.

(** The record for the old index key [oi]: a removal when the index is
    normal, a delete-operation log record under the delete-operation key
    of the partition when it is being rebuilt, none when it is locked. *)
Definition oldIndexRecord (iState : IndexState) (partId : PartitionID) (oi : string)
    : option BatchOp :=
  match iState with
  | Normal => Some (OP_BATCH_REMOVE oi)
  | Rebuilding => Some (OP_BATCH_PUT (deleteOperationKey partId) oi)
  | Locked => None
  end.

(** The record for the new index key [ni] with the value [niv]: a put
    when the index is normal, a modify-operation log record under the
    modify-operation key of the partition for [ni] when it is being
    rebuilt, none when it is locked. *)
Definition newIndexRecord (iState : IndexState) (partId : PartitionID) (ni niv : string)
    : option BatchOp :=
  match iState with
  | Normal => Some (OP_BATCH_PUT ni niv)
  | Rebuilding => Some (OP_BATCH_PUT (modifyOperationKey partId ni) niv)
  | Locked => None
  end.

(** The value stored with a new index key: the TTL anchor of the row,
    if it has one. *)
Definition indexValueOf (schema : Schema) (nReader : RowReader) : string :=
  match ttlValue schema nReader with
  | Some v => indexVal v
  | None => EmptyString
  end.

(** [op] is an index record of [index]: the record of its old key,
    read through [reader] when the old row [val] is not empty, or of its
    new key, read through [newReader]. *)
Inductive IndexRecord (indexKey : RowReader -> IndexItem -> string)
    (val : string) (reader newReader : option RowReader) (schema : Schema)
    (iState : IndexState) (partId : PartitionID) (index : IndexItem) (op : BatchOp)
    : Prop :=
| OldRecord (r : RowReader) :
    val <> EmptyString ->
    reader = Some r ->
    indexKey r index <> EmptyString ->
    oldIndexRecord iState partId (indexKey r index) = Some op ->
    IndexRecord indexKey val reader newReader schema iState partId index op
| NewRecord (nr : RowReader) :
    newReader = Some nr ->
    indexKey nr index <> EmptyString ->
    newIndexRecord iState partId (indexKey nr index) (indexValueOf schema nr) = Some op ->
    IndexRecord indexKey val reader newReader schema iState partId index op.
End IndexRecords.

(** ** One update request: the executor of a vertex or of an edge *)

Section UpdateExecutor.
Context {E : ExprEngine} {C : RowCodec} {U : KeyUtils}.

Inductive UpdateExecutor : Type :=
| OnVertex (node : UpdateNode) (filterNode_ : FilterNode string)
    (tagContext_ : UpdateTagNode.TagContext) (vId : string)
| OnEdge (node : UpdateNode) (filterNode_ : FilterNode EdgeKey)
    (edgeContext_ : UpdateEdgeNode.EdgeContext) (edgeKey : EdgeKey).

Definition runExecutor (x : UpdateExecutor) (partId : PartitionID) (st : State)
    (w : World) : ErrorCode * State * World :=
  match x with
  | OnVertex node filterNode_ tagContext_ vId =>
      UpdateTagNode.execute node filterNode_ tagContext_ partId vId st w
  | OnEdge node filterNode_ edgeContext_ ek =>
      UpdateEdgeNode.execute node filterNode_ edgeContext_ partId ek st w
  end.

Definition nodeOf (x : UpdateExecutor) : UpdateNode :=
  match x with
  | OnVertex node _ _ _ => node
  | OnEdge node _ _ _ => node
  end.

(** The memory-lock key of the row is in its lock table. *)
Definition lockHeld (x : UpdateExecutor) (partId : PartitionID) (w : World) : Prop :=
  match x with
  | OnVertex node _ _ vId =>
      (spaceId_ (planContext_ node), partId, tagId_ (planContext_ node), vId)
        ∈ verticesML_ w
  | OnEdge node _ _ ek =>
      (spaceId_ (planContext_ node), partId, EdgeKey_src ek, EdgeKey_edge_type ek,
       EdgeKey_ranking ek, EdgeKey_dst ek) ∈ edgesML_ w
  end.

(** The report of a conflict on that key. *)
Definition conflictReport (x : UpdateExecutor) (partId : PartitionID) : Event :=
  match x with
  | OnVertex node _ _ vId =>
      LogVertexConflict
        (spaceId_ (planContext_ node), partId, tagId_ (planContext_ node), vId)
  | OnEdge node _ _ ek =>
      LogEdgeConflict
        (spaceId_ (planContext_ node), partId, EdgeKey_src ek, EdgeKey_edge_type ek,
         EdgeKey_ranking ek, EdgeKey_dst ek)
  end.

(** The commits among a list of events. *)
Definition isCommit (e : Event) : bool :=
  match e with
  | AsyncAppendBatch _ _ _ | UpdateEdgeAtomic _ _ _ _ => true
  | _ => false
  end.


(** What the nodes the executor depends on leave behind. *)
Definition dependenciesOf (x : UpdateExecutor) (partId : PartitionID) (st : State)
    (w : World) : FilterRun :=
  match x with
  | OnVertex _ filterNode_ _ vId => filterNode_ partId vId (kvstore_ w) (expCtx_ st)
  | OnEdge _ filterNode_ _ ek => filterNode_ partId ek (kvstore_ w) (expCtx_ st)
  end.

(** The executor hands its batch to the store itself: always for a
    vertex, and for an edge when no transaction manager is enabled for
    the space. *)
Definition commitsDirectly (x : UpdateExecutor) : Prop :=
  match x with
  | OnVertex _ _ _ _ => True
  | OnEdge node _ _ _ => UpdateEdgeNode.tossManager node = None
  end.

(** The requested key is of the edge type the executor is made for. *)
Definition keyOfOwnType (x : UpdateExecutor) : Prop :=
  match x with
  | OnVertex _ _ _ _ => True
  | OnEdge node _ _ ek => EdgeKey_edge_type ek = edgeType_ (planContext_ node)
  end.

(** The stages of an update that has the lock: the state the nodes it
    depends on leave it in, the collection of the properties, and the
    making of the batch. *)
Definition afterDependencies (x : UpdateExecutor) (partId : PartitionID) (st : State)
    (w : World) : State :=
  let run := dependenciesOf x partId st w in
  let st1 := set_expCtx_ (RelNode_expCtx run)
               (set_resultStat_ (RelNode_resultStat run) st) in
  match x with
  | OnVertex _ _ _ _ => st1
  | OnEdge _ _ _ _ => set_exeResult_ (RelNode_ret run) st1
  end.

Definition collectOf (x : UpdateExecutor) (partId : PartitionID) (st : State)
    (w : World) : ErrorCode * State :=
  let run := dependenciesOf x partId st w in
  match x with
  | OnVertex node _ tagContext_ vId =>
      UpdateTagNode.collect node tagContext_ run partId vId
        (afterDependencies x partId st w)
  | OnEdge node _ edgeContext_ ek =>
      let '(ret, st4) := UpdateEdgeNode.collect node edgeContext_ run partId ek
                           (afterDependencies x partId st w) in
      (ret, set_exeResult_ ret st4)
  end.

Definition updateAndWriteBackOf (x : UpdateExecutor) (partId : PartitionID) (st : State)
    : option (list BatchOp) * State :=
  match x with
  | OnVertex node _ _ vId => UpdateTagNode.updateAndWriteBack node partId vId st
  | OnEdge node _ _ ek => UpdateEdgeNode.updateAndWriteBack node partId ek st
  end.

(** The parts of [updateAndWriteBack] in which the two executors
    differ. *)
Definition setPropOf (x : UpdateExecutor) : ExprCtx -> string -> string -> Value -> ExprCtx :=
  match x with
  | OnVertex _ _ _ _ => setTagProp
  | OnEdge _ _ _ _ => setEdgeProp
  end.

Definition nameOf (x : UpdateExecutor) (st : State) : string :=
  match x with
  | OnVertex _ _ _ _ => tagName_ st
  | OnEdge _ _ _ _ => edgeName_ st
  end.

Definition matchesOf (x : UpdateExecutor) (index : IndexItem) : bool :=
  match x with
  | OnVertex node _ _ _ =>
      bool_decide (tagId_ (planContext_ node) = get_tag_id (schema_id index))
  | OnEdge node _ _ _ =>
      bool_decide (edgeType_ (planContext_ node) = get_edge_type (schema_id index))
  end.

Definition indexKeyOf (x : UpdateExecutor) (partId : PartitionID) (reader : RowReader)
    (index : IndexItem) : string :=
  match x with
  | OnVertex node _ _ vId => UpdateTagNode.indexKey node partId vId reader index
  | OnEdge node _ _ ek => UpdateEdgeNode.indexKey node partId ek reader index
  end.

Definition newReaderOf (x : UpdateExecutor) (nVal : string) : option RowReader :=
  match x with
  | OnVertex node _ _ _ =>
      getTagPropReader (spaceId_ (planContext_ node)) (tagId_ (planContext_ node)) nVal
  | OnEdge node _ _ _ =>
      getEdgePropReader (spaceId_ (planContext_ node))
        (std_abs (edgeType_ (planContext_ node))) nVal
  end.

(** The first part of [updateAndWriteBack]: the assignments and the
    encoding of the new row; the encoded row and the state then, or
    none. *)
Definition newRowOf (x : UpdateExecutor) (st : State) : option (string * State) :=
  let '(ok, st1) := applyUpdatedProps (setPropOf x) (nameOf x st)
                      (updatedProps_ (nodeOf x)) st in
  if ok then
    let '(encoded, st2) := encodeRow st1 in
    nVal ← encoded; Some (nVal, st2)
  else None.

(** The executor is ready to write [st4]: it has the lock, it commits
    by itself, the key is of its own type, the nodes it depends on have
    succeeded with the filter passed, and the properties of the row are
    collected, which leaves the state [st4]. *)
Definition readyToWrite (x : UpdateExecutor) (partId : PartitionID) (st : State)
    (w : World) (st4 : State) : Prop :=
  ~ lockHeld x partId w
  /\ commitsDirectly x
  /\ keyOfOwnType x
  /\ RelNode_ret (dependenciesOf x partId st w) = SUCCEEDED
  /\ RelNode_resultStat (dependenciesOf x partId st w) = NORMAL
  /\ collectOf x partId st w = (SUCCEEDED, st4).

(** The index loop of the executor on the encoded row [nVal]: every
    index record of the mutation, or none when the loop gives up. *)
Definition indexRecordsOf (x : UpdateExecutor) (partId : PartitionID) (st : State)
    (schema : Schema) (nVal : string) : option (list BatchOp) :=
  updateIndexes (matchesOf x) (indexKeyOf x partId) (newReaderOf x nVal) schema
    (getIndexState (env_ (planContext_ (nodeOf x))) (spaceId_ (planContext_ (nodeOf x)))
       partId)
    partId (val_ st) (reader_ st) (indexes_ (nodeOf x)) None [].

(** [batch] is the batch of the mutation: the properties are collected,
    the new row is encoded, the index loop returns [records], which are
    exactly the index records of the indexes that target the schema, and
    the batch is these records followed by the put of the row. *)
Definition batchOfMutation (x : UpdateExecutor) (partId : PartitionID) (st : State)
    (w : World) (batch : list BatchOp) : Prop :=
  exists st4 nVal st2 schema records,
    collectOf x partId st w = (SUCCEEDED, st4)
    /\ newRowOf x st4 = Some (nVal, st2)
    /\ schema_ st2 = Some schema
    /\ indexRecordsOf x partId st2 schema nVal = Some records
    /\ (forall op,
          op ∈ records <->
          exists index,
            index ∈ indexes_ (nodeOf x) /\ matchesOf x index = true
            /\ IndexRecord (indexKeyOf x partId) (val_ st2) (reader_ st2)
                 (newReaderOf x nVal) schema
                 (getIndexState (env_ (planContext_ (nodeOf x)))
                    (spaceId_ (planContext_ (nodeOf x))) partId)
                 partId index op)
    /\ batch = records ++ [OP_BATCH_PUT (key_ st2) nVal].

(** The executor has collected the properties of the row into [st4],
    whichever way it commits: it has the lock, the key is of its own
    type, the nodes it depends on have succeeded with the filter
    passed, and the collection has succeeded. *)
Definition propsCollected (x : UpdateExecutor) (partId : PartitionID) (st : State)
    (w : World) (st4 : State) : Prop :=
  ~ lockHeld x partId w
  /\ keyOfOwnType x
  /\ RelNode_ret (dependenciesOf x partId st w) = SUCCEEDED
  /\ RelNode_resultStat (dependenciesOf x partId st w) = NORMAL
  /\ collectOf x partId st w = (SUCCEEDED, st4).

(** What [execute] of an edge leaves when it goes through the
    transaction manager [txnMan] with what its closure has yielded,
    [batch]: the manager has been handed [batch] in the one call of
    [updateEdgeAtomic], the code returned is the value of the future,
    [E_UNKNOWN] when the future holds none, and the store is the one the
    manager leaves.  The executor itself has appended nothing. *)
Definition handedOver (txnMan : TransactionManager) (node : UpdateNode)
    (partId : PartitionID) (ek : EdgeKey) (batch : option (list BatchOp)) (w : World)
    (ret : ErrorCode) (w' : World) : Prop :=
  let planCtx := planContext_ node in
  let reply := updateEdgeAtomic txnMan (vIdLen_ planCtx) (spaceId_ planCtx) partId ek
                 batch (kvstore_ w) in
  ret = match reply.1 with Some code => code | None => E_UNKNOWN end
  /\ kvstore_ w' = reply.2
  /\ events w' = events w ++ [RunDependencies partId;
                              UpdateEdgeAtomic (spaceId_ planCtx) partId ek batch].

(** What [execute] leaves when it has made no batch and returns
    [code] itself: it has run the nodes it depends on and nothing
    else, and the store is as it was. *)
Definition leftAlone (partId : PartitionID) (w : World) (code ret : ErrorCode)
    (w' : World) : Prop :=
  ret = code
  /\ events w' = events w ++ [RunDependencies partId]
  /\ kvstore_ w' = kvstore_ w.

(** The executor stops without a batch, for the reason [code], in the
    state [st'].  An executor that commits by itself (a vertex, or an
    edge whose space does not have the transaction manager enabled)
    returns [code] with nothing committed.  An edge executor whose space
    has the transaction manager enabled has recorded [code] in
    [exeResult_], hands the manager no batch, and returns what the
    manager replies. *)
Definition stopsWith (x : UpdateExecutor) (partId : PartitionID) (st : State)
    (w : World) (code : ErrorCode) (st' : State) : Prop :=
  exists ret w',
    runExecutor x partId st w = (ret, st', w')
    /\ match x with
       | OnVertex _ _ _ _ => leftAlone partId w code ret w'
       | OnEdge node _ _ ek =>
           match UpdateEdgeNode.tossManager node with
           | None => leftAlone partId w code ret w'
           | Some txnMan =>
               exeResult_ st' = code /\ handedOver txnMan node partId ek None w ret w'
           end
       end.


End UpdateExecutor.

(** ** The columns of a new row, as the specification words them *)

Section NewRowColumns.
Context {E : ExprEngine} {C : RowCodec} {U : KeyUtils}.

(** The column [f] is not set by the updates of the request: it is
    neither the name of an updated property nor a key of the dependency
    map made from them. *)
Definition notSetByUpdates (node : UpdateNode) (f : Field) : Prop :=
  (Field_name f ∉ map UpdatedProp_name (updatedProps_ node))
  /\ (Field_name f ∉ map fst (depPropMap_ node)).

(** The default of the column evaluated in [ctx] if it has one, and
    null otherwise. *)
Definition defaultOrNull (f : Field) (ctx : ExprCtx) : Value :=
  match Field_defaultValue f with
  | Some expr => Expression_eval expr ctx
  | None => VNull
  end.

Definition hasDefaultOrNullable (f : Field) : Prop :=
  is_Some (Field_defaultValue f) \/ Field_nullable f = true.

(** Every property the request names, to set it or to read it, is a
    column of the schema. *)
Definition namesKnown (node : UpdateNode) (schema : Schema) : Prop :=
  forall prop, prop ∈ depPropMap_ node ->
    is_Some (Schema_field schema prop.1)
    /\ forall p, p ∈ prop.2 -> is_Some (Schema_field schema p).
(** [st'] is [st] but for its properties. *)
Definition sameButProps (st st' : State) : Prop := st' = set_props_ (props_ st') st.

(** [f] has got its default or null in [st'], evaluated in [ctx]. *)
Definition defaulted (ctx : ExprCtx) (f : Field) (st' : State) : Prop :=
  props_ st' !! Field_name f = Some (defaultOrNull f ctx) /\ hasDefaultOrNullable f.

(** The invariant of the three loops of [checkPropsAndGetDefaultValue]:
    in [st'], every column of [schema] whose name satisfies [P], and
    which is not a key of the dependency map, has got its default or
    null. *)
Definition defaultsGiven (schema : Schema) (keys : list string) (ctx : ExprCtx)
    (P : string -> Prop) (st' : State) : Prop :=
  forall f, f ∈ schema -> P (Field_name f) -> Field_name f ∉ keys -> defaulted ctx f st'.
End NewRowColumns.

(** ** The look-ups of an edge schema, as the specification words them *)

Section EdgeSchemaLookup.
Context {E : ExprEngine} {C : RowCodec} {U : KeyUtils}.

(** The latest version of the schema stored under the absolute value
    of the edge type [t], when there is one and it is not null. *)
Definition latestByAbsoluteType (ec : UpdateEdgeNode.EdgeContext) (t : EdgeType)
    : option Schema :=
  versions ← UpdateEdgeNode.schemas_ ec !! std_abs t; back ← last versions; back.

(** The name stored under the signed edge type [t]. *)
Definition nameBySignedType (ec : UpdateEdgeNode.EdgeContext) (t : EdgeType)
    : option string :=
  UpdateEdgeNode.edgeNames_ ec !! t.
End EdgeSchemaLookup.

(** ** The latest schema of the row of an executor *)

Section LatestSchema.
Context {E : ExprEngine} {C : RowCodec} {U : KeyUtils}.

(** The latest version of the schema stored under the tag id [t], when
    there is one and it is not null. *)
Definition latestOfTag (tc : UpdateTagNode.TagContext) (t : TagID) : option Schema :=
  versions ← UpdateTagNode.schemas_ tc !! t; back ← last versions; back.

(** The latest schema and the name that the executor resolves: for a
    vertex under its tag id, for an edge as above. *)
Definition schemaAndNameOf (x : UpdateExecutor) : option (Schema * string) :=
  match x with
  | OnVertex node _ tc _ =>
      schema ← latestOfTag tc (tagId_ (planContext_ node));
      name ← UpdateTagNode.tagNames_ tc !! tagId_ (planContext_ node);
      Some (schema, name)
  | OnEdge node _ ec _ =>
      schema ← latestByAbsoluteType ec (edgeType_ (planContext_ node));
      name ← nameBySignedType ec (edgeType_ (planContext_ node));
      Some (schema, name)
  end.
End LatestSchema.

(** ** The outcomes of an update, as a caller sees them *)

Section UpdateOutcomes.
Context {E : ExprEngine} {C : RowCodec} {U : KeyUtils}.

(** The reader of the stored row that the executor works on once the
    nodes it depends on have run: the reader of the filter node when
    that node is valid, the one the executor already had otherwise.
    [None] is a row that is not there. *)
Definition rowOf (x : UpdateExecutor) (partId : PartitionID) (st : State) (w : World)
    : option RowReader :=
  let run := dependenciesOf x partId st w in
  if FilterNode_valid run then FilterNode_reader run else reader_ st.

(** The codes by which the two executors differ. *)
Definition schemaNotFoundOf (x : UpdateExecutor) : ErrorCode :=
  match x with
  | OnVertex _ _ _ _ => E_STORAGE_SCHEMA_TAG_NOT_FOUND
  | OnEdge _ _ _ _ => E_STORAGE_SCHEMA_EDGE_NOT_FOUND
  end.

Definition readFailedOf (x : UpdateExecutor) : ErrorCode :=
  match x with
  | OnVertex _ _ _ _ => E_STORAGE_QUERY_READ_TAG_PROP_FAILD
  | OnEdge _ _ _ _ => E_STORAGE_QUERY_READ_EDGE_PROP_FAILED
  end.

(** The index records of one index, in the order in which the loop of
    [updateAndWriteBack] makes them: the record of the old key, if the
    old row has one, then the record of the new key, if the new row has
    one. *)
Definition indexOpsOf (indexKey : RowReader -> IndexItem -> string) (val : string)
    (reader newReader : option RowReader) (schema : Schema) (iState : IndexState)
    (partId : PartitionID) (index : IndexItem) : list BatchOp :=
  (if bool_decide (val = EmptyString) then []
   else match reader with
        | Some r =>
            if bool_decide (indexKey r index = EmptyString) then []
            else option_list (oldIndexRecord iState partId (indexKey r index))
        | None => []
        end)
  ++ match newReader with
     | Some nr =>
         if bool_decide (indexKey nr index = EmptyString) then []
         else option_list (newIndexRecord iState partId (indexKey nr index)
                             (indexValueOf schema nr))
     | None => []
     end.
End UpdateOutcomes.

(** ** BaseProcessor: asynchronous writes and the encoding of a row *)

Module BaseProcessorCalls.
Import BaseProcessor.

(** The members [handleAsync] works on: the result vector, the number
    of calls that have not called back yet, and how many times
    [onFinished] has been called.  [callingNum_] and [onFinished] are
    declared outside these sources; [callingNum_] is an integer that the
    caller sets before it issues the calls. *)
Record Processor : Set := mkProcessor {
  codes_ : list PartitionResult;
  callingNum_ : Z;
  finished : nat
}.

Section Calls.
Variable partLeader : GraphSpaceID -> PartitionID -> ErrorCode + HostAddr.

(** [handleAsync(spaceId, partId, code)], under [lock_]. *)
Definition handleAsync (spaceId : GraphSpaceID) (partId : PartitionID) (c : ErrorCode)
    (p : Processor) : Processor :=
  let codes := handleErrorCode partLeader c spaceId partId (codes_ p) in
  let callingNum := callingNum_ p - 1 in
  mkProcessor codes callingNum
    (if bool_decide (callingNum = 0) then S (finished p) else finished p).

(** The callbacks of the calls in flight, in the order in which the
    store runs them. *)
Definition handleAsyncs (spaceId : GraphSpaceID) (replies : list (PartitionID * ErrorCode))
    (p : Processor) : Processor :=
  fold_left (fun q r => handleAsync spaceId r.1 r.2 q) replies p.

End Calls.

Section EncodeRowVal.
Context {E : ExprEngine} {C : RowCodec}.

(** [RowWriterV2::setValue(index, value)], the overload that takes the
    position of the column; it is declared outside these sources. *)
Variable setValueAt : RowWriterV2 -> nat -> Value -> ErrorCode * RowWriterV2.

(** The loop over [propNames]: [props[i]] for every name.  Reading
    [props] past its end is undefined in the source; the model gives
    [None] for it. *)
Fixpoint setNamed (propNames : list string) (props : list Value) (w : RowWriterV2)
    : option (ErrorCode * RowWriterV2) :=
  match propNames with
  | [] => Some (SUCCEEDED, w)
  | name :: names =>
      match props with
      | [] => None
      | v :: vs =>
          let '(wRet, w') := setValue w name v in
          if succeeded wRet then setNamed names vs w' else Some (wRet, w')
      end
  end.

(** The loop over [props], by position, from position [i] on. *)
Fixpoint setPositional (i : nat) (props : list Value) (w : RowWriterV2)
    : ErrorCode * RowWriterV2 :=
  match props with
  | [] => (SUCCEEDED, w)
  | v :: vs =>
      let '(wRet, w') := setValueAt w i v in
      if succeeded wRet then setPositional (S i) vs w' else (wRet, w')
  end.

(** [encodeRowVal(schema, propNames, props)]: the code of the first
    write that fails, or the encoded row. *)
Definition encodeRowVal (schema : Schema) (propNames : list string) (props : list Value)
    : option (ErrorCode + string) :=
  let rowWrite := RowWriterV2_new schema in
  '(wRet, w) ← match propNames with
               | [] => Some (setPositional 0 props rowWrite)
               | _ :: _ => setNamed propNames props rowWrite
               end;
  if succeeded wRet then
    let '(fRet, w') := finish w in
    if succeeded fRet then Some (inr (moveEncodedStr w')) else Some (inl fRet)
  else Some (inl wRet).
End EncodeRowVal.

End BaseProcessorCalls.

(** ** The meta processors that drop and alter an edge schema *)

Module Meta.

(** Modelled from the spec: the error taxonomy, for the meta service.
    The enum is declared outside these sources; the constructors are the
    codes the two processors name, and [E_OTHER] covers every other code
    a collaborator may return. *)
Inductive ErrorCode : Set :=
| SUCCEEDED
| E_STORAGE_KVSTORE_KEY_NOT_FOUND
| E_META_SCHEMA_EDGE_NOT_FOUND
| E_META_SCHEMA_DROP_FORBIDDEN_WHEN_HAS_INDEX
| E_META_SCHEMA_DROP_FORBIDDEN_WHEN_HAS_FULLTEXT_INDEX
| E_META_FULLTEXT_INDEX_NOT_FOUND
| E_META_SCHEMA_CHANGE_FORBIDDEN_WHEN_HAS_TTL
| E_META_SCHEMA_INVALID_DEFAULT_VALUE
| E_OTHER (code : Z).

#[global] Instance ErrorCode_eq_dec : EqDecision ErrorCode.
Proof. solve_decision. Defined.

(** What a processor does that its caller sees, in call order:
    [handleErrorCode], [onFinished], [resp_.set_id] for an edge type,
    and the two writes, which finish the request themselves.  These
    members of the base processor are outside these sources. *)
Inductive Call : Set :=
| HandleErrorCode (c : ErrorCode)
| OnFinished
| SetId (edgeType : EdgeType)
| DoSyncMultiRemoveAndUpdate (keys : list string)
| DoSyncPutAndUpdate (data : list (string * string)).

#[global] Instance Call_eq_dec : EqDecision Call.
Proof. solve_decision. Defined.

(** [handleErrorCode(code); onFinished(); return;] *)
Definition fail (c : ErrorCode) : list Call := [HandleErrorCode c; OnFinished].

(** A 64-bit signed integer: the value of [z] in two's complement. *)
Definition int64 (z : Z) : Z := (z + 2 ^ 63) mod 2 ^ 64 - 2 ^ 63.

Section Processors.
(** The types of an index and of a full-text index. *)
Variable Index FTIndex : Type.
(** [doGet] and [doPrefix] of the base processor; an iterator is the
    list of the pairs it yields. *)
Variable doGet : string -> ErrorCode + string.
Variable doPrefix : string -> ErrorCode + list (string * string).
Variable getIndexes : GraphSpaceID -> EdgeType -> ErrorCode + list Index.
Variable getFTIndex : GraphSpaceID -> EdgeType -> ErrorCode + FTIndex.
(** [MetaServiceUtils]: the keys. *)
Variable indexEdgeKey : GraphSpaceID -> string -> string.
Variable schemaEdgePrefix : GraphSpaceID -> EdgeType -> string.
(** The macro [CHECK_SPACE_ID_AND_RETURN(spaceId)], the first statement
    of both processors, is declared outside these sources and is a
    parameter: [Some calls] when it returns from [process], having made
    these calls, and [None] when [process] goes on. *)
Variable CHECK_SPACE_ID_AND_RETURN : GraphSpaceID -> option (list Call).

Section DropEdgeProcessor.
(** The edge type in the bytes stored under the name of the edge
    ([reinterpret_cast<const EdgeType*>]). *)
Variable edgeTypeOf : string -> EdgeType.

(** [getEdgeKeys]: every key under the schema prefix of the edge. *)
Definition getEdgeKeys (id : GraphSpaceID) (edgeType : EdgeType)
    : ErrorCode + list string :=
  let key := schemaEdgePrefix id edgeType in
  match doPrefix key with
  | inl err => inl err
  | inr iter => inr (map fst iter)
  end.

(** [DropEdgeProcessor::process]; the two locks it holds are not
    modelled. *)
Definition DropEdgeProcessor_process (spaceId : GraphSpaceID) (edgeName : string)
    (if_exists : bool) : list Call :=
  match CHECK_SPACE_ID_AND_RETURN spaceId with
  | Some calls => calls
  | None =>
  let indexKey := indexEdgeKey spaceId edgeName in
  match doGet indexKey with
  | inr v =>
      let edgeType := edgeTypeOf v in
      SetId edgeType ::
      match getIndexes spaceId edgeType with
      | inl err => fail err
      | inr indexes =>
          match indexes with
          | _ :: _ => fail E_META_SCHEMA_DROP_FORBIDDEN_WHEN_HAS_INDEX
          | [] =>
              match getFTIndex spaceId edgeType with
              | inr _ => fail E_META_SCHEMA_DROP_FORBIDDEN_WHEN_HAS_FULLTEXT_INDEX
              | inl ftErr =>
                  if negb (bool_decide (ftErr = E_META_FULLTEXT_INDEX_NOT_FOUND))
                  then fail ftErr
                  else
                    match getEdgeKeys spaceId edgeType with
                    | inl err => fail err
                    | inr keys => [DoSyncMultiRemoveAndUpdate (keys ++ [indexKey])]
                    end
              end
          end
      end
  | inl retCode =>
      let retCode' :=
        if bool_decide (retCode = E_STORAGE_KVSTORE_KEY_NOT_FOUND)
        then if if_exists then SUCCEEDED else E_META_SCHEMA_EDGE_NOT_FOUND
        else retCode in
      fail retCode'
  end
  end.
End DropEdgeProcessor.

Section AlterEdgeProcessor.
(** [cpp2::ColumnDef] and the operation of an alter item; the fields of
    [cpp2::SchemaProp] that the processor reads are optional. *)
Variable Column AlterOp : Type.

Record SchemaProp : Type := mkSchemaProp {
  ttl_duration : option Z;
  ttl_col : option string
}.

Record Schema : Type := mkSchema {
  columns : list Column;
  schema_prop : SchemaProp
}.

(** An item of [req.get_edge_items()]. *)
Record AlterSchemaItem : Type := mkAlterSchemaItem {
  op : AlterOp;
  item_columns : list Column
}.

Variable getEdgeType : GraphSpaceID -> string -> ErrorCode + EdgeType.
Variable parseEdgeVersion : string -> Z.
Variable parseSchema : string -> Schema.
Variable indexCheck : list Index -> list AlterSchemaItem -> ErrorCode.
Variable FTIndex_fields : FTIndex -> list string.
Variable ftIndexCheck : list string -> list AlterSchemaItem -> ErrorCode.
(** [alterColumnDefs], [checkType] and [alterSchemaProp] take the
    columns and the property by reference; they return them here. *)
Variable alterColumnDefs :
  list Column -> SchemaProp -> Column -> AlterOp -> bool
  -> ErrorCode * list Column * SchemaProp.
Variable checkType : list Column -> bool * list Column.
Variable alterSchemaProp :
  list Column -> SchemaProp -> SchemaProp -> bool -> bool
  -> ErrorCode * list Column * SchemaProp.
Variable schemaEdgeKey : GraphSpaceID -> EdgeType -> Z -> string.
Variable schemaVal : string -> Schema -> string.

(** The inner loop: the columns of one item. *)
Fixpoint alterColumns (cols : list Column) (o : AlterOp) (columns : list Column)
    (prop : SchemaProp) : ErrorCode * list Column * SchemaProp :=
  match cols with
  | [] => (SUCCEEDED, columns, prop)
  | col :: rest =>
      let '(retCode, columns', prop') := alterColumnDefs columns prop col o true in
      if bool_decide (retCode = SUCCEEDED) then alterColumns rest o columns' prop'
      else (retCode, columns', prop')
  end.

(** The outer loop: the items of the request. *)
Fixpoint alterItems (edgeItems : list AlterSchemaItem) (columns : list Column)
    (prop : SchemaProp) : ErrorCode * list Column * SchemaProp :=
  match edgeItems with
  | [] => (SUCCEEDED, columns, prop)
  | edgeItem :: rest =>
      let '(retCode, columns', prop') :=
        alterColumns (item_columns edgeItem) (op edgeItem) columns prop in
      if bool_decide (retCode = SUCCEEDED) then alterItems rest columns' prop'
      else (retCode, columns', prop')
  end.

(** The test of a TTL in the request: a column is named and the
    duration is positive. *)
Definition setsTtl (alterProp : SchemaProp) : bool :=
  let duration := default 0 (ttl_duration alterProp) in
  let col := default EmptyString (ttl_col alterProp) in
  negb (bool_decide (col = EmptyString)) && bool_decide (0 < duration).

(** The end of [process]: the columns and the property are altered
    and checked, and the new version of the schema is written. *)
Definition alterAndPut (spaceId : GraphSpaceID) (edgeName : string) (edgeType : EdgeType)
    (version : Z) (schema : Schema) (existIndex : bool)
    (edgeItems : list AlterSchemaItem) (alterProp : SchemaProp) : list Call :=
  let '(retCode, columns1, prop1) :=
    alterItems edgeItems (columns schema) (schema_prop schema) in
  if negb (bool_decide (retCode = SUCCEEDED)) then fail retCode
  else
    let '(typesOk, columns2) := checkType columns1 in
    if negb typesOk then fail E_META_SCHEMA_INVALID_DEFAULT_VALUE
    else
      (* Update schema property if edge not index *)
      let '(retCode, columns3, prop3) :=
        alterSchemaProp columns2 prop1 alterProp existIndex true in
      if negb (bool_decide (retCode = SUCCEEDED)) then fail retCode
      else
        let schema' := mkSchema columns3 prop3 in
        [SetId edgeType;
         DoSyncPutAndUpdate
           [(schemaEdgeKey spaceId edgeType version, schemaVal edgeName schema')]].

(** [AlterEdgeProcessor::process]; the two locks it holds are not
    modelled.  The version is a 64-bit integer: its increment overflows
    on the greatest value, which the model wraps. *)
Definition AlterEdgeProcessor_process (spaceId : GraphSpaceID) (edgeName : string)
    (edgeItems : list AlterSchemaItem) (alterProp : SchemaProp) : list Call :=
  match CHECK_SPACE_ID_AND_RETURN spaceId with
  | Some calls => calls
  | None =>
  match getEdgeType spaceId edgeName with
  | inl retCode => fail retCode
  | inr edgeType =>
      (* the edge belongs to the space *)
      let edgePrefix := schemaEdgePrefix spaceId edgeType in
      match doPrefix edgePrefix with
      | inl retCode => fail retCode
      | inr [] => fail E_STORAGE_KVSTORE_KEY_NOT_FOUND
      | inr ((key, val) :: _) =>
          (* Get lasted version of edge *)
          let version := int64 (parseEdgeVersion key + 1) in
          let schema := parseSchema val in
          match getIndexes spaceId edgeType with
          | inl err => fail err
          | inr indexes =>
              let existIndex := match indexes with [] => false | _ :: _ => true end in
              let iStatus := if existIndex then indexCheck indexes edgeItems
                             else SUCCEEDED in
              if negb (bool_decide (iStatus = SUCCEEDED)) then fail iStatus
              else if existIndex && setsTtl alterProp
              then fail E_META_SCHEMA_CHANGE_FORBIDDEN_WHEN_HAS_TTL
              else
                (* check fulltext index *)
                match getFTIndex spaceId edgeType with
                | inr fti =>
                    let ftStatus := ftIndexCheck (FTIndex_fields fti) edgeItems in
                    if negb (bool_decide (ftStatus = SUCCEEDED)) then fail ftStatus
                    else alterAndPut spaceId edgeName edgeType version schema existIndex
                           edgeItems alterProp
                | inl ftErr =>
                    if negb (bool_decide (ftErr = E_META_FULLTEXT_INDEX_NOT_FOUND))
                    then fail ftErr
                    else alterAndPut spaceId edgeName edgeType version schema existIndex
                           edgeItems alterProp
                end
          end
      end
  end
  end.
End AlterEdgeProcessor.
End Processors.

End Meta.

(** ** Scenarios over the reference implementation

    A tag [person] with the columns [name] and [age] (nullable) and an
    index on [age]; an edge [knows] with the nullable column [since] and an
    index on it.  The store holds one vertex and one edge. *)

Module Scenario.
Import Ref.

Definition person : Schema :=
  [mkField "name" None false; mkField "age" None true].

Definition tagContext : UpdateTagNode.TagContext :=
  UpdateTagNode.mkTagContext {[ 10 := [Some person] ]} {[ 10 := "person" ]}.

Definition knows : Schema := [mkField "since" None true].

Definition edgeContext : UpdateEdgeNode.EdgeContext :=
  UpdateEdgeNode.mkEdgeContext {[ 20 := [Some knows] ]}
    {[ 20 := "knows"; -20 := "knows" ]}.

Definition ageIndex : IndexItem := mkIndexItem 7 "i_age" (tag_id 10) [columnDef "age" 0].

Definition sinceIndex : IndexItem :=
  mkIndexItem 8 "i_since" (edge_type 20) [columnDef "since" 0].

(** The replicated store of the scenarios accepts every batch. *)
Definition accepts (spaceId : GraphSpaceID) (partId : PartitionID)
    (batch : list BatchOp) : ErrorCode :=
  SUCCEEDED.

(** Modelled from the spec: a transaction manager that commits as the
    Commit step says.  It is enabled for every space; given the batch of
    its closure, it hands the batch to the replicated KV layer in one
    [asyncAppendBatch] and replies what the layer replies; given none,
    it commits nothing and its future holds no value. *)
Definition throughKV : TransactionManager :=
  mkTransactionManager (fun _ => true)
    (fun _ spaceId partId _ batch store =>
       match batch with
       | Some b =>
           let '(code, w) :=
             asyncAppendBatch (mkStorageEnv (fun _ _ => Normal) accepts None)
               spaceId partId b (mkWorld ∅ ∅ store []) in
           (Some code, kvstore_ w)
       | None => (None, store)
       end).

Definition env (iState : IndexState) (toss : bool) : StorageEnv :=
  mkStorageEnv (fun _ _ => iState) accepts
    (if toss then Some throughKV else None).

Definition planContext (iState : IndexState) (toss : bool) : PlanContext :=
  mkPlanContext (env iState toss) 1 8 10 20.

(** The properties an expression reads. *)
Fixpoint propsOf (e : Expr) : list string :=
  match e with
  | ConstantExpression _ => []
  | TagPropertyExpression _ p => [p]
  | EdgePropertyExpression _ p => [p]
  | ArithmeticAdd a b => propsOf a ++ propsOf b
  | RelationalGT a b => propsOf a ++ propsOf b
  end.

Definition node (iState : IndexState) (toss : bool) (indexes : list IndexItem)
    (isEdge : bool) (sets : list (string * Expr)) (insertable : bool) : UpdateNode :=
  mkUpdateNode (planContext iState toss) indexes
    (map (fun u => mkUpdatedProp u.1 (encodeExpr u.2)) sets)
    insertable
    (if insertable then map (fun u => (u.1, propsOf u.2)) sets else [])
    isEdge.

Definition onVertex (iState : IndexState) (sets : list (string * Expr))
    (filterExp : option Expr) (insertable : bool) (vId : string) : UpdateExecutor :=
  OnVertex (node iState false [ageIndex] false sets insertable)
    (tagFilterNode 1 8 10 "person" filterExp) tagContext vId.

Definition onEdge (iState : IndexState) (toss : bool) (sets : list (string * Expr))
    (filterExp : option Expr) (insertable : bool) (ek : EdgeKey) : UpdateExecutor :=
  OnEdge (node iState toss [sinceIndex] true sets insertable)
    (edgeFilterNode 1 8 "knows" filterExp) edgeContext ek.

Definition alice : string := "00000001".
Definition bob : string := "00000002".
Definition aliceKnowsBob : EdgeKey := mkEdgeKey alice 20 0 bob.

(** alice is 30; she knows bob since 5. *)
Definition aliceRow : string := "Rname=Sa;age=I11110;".
Definition knowsRow : string := "Rsince=I101;".

Definition aliceReader : Reader :=
  mkReader aliceRow [("name", VStr "a"); ("age", VInt 30)].

Definition store : gmap (Z * Z * string) string :=
  {[ (1, 1, vertexKey 8 1 alice 10) := aliceRow;
     (1, 1, vertexIndexKey 8 1 7 alice "I11110,") := EmptyString;
     (1, 1, edgeKey 8 1 alice 20 0 bob) := knowsRow;
     (1, 1, edgeIndexKey 8 1 8 alice 0 bob "I101,") := EmptyString ]}.

Definition world : World := mkWorld ∅ ∅ store [].

Definition int (i : Z) : Expr := ConstantExpression (VInt i).
Definition personProp (p : string) : Expr := TagPropertyExpression "person" p.

(** A fresh executor state over the empty expression context. *)
Definition fresh : State := newState emptyCtx.

(** The requests of the scenarios: alice turns 31, under each state of
    the index; alice turns 99 if she is older than 100; bob, who is not
    stored, is upserted with an age only; alice knows bob since 6, with
    and without the transaction manager, and under the opposite edge
    type. *)
Definition birthday (iState : IndexState) : UpdateExecutor :=
  onVertex iState [("age", int 31)] None false alice.

Definition filtered : UpdateExecutor :=
  onVertex Normal [("age", int 99)]
    (Some (RelationalGT (personProp "age") (int 100))) false alice.

Definition upsertBob (insertable : bool) : UpdateExecutor :=
  onVertex Normal [("age", int 31)] None insertable bob.

(** bob is upserted with a name only. *)
Definition namedBob : UpdateExecutor :=
  onVertex Normal [("name", ConstantExpression (VStr "b"))] None true bob.

Definition since6 (toss : bool) (ek : EdgeKey) : UpdateExecutor :=
  onEdge Normal toss [("since", int 6)] None false ek.

(** The state in which the properties of alice are collected, and the
    row and the reader of alice at 31. *)
Definition collected (iState : IndexState) : State :=
  (collectOf (birthday iState) 1 fresh world).2.

Definition aliceRow31 : string := "Rname=Sa;age=I11111;".


Definition encoded (iState : IndexState) : State :=
  match newRowOf (birthday iState) (collected iState) with
  | Some (_, st2) => st2
  | None => collected iState
  end.

(** A plan that fails on partition 2 and succeeds elsewhere, and a
    store that knows the leader of every partition. *)
Definition failsOn2 (plan : unit) (partId : PartitionID) : ErrorCode * unit :=
  (if bool_decide (partId = 2) then E_LEADER_CHANGED else SUCCEEDED, plan).

Definition leaderIsHost1 (spaceId : GraphSpaceID) (partId : PartitionID)
    : ErrorCode + HostAddr :=
  inr (mkHostAddr "host1" 9779).
End Scenario.

(** ** More scenarios

    A store in which the row of alice cannot be parsed; a filter that
    does not yield a boolean; an assignment whose expression cannot be
    decoded; a schema manager that does not know the tag; a row writer
    that sets a column by its position. *)

Module MoreScenarios.
Import Ref Scenario.

Definition corrupt : World :=
  mkWorld ∅ ∅ (<[ (1, 1, vertexKey 8 1 alice 10) := "?" ]> store) [].

Definition notABoolean : UpdateExecutor :=
  onVertex Normal [("age", int 31)] (Some (personProp "age")) false alice.

Definition undecodable : UpdateExecutor :=
  OnVertex (mkUpdateNode (planContext Normal false) [ageIndex]
              [mkUpdatedProp "age" "?"] false [] false)
    (tagFilterNode 1 8 10 "person" None) tagContext alice.

Definition unknownTag : UpdateExecutor :=
  OnVertex (node Normal false [ageIndex] false [("age", int 31)] false)
    (tagFilterNode 1 8 10 "person" None) (UpdateTagNode.mkTagContext ∅ ∅) alice.

Definition writerSetAt (w : Writer) (i : nat) (v : Value) : ErrorCode * Writer :=
  match w_schema w !! i with
  | Some f => writerSet w (Field_name f) v
  | None => (E_OTHER 1, w)
  end.

(** A transaction manager that is enabled for every space, commits
    nothing, and whose future holds [reply]: no value, or a code. *)
Definition replies (reply : option ErrorCode) : TransactionManager :=
  mkTransactionManager (fun _ => true) (fun _ _ _ _ _ store => (reply, store)).

(** The executor [x] in an environment whose transaction manager is
    [txnMan]. *)
Definition under (txnMan : TransactionManager) (x : UpdateExecutor) : UpdateExecutor :=
  match x with
  | OnVertex _ _ _ _ => x
  | OnEdge nd fn ec ek =>
      let planCtx := planContext_ nd in
      let env := env_ planCtx in
      OnEdge
        (mkUpdateNode
           (mkPlanContext
              (mkStorageEnv (getIndexState env) (appendReply env) (Some txnMan))
              (spaceId_ planCtx) (vIdLen_ planCtx) (tagId_ planCtx) (edgeType_ planCtx))
           (indexes_ nd) (updatedProps_ nd) (insertable_ nd) (depPropMap_ nd) (isEdge_ nd))
        fn ec ek
  end.

(** The requests of the further scenarios: alice knows bob since 6,
    under each state of the index; since 99 if since is greater than
    100; bob, who is not known to know alice, knows her since 6; the
    age of alice becomes unknown; and carol, whose age is unknown, is
    renamed. *)
Definition knowsSince6 (iState : IndexState) (toss : bool) (ek : EdgeKey)
    : UpdateExecutor :=
  onEdge iState toss [("since", int 6)] None false ek.


Definition knowsProp (p : string) : Expr := EdgePropertyExpression "knows" p.

Definition filteredEdge : UpdateExecutor :=
  onEdge Normal false [("since", int 99)]
    (Some (RelationalGT (knowsProp "since") (int 100))) false aliceKnowsBob.

Definition bobKnowsAlice : EdgeKey := mkEdgeKey bob 20 0 alice.


Definition carol : string := "00000003".
Definition carolRow : string := "Rname=Sc;age=N;".

Definition withCarol : World :=
  mkWorld ∅ ∅ (<[ (1, 1, vertexKey 8 1 carol 10) := carolRow ]> store) [].

Definition renameCarol (iState : IndexState) : UpdateExecutor :=
  onVertex iState [("name", ConstantExpression (VStr "d"))] None false carol.
End MoreScenarios.

(** ** A meta store with one edge

    The space 1 exists and no other.  The edge [knows] has the type 20
    and two versions of its schema, the latest first; keys are texts
    with the fields separated by colons, and a schema is the list of its
    column names. *)

Module MetaScenario.
Import Ref Meta.

(** Space 1 exists; for every other space the macro reports a failure
    and returns. *)
Definition CHECK_SPACE_ID_AND_RETURN (spaceId : GraphSpaceID) : option (list Call) :=
  if bool_decide (spaceId = 1) then None else Some (fail (E_OTHER 1)).

Definition indexEdgeKey (spaceId : GraphSpaceID) (name : string) : string :=
  String.append "e:" name.

Definition schemaEdgePrefix (spaceId : GraphSpaceID) (edgeType : EdgeType) : string :=
  String.append "s:" (String.append (showZ edgeType) ":").

Definition schemaEdgeKey (spaceId : GraphSpaceID) (edgeType : EdgeType) (version : Z)
    : string :=
  String.append (schemaEdgePrefix spaceId edgeType) (showZ version).

Definition doGet (key : string) : ErrorCode + string :=
  if bool_decide (key = "e:knows") then inr "10100"
  else inl E_STORAGE_KVSTORE_KEY_NOT_FOUND.

Definition doPrefix (prefix : string) : ErrorCode + list (string * string) :=
  if bool_decide (prefix = "s:10100:")
  then inr [("s:10100:1", "since,weight"); ("s:10100:0", "since")]
  else inr [].

Definition edgeTypeOf (v : string) : EdgeType := default 0 (readZ v).

Definition getEdgeType (spaceId : GraphSpaceID) (name : string) : ErrorCode + EdgeType :=
  match doGet (indexEdgeKey spaceId name) with
  | inr v => inr (edgeTypeOf v)
  | inl _ => inl E_META_SCHEMA_EDGE_NOT_FOUND
  end.

(** The indexes of an edge are given by the scenario. *)
Definition getIndexes (indexes : list string) (spaceId : GraphSpaceID)
    (edgeType : EdgeType) : ErrorCode + list string :=
  inr indexes.

Definition getFTIndex (spaceId : GraphSpaceID) (edgeType : EdgeType)
    : ErrorCode + unit :=
  inl E_META_FULLTEXT_INDEX_NOT_FOUND.

Definition parseEdgeVersion (key : string) : Z :=
  default 0 ('(_, rest) ← splitAt ":"%char key;
             '(_, version) ← splitAt ":"%char rest;
             readZ version).

Definition parseSchema (val : string) : Schema string :=
  mkSchema string [val] (mkSchemaProp None None).

(** An item adds its columns when its operation is [true] and drops
    them otherwise. *)
Definition alterColumnDefs (cols : list string) (prop : SchemaProp) (col : string)
    (o : bool) (isEdge : bool) : ErrorCode * list string * SchemaProp :=
  (SUCCEEDED,
   if o then cols ++ [col] else List.filter (fun c => negb (bool_decide (c = col))) cols,
   prop).

Definition alterSchemaProp (cols : list string) (prop alterProp : SchemaProp)
    (existIndex isEdge : bool) : ErrorCode * list string * SchemaProp :=
  (SUCCEEDED, cols, alterProp).

Definition schemaVal (name : string) (schema : Schema string) : string :=
  String.append name (String.append "=" (Ref.join (columns string schema))).

Definition drop (spaceId : GraphSpaceID) (edgeName : string) (if_exists : bool)
    : list Call :=
  DropEdgeProcessor_process string unit doGet doPrefix (getIndexes []) getFTIndex
    indexEdgeKey schemaEdgePrefix CHECK_SPACE_ID_AND_RETURN edgeTypeOf spaceId edgeName
    if_exists.

Definition alter (spaceId : GraphSpaceID) (indexes : list string) (edgeName : string)
    (edgeItems : list (AlterSchemaItem string bool)) (alterProp : SchemaProp)
    : list Call :=
  AlterEdgeProcessor_process string unit doPrefix (getIndexes indexes) getFTIndex
    schemaEdgePrefix CHECK_SPACE_ID_AND_RETURN string bool getEdgeType parseEdgeVersion
    parseSchema
    (fun _ _ => SUCCEEDED) (fun _ => []) (fun _ _ => SUCCEEDED)
    alterColumnDefs (fun cols => (true, cols)) alterSchemaProp schemaEdgeKey schemaVal
    spaceId edgeName edgeItems alterProp.
End MetaScenario.

(** * Properties *)

Lemma succeeded_true c : succeeded c = true <-> c = SUCCEEDED.
Proof. unfold succeeded. apply bool_decide_eq_true. Qed.

Lemma succeeded_false c : succeeded c = false <-> c <> SUCCEEDED.
Proof. unfold succeeded. apply bool_decide_eq_false. Qed.

(** ** The per-partition result vector of the lookup processor *)

Module LookupProcessorFacts.
Import BaseProcessor LookupProcessor.

Section Facts.
Variable partLeader : GraphSpaceID -> PartitionID -> ErrorCode + HostAddr.
Variable Plan : Type.
Variable go : Plan -> PartitionID -> ErrorCode * Plan.

(** The look-up of the leader never fails with the code of success. *)
Hypothesis partLeader_error : forall s p, partLeader s p <> inl SUCCEEDED.

Lemma handleErrorCode_app c s p codes :
  handleErrorCode partLeader c s p codes
  = codes ++ handleErrorCode partLeader c s p [].
Proof.
  unfold handleErrorCode, handleLeaderChanged, pushResultCode.
  destruct (succeeded c); [by rewrite app_nil_r|].
  case_bool_decide.
  - destruct (partLeader s p) as [err|ldr]; simpl.
    + destruct (succeeded err); [by rewrite app_nil_r|done].
    + done.
  - done.
Qed.

(** A failure pushes exactly one entry, for its partition. *)
Lemma handleErrorCode_failure c s p :
  c <> SUCCEEDED ->
  exists r, handleErrorCode partLeader c s p [] = [r] /\ part_id r = p.
Proof.
  intros Hc. unfold handleErrorCode, handleLeaderChanged, pushResultCode.
  apply succeeded_false in Hc. rewrite Hc.
  case_bool_decide.
  - destruct (partLeader s p) as [err|ldr] eqn:E; simpl.
    + assert (succeeded err = false) as ->.
      { apply succeeded_false. intros ->. by apply (partLeader_error s p). }
      eauto.
    + eauto.
  - eauto.
Qed.

Lemma firstFailure_cons_hit p c rs :
  c <> SUCCEEDED -> firstFailure ((p, c) :: rs) p = Some c.
Proof.
  intros Hc. unfold firstFailure. simpl.
  rewrite bool_decide_true by done.
  apply succeeded_false in Hc. by rewrite Hc.
Qed.

Lemma firstFailure_cons_miss p q c rs :
  (q <> p \/ c = SUCCEEDED) -> firstFailure ((q, c) :: rs) p = firstFailure rs p.
Proof.
  intros Hm. unfold firstFailure. simpl.
  destruct Hm as [Hq | ->].
  - by rewrite bool_decide_false.
  - by rewrite andb_false_r.
Qed.

(** The loop, from any point on: what it adds to [codes_] has one
    entry for every partition that fails from here on and has not
    failed before, made from the first such failure. *)
Lemma processParts_spec spaceId parts : forall plan failedParts codes_,
  exists added,
    processParts partLeader Plan go spaceId parts plan failedParts codes_
    = codes_ ++ added
    /\ NoDup (map part_id added)
    /\ (forall p, (p ∈ map part_id added) <->
          (p ∉ failedParts) /\
          exists c, (p, c) ∈ runs Plan go parts plan /\ c <> SUCCEEDED)
    /\ (forall r, r ∈ added ->
          exists c, firstFailure (runs Plan go parts plan) (part_id r) = Some c
                    /\ handleErrorCode partLeader c spaceId (part_id r) [] = [r]).
Proof.
  induction parts as [|partId rest IH]; intros plan failedParts codes_; simpl.
  - exists []. rewrite app_nil_r. split; [done|]. split; [constructor|].
    split.
    + intros p. split; [intros Hp; by apply elem_of_nil in Hp|].
      intros [_ (c & Hin & _)]. by apply elem_of_nil in Hin.
    + intros r Hr. by apply elem_of_nil in Hr.
  - destruct (go plan partId) as [ret plan'] eqn:Hgo.
    destruct (succeeded ret) eqn:Hret.
    { (* this run succeeds *)
      apply succeeded_true in Hret. subst ret.
      destruct (IH plan' failedParts codes_) as (added & Heq & Hnd & Hdom & Hfirst).
      exists added. split; [done|]. split; [done|]. split.
      - intros p. rewrite Hdom. split.
        + intros [Hp (c & Hin & Hc)]. split; [done|].
          exists c. split; [by apply list_elem_of_further|done].
        + intros [Hp (c & Hin & Hc)]. split; [done|].
          exists c. split; [|done].
          apply elem_of_cons in Hin as [Heq'|Hin]; [|done].
          by inversion Heq'; subst.
      - intros r Hr. destruct (Hfirst r Hr) as (c & Hff & Hh).
        exists c. split; [|done].
        by rewrite firstFailure_cons_miss by (by right). }
    apply succeeded_false in Hret.
    case_bool_decide as Hfailed.
    { (* this partition has failed before *)
      destruct (IH plan' failedParts codes_) as (added & Heq & Hnd & Hdom & Hfirst).
      exists added. split; [done|]. split; [done|]. split.
      - intros p. rewrite Hdom. split.
        + intros [Hp (c & Hin & Hc)]. split; [done|].
          exists c. split; [by apply list_elem_of_further|done].
        + intros [Hp (c & Hin & Hc)]. split; [done|].
          exists c. split; [|done].
          apply elem_of_cons in Hin as [Heq'|Hin]; [|done].
          inversion Heq'; subst. done.
      - intros r Hr. destruct (Hfirst r Hr) as (c & Hff & Hh).
        exists c. split; [|done].
        rewrite firstFailure_cons_miss; [done|]. left.
        intros ->. assert (part_id r ∈ map part_id added) as Hin.
        { apply list_elem_of_fmap. by exists r. }
        apply Hdom in Hin as [Hnot _]. done. }
    (* the first failure of this partition *)
    destruct (handleErrorCode_failure ret spaceId partId Hret) as (r0 & Hr0 & Hpart).
    destruct (IH plan' ({[partId]} ∪ failedParts)
                (handleErrorCode partLeader ret spaceId partId codes_))
      as (added & Heq & Hnd & Hdom & Hfirst).
    exists (r0 :: added). split.
    { rewrite Heq, handleErrorCode_app, Hr0, <- app_assoc. done. }
    split.
    { simpl. constructor; [|done]. rewrite Hpart. intros Hin.
      apply Hdom in Hin as [Hnot _]. set_solver. }
    split.
    + intros p. simpl. rewrite elem_of_cons, Hdom, Hpart. split.
      * intros [-> | [Hp (c & Hin & Hc)]].
        -- split; [done|]. exists ret. split; [apply list_elem_of_here|done].
        -- split; [set_solver|]. exists c. split; [by apply list_elem_of_further|done].
      * intros [Hp (c & Hin & Hc)].
        destruct (decide (p = partId)) as [->|Hne]; [by left|right].
        split; [set_solver|]. exists c. split; [|done].
        apply elem_of_cons in Hin as [Heq'|Hin]; [|done].
        inversion Heq'; subst. done.
    + intros r Hr. apply elem_of_cons in Hr as [-> | Hr].
      * exists ret. rewrite Hpart. split; [by apply firstFailure_cons_hit|done].
      * destruct (Hfirst r Hr) as (c & Hff & Hh).
        exists c. split; [|done].
        rewrite firstFailure_cons_miss; [done|]. left.
        intros ->. assert (part_id r ∈ map part_id added) as Hin.
        { apply list_elem_of_fmap. by exists r. }
        apply Hdom in Hin as [Hnot _]. set_solver.
Qed.
End Facts.

(** C9.  When the request passes its check and a plan is built, the
    per-partition result vector of [process] holds at most one entry
    per partition; a partition has an entry exactly when some run on
    it fails; and the entry of a partition is the one that the first
    failure of that partition produces (later failures of the same
    partition leave no trace). *)
Theorem process_deduplicates_failures
    (partLeader : GraphSpaceID -> PartitionID -> ErrorCode + HostAddr)
    (Plan : Type) (go : Plan -> PartitionID -> ErrorCode * Plan)
    (spaceId : GraphSpaceID) (parts : list PartitionID) (plan : Plan) :
  (forall s p, partLeader s p <> inl SUCCEEDED) ->
  let codes_ := process partLeader Plan go spaceId SUCCEEDED (Some plan) parts in
  let failures := runs Plan go parts plan in
  NoDup (map part_id codes_)
  /\ (forall p, (p ∈ map part_id codes_) <->
        exists c, (p, c) ∈ failures /\ c <> SUCCEEDED)
  /\ (forall r, r ∈ codes_ ->
        exists c, firstFailure failures (part_id r) = Some c
                  /\ handleErrorCode partLeader c spaceId (part_id r) [] = [r]).
Proof.
  intros Hleader codes_ failures. subst codes_ failures.
  unfold process. simpl.
  destruct (processParts_spec partLeader Plan go Hleader spaceId parts plan ∅ [])
    as (added & Heq & Hnd & Hdom & Hfirst).
  rewrite Heq. simpl. split; [done|]. split; [|done].
  intros p. rewrite Hdom. split.
  - intros [_ Hc]. done.
  - intros Hc. split; [set_solver|done].
Qed.

End LookupProcessorFacts.

(** ** The lock around an update *)

Section LockFacts.
Context {E : ExprEngine} {C : RowCodec} {U : KeyUtils}.

Lemma lock_unlock `{Countable K} (table : gset K) (key : K) :
  key ∉ table -> MemoryLockGuard_unlock ({[key]} ∪ table) key = table.
Proof. unfold MemoryLockGuard_unlock. set_solver. Qed.

Lemma world_eta (w : World) :
  mkWorld (verticesML_ w) (edgesML_ w) (kvstore_ w) (events w) = w.
Proof. by destruct w. Qed.

(** What happens under the vertex lock neither reads nor changes the
    lock tables. *)
Lemma tag_executeLocked_frame node fn tc partId vId st w locked :
  UpdateTagNode.executeLocked node fn tc partId vId st (set_verticesML_ locked w)
  = let '(ret, st', w') := UpdateTagNode.executeLocked node fn tc partId vId st w in
    (ret, st', set_verticesML_ locked w').
Proof.
  unfold UpdateTagNode.executeLocked, asyncAppendBatch. simpl.
  repeat case_match; simplify_eq; reflexivity.
Qed.

Lemma tag_executeLocked_locks node fn tc partId vId st w :
  let w' := (UpdateTagNode.executeLocked node fn tc partId vId st w).2 in
  verticesML_ w' = verticesML_ w /\ edgesML_ w' = edgesML_ w.
Proof.
  unfold UpdateTagNode.executeLocked, asyncAppendBatch. simpl.
  repeat case_match; simplify_eq; simpl; done.
Qed.

(** With the key of the row free, [execute] is its body: the key is
    taken, the body runs, the key is released. *)
Lemma tag_execute_free node fn tc partId vId st w :
  (spaceId_ (planContext_ node), partId, tagId_ (planContext_ node), vId)
    ∉ verticesML_ w ->
  UpdateTagNode.execute node fn tc partId vId st w
  = UpdateTagNode.executeLocked node fn tc partId vId st w.
Proof.
  intros Hfree. unfold UpdateTagNode.execute, MemoryLockGuard_lock.
  rewrite bool_decide_false by done.
  rewrite tag_executeLocked_frame.
  pose proof (tag_executeLocked_locks node fn tc partId vId st w) as [Hv He].
  destruct (UpdateTagNode.executeLocked node fn tc partId vId st w) as [[ret st'] w'].
  simpl in *. f_equal.
  unfold set_verticesML_. simpl. rewrite lock_unlock by done.
  rewrite <- Hv. apply world_eta.
Qed.

Lemma edge_op_frame node fn ec partId ek st w locked :
  UpdateEdgeNode.op node fn ec partId ek st (set_edgesML_ locked w)
  = let '(batch, st', w') := UpdateEdgeNode.op node fn ec partId ek st w in
    (batch, st', set_edgesML_ locked w').
Proof.
  unfold UpdateEdgeNode.op. simpl.
  repeat case_match; simplify_eq; reflexivity.
Qed.

Lemma edge_op_world node fn ec partId ek st w :
  (UpdateEdgeNode.op node fn ec partId ek st w).2 = emit (RunDependencies partId) w.
Proof.
  unfold UpdateEdgeNode.op. simpl.
  repeat case_match; simplify_eq; reflexivity.
Qed.

Lemma edge_executeLocked_frame node fn ec partId ek st w locked :
  UpdateEdgeNode.executeLocked node fn ec partId ek st (set_edgesML_ locked w)
  = let '(ret, st', w') := UpdateEdgeNode.executeLocked node fn ec partId ek st w in
    (ret, st', set_edgesML_ locked w').
Proof.
  unfold UpdateEdgeNode.executeLocked. rewrite edge_op_frame.
  destruct (UpdateEdgeNode.op node fn ec partId ek st w) as [[batch st'] w1].
  unfold asyncAppendBatch. simpl.
  repeat case_match; simplify_eq; reflexivity.
Qed.

Lemma edge_executeLocked_locks node fn ec partId ek st w :
  let w' := (UpdateEdgeNode.executeLocked node fn ec partId ek st w).2 in
  verticesML_ w' = verticesML_ w /\ edgesML_ w' = edgesML_ w.
Proof.
  unfold UpdateEdgeNode.executeLocked.
  pose proof (edge_op_world node fn ec partId ek st w) as Hw.
  destruct (UpdateEdgeNode.op node fn ec partId ek st w) as [[batch st'] w1].
  simpl in Hw. subst w1. unfold asyncAppendBatch. simpl.
  repeat case_match; simplify_eq; simpl; done.
Qed.

Lemma edge_execute_free node fn ec partId ek st w :
  (spaceId_ (planContext_ node), partId, EdgeKey_src ek, EdgeKey_edge_type ek,
   EdgeKey_ranking ek, EdgeKey_dst ek) ∉ edgesML_ w ->
  UpdateEdgeNode.execute node fn ec partId ek st w
  = UpdateEdgeNode.executeLocked node fn ec partId ek st w.
Proof.
  intros Hfree. unfold UpdateEdgeNode.execute, MemoryLockGuard_lock.
  rewrite bool_decide_false by done.
  rewrite edge_executeLocked_frame.
  pose proof (edge_executeLocked_locks node fn ec partId ek st w) as [Hv He].
  destruct (UpdateEdgeNode.executeLocked node fn ec partId ek st w) as [[ret st'] w'].
  simpl in *. f_equal.
  unfold set_edgesML_. simpl. rewrite lock_unlock by done.
  rewrite <- He. apply world_eta.
Qed.

(** C6.  When the memory-lock key of the row, (space, part, tag, vid)
    for a vertex and (space, part, src, type, rank, dst) for an edge, is
    already in the lock table, the executor returns
    [E_STORAGE_QUERY_CONCURRENT_MODIFY] at once: the only thing it does
    is report the conflict key; it does not run the nodes that read the
    row, commits nothing, and leaves its own state, the store and the
    lock tables as they were. *)
Theorem lock_conflict_fails_at_once (x : UpdateExecutor) (partId : PartitionID)
    (st : State) (w : World) :
  lockHeld x partId w ->
  exists w',
    runExecutor x partId st w = (E_STORAGE_QUERY_CONCURRENT_MODIFY, st, w')
    /\ events w' = events w ++ [conflictReport x partId]
    /\ kvstore_ w' = kvstore_ w
    /\ verticesML_ w' = verticesML_ w
    /\ edgesML_ w' = edgesML_ w.
Proof.
  intros Hheld. destruct x as [node fn tc vId | node fn ec ek]; simpl in *.
  - eexists. unfold UpdateTagNode.execute, MemoryLockGuard_lock.
    rewrite bool_decide_true by done. by repeat split.
  - eexists. unfold UpdateEdgeNode.execute, MemoryLockGuard_lock.
    rewrite bool_decide_true by done. by repeat split.
Qed.
End LockFacts.

(** ** Which members each step changes *)

Section StateFacts.
Context {E : ExprEngine} {C : RowCodec} {U : KeyUtils}.
Variable node : UpdateNode.

Lemma sameButProps_refl st : sameButProps st st.
Proof. unfold sameButProps. by destruct st. Qed.

Lemma sameButProps_trans st1 st2 st3 :
  sameButProps st1 st2 -> sameButProps st2 st3 -> sameButProps st1 st3.
Proof. unfold sameButProps. intros -> ->. reflexivity. Qed.

Lemma sameButProps_set st props : sameButProps st (set_props_ props st).
Proof. reflexivity. Qed.

Lemma getDefaultOrNullValue_frame field name st ret st' :
  getDefaultOrNullValue field name st = (ret, st') -> sameButProps st st'.
Proof.
  unfold getDefaultOrNullValue. intros Hget.
  repeat case_match; simplify_eq; auto using sameButProps_set, sameButProps_refl.
Qed.

Lemma checkDepProps_frame schema deps : forall checked st ret checked' st',
  checkDepProps node schema deps checked st = (ret, checked', st') ->
  sameButProps st st'.
Proof.
  induction deps as [|p rest IH]; intros checked st ret checked' st' Hchk; simpl in Hchk.
  - simplify_eq. apply sameButProps_refl.
  - case_bool_decide; [by eapply IH|].
    destruct (Schema_field schema p) as [f|]; [|simplify_eq; apply sameButProps_refl].
    destruct (getDefaultOrNullValue f p st) as [r st1] eqn:Hget.
    apply getDefaultOrNullValue_frame in Hget.
    destruct (succeeded r); [|by simplify_eq].
    eapply sameButProps_trans; [done|by eapply IH].
Qed.

Lemma checkSetProps_frame schema depPropMap : forall checked st ret checked' st',
  checkSetProps node schema depPropMap checked st = (ret, checked', st') ->
  sameButProps st st'.
Proof.
  induction depPropMap as [|prop rest IH]; intros checked st ret checked' st' Hchk;
    simpl in Hchk.
  - simplify_eq. apply sameButProps_refl.
  - destruct (checkDepProps node schema prop.2 checked st) as [[r c1] st1] eqn:Hdep.
    apply checkDepProps_frame in Hdep.
    destruct (succeeded r); [|by simplify_eq].
    destruct (succeeded (checkField node (Schema_field schema prop.1)));
      [|by simplify_eq].
    eapply sameButProps_trans; [done|by eapply IH].
Qed.

Lemma checkOtherProps_frame fieldIter checked : forall st ret st',
  checkOtherProps fieldIter checked st = (ret, st') -> sameButProps st st'.
Proof.
  induction fieldIter as [|f rest IH]; intros st ret st' Hchk; simpl in Hchk.
  - simplify_eq. apply sameButProps_refl.
  - case_bool_decide; [by eapply IH|].
    destruct (getDefaultOrNullValue f (Field_name f) st) as [r st1] eqn:Hget.
    apply getDefaultOrNullValue_frame in Hget.
    destruct (succeeded r); [|by simplify_eq].
    eapply sameButProps_trans; [done|by eapply IH].
Qed.

Lemma checkPropsAndGetDefaultValue_frame schema st ret st' :
  checkPropsAndGetDefaultValue node schema st = (ret, st') -> sameButProps st st'.
Proof.
  unfold checkPropsAndGetDefaultValue. intros Hchk.
  destruct (checkSetProps node schema (depPropMap_ node) ∅ st) as [[r c] st1] eqn:Hset.
  apply checkSetProps_frame in Hset.
  destruct (succeeded r); [|by simplify_eq].
  eapply sameButProps_trans; [done|by eapply checkOtherProps_frame].
Qed.

Lemma collectProps_frame reader schema fieldIter : forall st ok st',
  collectProps reader schema fieldIter st = (ok, st') -> sameButProps st st'.
Proof.
  induction fieldIter as [|f rest IH]; intros st ok st' Hcoll; simpl in Hcoll.
  - simplify_eq. apply sameButProps_refl.
  - destruct (readValue reader (Field_name f) schema); [|simplify_eq; apply sameButProps_refl].
    eapply sameButProps_trans; [|by eapply IH]. apply sameButProps_set.
Qed.

(** The first loop of [updateAndWriteBack] changes the properties and
    the expression context only. *)
Lemma applyUpdatedProps_frame setProp name ups : forall st ok st',
  applyUpdatedProps setProp name ups st = (ok, st') ->
  st' = set_expCtx_ (expCtx_ st') (set_props_ (props_ st') st).
Proof.
  assert (forall s : State, s = set_expCtx_ (expCtx_ s) (set_props_ (props_ s) s)) as Heta
    by (by intros []).
  induction ups as [|u rest IH]; intros st ok st' Happ; simpl in Happ.
  - simplify_eq. apply Heta.
  - destruct (Expression_decode (UpdatedProp_value u)); [|simplify_eq; apply Heta].
    apply IH in Happ. rewrite Happ. reflexivity.
Qed.

(** Encoding changes the row writer only. *)
Lemma encodeRow_frame st encoded st' :
  encodeRow st = (encoded, st') -> st' = set_rowWriter_ (rowWriter_ st') st.
Proof.
  assert (forall s : State, s = set_rowWriter_ (rowWriter_ s) s) as Heta by (by intros []).
  unfold encodeRow. intros Henc.
  repeat case_match; simplify_eq; try reflexivity; apply Heta.
Qed.
End StateFacts.

(** ** The schema of an edge *)

Section EdgeSchemaFacts.
Context {E : ExprEngine} {C : RowCodec} {U : KeyUtils}.
Import UpdateEdgeNode.

Lemma std_abs_opp t :
  -2147483648 < t < 2147483648 -> std_abs (- t) = std_abs t /\ std_abs t = Z.abs t.
Proof.
  intros Ht. unfold std_abs.
  rewrite !bool_decide_false by lia. split; [apply Z.abs_opp|done].
Qed.

Lemma getLatestEdgeSchemaAndName_hit node ec st schema name :
  latestByAbsoluteType ec (edgeType_ (planContext_ node)) = Some schema ->
  nameBySignedType ec (edgeType_ (planContext_ node)) = Some name ->
  getLatestEdgeSchemaAndName node ec st
  = (SUCCEEDED, set_edgeName_ name (set_schema_ (Some schema) st)).
Proof.
  unfold latestByAbsoluteType, nameBySignedType, getLatestEdgeSchemaAndName.
  intros Hs Hn.
  destruct (schemas_ ec !! std_abs (edgeType_ (planContext_ node))) as [versions|];
    simpl in Hs; [|done].
  destruct (last versions) as [back|]; simpl in Hs; [|done].
  subst back. by rewrite Hn.
Qed.

Lemma getLatestEdgeSchemaAndName_miss node ec st :
  latestByAbsoluteType ec (edgeType_ (planContext_ node)) = None
  \/ nameBySignedType ec (edgeType_ (planContext_ node)) = None ->
  (getLatestEdgeSchemaAndName node ec st).1 = E_STORAGE_SCHEMA_EDGE_NOT_FOUND.
Proof.
  unfold latestByAbsoluteType, nameBySignedType, getLatestEdgeSchemaAndName.
  intros Hmiss.
  destruct (schemas_ ec !! std_abs (edgeType_ (planContext_ node))) as [versions|];
    simpl in *; [|done].
  destruct (last versions) as [[schema|]|]; simpl in *; try done.
  destruct (edgeNames_ ec !! edgeType_ (planContext_ node)); [|done].
  by destruct Hmiss.
Qed.

(** C10.  [getLatestEdgeSchemaAndName] takes the schema from the entry
    of the absolute value of the edge type and the name from the entry
    of the signed edge type.  When both look-ups hit it succeeds with
    that schema and that name, and the row writer that encodes the row
    is made from that schema, on the insert path and on the update
    path.  When either misses, it returns
    [E_STORAGE_SCHEMA_EDGE_NOT_FOUND], and so do [insertEdgeProps] and
    [collEdgeProp].  An executor of the opposite edge type resolves the
    same schema. *)
Theorem edge_schema_by_absolute_type (node : UpdateNode) (ec : EdgeContext)
    (st : State) :
  let t := edgeType_ (planContext_ node) in
  (forall schema name,
      latestByAbsoluteType ec t = Some schema ->
      nameBySignedType ec t = Some name ->
      getLatestEdgeSchemaAndName node ec st
      = (SUCCEEDED, set_edgeName_ name (set_schema_ (Some schema) st))
      /\ (forall partId ek st',
            insertEdgeProps node ec partId ek st = (SUCCEEDED, st') ->
            schema_ st' = Some schema
            /\ rowWriter_ st' = Some (RowWriterV2_new schema))
      /\ (forall ek st',
            collEdgeProp node ec ek st = (SUCCEEDED, st') ->
            schema_ st' = Some schema
            /\ rowWriter_ st' = Some (RowWriterV2_new schema)))
  /\ (latestByAbsoluteType ec t = None \/ nameBySignedType ec t = None ->
      (getLatestEdgeSchemaAndName node ec st).1 = E_STORAGE_SCHEMA_EDGE_NOT_FOUND
      /\ (forall partId ek,
            (insertEdgeProps node ec partId ek st).1 = E_STORAGE_SCHEMA_EDGE_NOT_FOUND)
      /\ (forall ek, (collEdgeProp node ec ek st).1 = E_STORAGE_SCHEMA_EDGE_NOT_FOUND))
  /\ (forall node' : UpdateNode,
        -2147483648 < t < 2147483648 ->
        edgeType_ (planContext_ node') = - t ->
        latestByAbsoluteType ec (edgeType_ (planContext_ node'))
        = latestByAbsoluteType ec t).
Proof.
  intros t. subst t. split; [|split].
  - intros schema name Hs Hn. split; [by apply getLatestEdgeSchemaAndName_hit|].
    split.
    + intros partId ek st'. unfold insertEdgeProps.
      rewrite (getLatestEdgeSchemaAndName_hit _ _ _ schema name Hs Hn). simpl.
      destruct (checkPropsAndGetDefaultValue node schema _) as [ret2 st2] eqn:Hchk.
      apply checkPropsAndGetDefaultValue_frame in Hchk.
      destruct (succeeded ret2) eqn:Hret.
      * intros [= <-]. rewrite Hchk. done.
      * intros [= -> <-]. by apply succeeded_false in Hret.
    + intros ek st'. unfold collEdgeProp.
      rewrite (getLatestEdgeSchemaAndName_hit _ _ _ schema name Hs Hn). simpl.
      destruct (reader_ st) as [reader|]; [|done].
      destruct (collectProps reader schema schema _) as [ok st2] eqn:Hcoll.
      apply collectProps_frame in Hcoll.
      destruct ok; [|done].
      intros [= <-]. rewrite Hcoll. done.
  - intros Hmiss.
    pose proof (getLatestEdgeSchemaAndName_miss node ec) as Hget.
    split; [by apply Hget|]. split.
    + intros partId ek. unfold insertEdgeProps.
      specialize (Hget (set_insert_ true st) Hmiss).
      destruct (getLatestEdgeSchemaAndName node ec (set_insert_ true st)) as [ret st1].
      simpl in Hget. subst ret. done.
    + intros ek. unfold collEdgeProp. specialize (Hget st Hmiss).
      destruct (getLatestEdgeSchemaAndName node ec st) as [ret st1].
      simpl in Hget. subst ret. done.
  - intros node' Ht Hopp. unfold latestByAbsoluteType.
    rewrite Hopp. by destruct (std_abs_opp _ Ht) as [-> _].
Qed.
End EdgeSchemaFacts.

(** ** The index loop *)

Section UpdateIndexesFacts.
Context {E : ExprEngine} {C : RowCodec} {U : KeyUtils}.
Variable matches : IndexItem -> bool.
Variable indexKey : RowReader -> IndexItem -> string.
Variable newReader : option RowReader.
Variable schema : Schema.
Variable iState : IndexState.
Variable partId : PartitionID.
Variable val : string.
Variable reader : option RowReader.

Lemma removeOldIndex_spec index batch :
  removeOldIndex indexKey iState partId val reader index batch
  = if bool_decide (val = EmptyString) then Some batch
    else match reader with
         | None => None
         | Some r =>
             if bool_decide (indexKey r index = EmptyString) then Some batch
             else op ← oldIndexRecord iState partId (indexKey r index); Some (batch ++ [op])
         end.
Proof.
  unfold removeOldIndex, oldIndexRecord, checkRebuilding, checkIndexLocked.
  repeat case_match; simplify_eq; try reflexivity; by destruct iState.
Qed.

Lemma putNewIndex_spec index nr batch :
  putNewIndex indexKey schema iState partId index nr batch
  = if bool_decide (indexKey nr index = EmptyString) then Some batch
    else op ← newIndexRecord iState partId (indexKey nr index) (indexValueOf schema nr);
         Some (batch ++ [op]).
Proof.
  unfold putNewIndex, newIndexRecord, indexValueOf, checkRebuilding, checkIndexLocked.
  repeat case_match; simplify_eq; try reflexivity; by destruct iState.
Qed.

Local Abbreviation loop := (updateIndexes matches indexKey newReader schema iState partId val reader).
Local Abbreviation record := (IndexRecord indexKey val reader newReader schema iState partId).

(** The loop only adds to the batch, and what it adds are index
    records of indexes that target the schema. *)
Lemma updateIndexes_sound indexes : forall cache batch out,
  cache = None \/ cache = newReader ->
  loop indexes cache batch = Some out ->
  exists added,
    out = batch ++ added
    /\ Forall (fun op => exists index,
                 index ∈ indexes /\ matches index = true /\ record index op) added.
Proof.
  induction indexes as [|index rest IH]; intros cache batch out Hcache Hloop;
    simpl in Hloop.
  - simplify_eq. exists []. by rewrite app_nil_r.
  - assert (forall added' out',
               (exists added, out' = (batch ++ added') ++ added
                  /\ Forall (fun op => exists index0,
                               index0 ∈ rest /\ matches index0 = true /\ record index0 op)
                       added) ->
               Forall (fun op => record index op) added' -> matches index = true ->
               exists added, out' = batch ++ added
                 /\ Forall (fun op => exists index0,
                               index0 ∈ index :: rest /\ matches index0 = true
                               /\ record index0 op) added) as Hglue.
    { intros added' out' (added & -> & Hadded) Hadded' Hm.
      exists (added' ++ added). split; [by rewrite app_assoc|].
      apply Forall_app. split.
      - eapply Forall_impl; [exact Hadded'|]. intros op Hop. exists index.
        split; [apply list_elem_of_here|done].
      - eapply Forall_impl; [exact Hadded|]. intros op (i & Hi & Hmi & Hop).
        exists i. split; [by apply list_elem_of_further|done]. }
    destruct (matches index) eqn:Hm.
    + rewrite removeOldIndex_spec in Hloop.
      assert (exists b1 old, b1 = batch ++ old /\ Forall (fun op => record index op) old
                /\ match (match cache with None => newReader | Some _ => cache end) with
                   | None => None
                   | Some nr =>
                       match putNewIndex indexKey schema iState partId index nr b1 with
                       | None => None
                       | Some batch2 =>
                           loop rest (match cache with None => newReader | Some _ => cache end)
                             batch2
                       end
                   end = Some out) as (b1 & old & -> & Hold & Hrest).
      { case_bool_decide.
        - exists batch, []. by rewrite app_nil_r.
        - destruct reader as [r|] eqn:Hr; [|done].
          case_bool_decide.
          + exists batch, []. by rewrite app_nil_r.
          + destruct (oldIndexRecord iState partId (indexKey r index)) as [op|] eqn:Hop;
              [|done].
            simpl in Hloop. exists (batch ++ [op]), [op]. split; [done|]. split; [|done].
            constructor; [|done]. by eapply OldRecord. }
      assert ((match cache with None => newReader | Some _ => cache end) = newReader)
        as Hnr by (by destruct Hcache as [-> | ->]; [|destruct newReader]).
      rewrite Hnr in Hrest.
      destruct newReader as [nr|] eqn:Hnew; [|done].
      rewrite putNewIndex_spec in Hrest.
      case_bool_decide.
      * apply IH in Hrest; [|by right]. by eapply (Hglue old).
      * destruct (newIndexRecord iState partId (indexKey nr index) (indexValueOf schema nr))
          as [op|] eqn:Hop; [|done].
        simpl in Hrest. apply IH in Hrest; [|by right].
        rewrite <- app_assoc in Hrest. eapply (Hglue (old ++ [op])); [done| |done].
        apply Forall_app. split; [done|]. constructor; [|done]. by eapply NewRecord.
    + destruct (IH _ _ _ Hcache Hloop) as (added & -> & Hadded).
      exists added. split; [done|].
      eapply Forall_impl; [exact Hadded|]. intros op (i & Hi & Hmi & Hop).
      exists i. split; [by apply list_elem_of_further|done].
Qed.

Lemma updateIndexes_extends indexes cache batch out :
  cache = None \/ cache = newReader ->
  loop indexes cache batch = Some out -> exists added, out = batch ++ added.
Proof.
  intros Hcache Hloop.
  destruct (updateIndexes_sound _ _ _ _ Hcache Hloop) as (added & -> & _). eauto.
Qed.

(** One turn of the loop on an index that targets the schema. *)
Lemma updateIndexes_turn index rest cache batch out :
  cache = None \/ cache = newReader ->
  matches index = true ->
  loop (index :: rest) cache batch = Some out ->
  exists batch1 nr batch2,
    removeOldIndex indexKey iState partId val reader index batch = Some batch1
    /\ newReader = Some nr
    /\ putNewIndex indexKey schema iState partId index nr batch1 = Some batch2
    /\ loop rest newReader batch2 = Some out.
Proof.
  intros Hcache Hm Hloop. simpl in Hloop. rewrite Hm in Hloop.
  destruct (removeOldIndex _ _ _ _ _ _ _) as [batch1|]; [|done].
  assert ((match cache with None => newReader | Some _ => cache end) = newReader)
    as Hnr by (by destruct Hcache as [-> | ->]; [|destruct newReader]).
  rewrite Hnr in Hloop.
  destruct newReader as [nr|]; [|done].
  destruct (putNewIndex _ _ _ _ _ _ _) as [batch2|] eqn:Hput; [|done].
  by exists batch1, nr, batch2.
Qed.

(** The record of the old key of an index that targets the schema is
    in the batch the loop returns; when the index is locked there is no
    such record and the loop returns none. *)
Lemma updateIndexes_old_complete indexes : forall cache batch out index r,
  cache = None \/ cache = newReader ->
  loop indexes cache batch = Some out ->
  index ∈ indexes -> matches index = true ->
  val <> EmptyString -> reader = Some r -> indexKey r index <> EmptyString ->
  exists op, oldIndexRecord iState partId (indexKey r index) = Some op /\ op ∈ out.
Proof.
  induction indexes as [|index0 rest IH];
    intros cache batch out index r Hcache Hloop Hin Hm Hval Hr Hoi.
  - by apply elem_of_nil in Hin.
  - apply elem_of_cons in Hin as [-> | Hin].
    + destruct (updateIndexes_turn _ _ _ _ _ Hcache Hm Hloop)
        as (batch1 & nr & batch2 & Hold & Hnew & Hput & Hrest).
      rewrite removeOldIndex_spec in Hold.
      rewrite bool_decide_false in Hold by done. rewrite Hr in Hold.
      rewrite bool_decide_false in Hold by done.
      destruct (oldIndexRecord iState partId (indexKey r index0)) as [op|]; [|done].
      simpl in Hold. injection Hold as <-.
      exists op. split; [done|].
      rewrite putNewIndex_spec in Hput.
      apply updateIndexes_extends in Hrest as [added ->]; [|by right].
      assert (op ∈ batch2) as Hop; [|set_solver].
      case_bool_decide; [simplify_eq; set_solver|].
      destruct (newIndexRecord _ _ _ _); simpl in Hput; simplify_eq. set_solver.
    + destruct (matches index0) eqn:Hm0.
      * destruct (updateIndexes_turn _ _ _ _ _ Hcache Hm0 Hloop)
          as (batch1 & nr & batch2 & Hold & Hnew & Hput & Hrest).
        eapply IH; [|exact Hrest|..]; try done. by right.
      * simpl in Hloop. rewrite Hm0 in Hloop. by eapply IH.
Qed.

(** The same for the new key. *)
Lemma updateIndexes_new_complete indexes : forall cache batch out index nr,
  cache = None \/ cache = newReader ->
  loop indexes cache batch = Some out ->
  index ∈ indexes -> matches index = true ->
  newReader = Some nr -> indexKey nr index <> EmptyString ->
  exists op,
    newIndexRecord iState partId (indexKey nr index) (indexValueOf schema nr) = Some op
    /\ op ∈ out.
Proof.
  induction indexes as [|index0 rest IH];
    intros cache batch out index nr Hcache Hloop Hin Hm Hnr Hni.
  - by apply elem_of_nil in Hin.
  - apply elem_of_cons in Hin as [-> | Hin].
    + destruct (updateIndexes_turn _ _ _ _ _ Hcache Hm Hloop)
        as (batch1 & nr' & batch2 & Hold & Hnew & Hput & Hrest).
      assert (nr' = nr) as -> by congruence.
      rewrite putNewIndex_spec in Hput.
      rewrite bool_decide_false in Hput by done.
      destruct (newIndexRecord _ _ _ _) as [op|]; [|done].
      simpl in Hput. injection Hput as <-.
      exists op. split; [done|].
      apply updateIndexes_extends in Hrest as [added ->]; [|by right].
      set_solver.
    + destruct (matches index0) eqn:Hm0.
      * destruct (updateIndexes_turn _ _ _ _ _ Hcache Hm0 Hloop)
          as (batch1 & nr' & batch2 & Hold & Hnew & Hput & Hrest).
        eapply IH; [|exact Hrest|..]; try done. by right.
      * simpl in Hloop. rewrite Hm0 in Hloop. by eapply IH.
Qed.

End UpdateIndexesFacts.

(** ** The stages of an update that has the lock *)

Section StageFacts.
Context {E : ExprEngine} {C : RowCodec} {U : KeyUtils}.

Lemma updateAndWriteBackOf_unfold x partId st :
  updateAndWriteBackOf x partId st
  = let '(ok, st1) := applyUpdatedProps (setPropOf x) (nameOf x st)
                        (updatedProps_ (nodeOf x)) st in
    if ok then
      let '(encoded, st2) := encodeRow st1 in
      match encoded, schema_ st2 with
      | Some nVal, Some schema =>
          match indexRecordsOf x partId st2 schema nVal with
          | None => (None, st2)
          | Some batch => (Some (batch ++ [OP_BATCH_PUT (key_ st2) nVal]), st2)
          end
      | _, _ => (None, st2)
      end
    else (None, st1).
Proof. destruct x; reflexivity. Qed.

(** An executor that has the lock, commits by itself and has collected
    the properties into [st4] returns [E_STORAGE_QUERY_INVALID_DATA]
    with nothing committed when [updateAndWriteBack] yields no batch,
    and hands the batch to the store in one [asyncAppendBatch]
    otherwise. *)
Lemma runExecutor_collected x partId st w st4 :
  ~ lockHeld x partId w ->
  commitsDirectly x ->
  keyOfOwnType x ->
  RelNode_ret (dependenciesOf x partId st w) = SUCCEEDED ->
  RelNode_resultStat (dependenciesOf x partId st w) = NORMAL ->
  collectOf x partId st w = (SUCCEEDED, st4) ->
  exists st',
    runExecutor x partId st w
    = match (updateAndWriteBackOf x partId st4).1 with
      | None => (E_STORAGE_QUERY_INVALID_DATA, st', emit (RunDependencies partId) w)
      | Some b =>
          let env := env_ (planContext_ (nodeOf x)) in
          let spaceId := spaceId_ (planContext_ (nodeOf x)) in
          (appendReply env spaceId partId b, st',
           (asyncAppendBatch env spaceId partId b (emit (RunDependencies partId) w)).2)
      end.
Proof.
  intros Hfree Hdirect Hown Hret Hstat Hcoll.
  destruct x as [node fn tc vId | node fn ec ek]; simpl in *.
  - rewrite tag_execute_free by done.
    unfold UpdateTagNode.executeLocked. simpl. rewrite Hret, Hstat. simpl.
    rewrite Hstat in Hcoll. rewrite Hcoll. simpl.
    destruct (UpdateTagNode.updateAndWriteBack node partId vId st4) as [[b|] st5]; simpl;
      eexists; reflexivity.
  - rewrite edge_execute_free by done.
    unfold UpdateEdgeNode.executeLocked, UpdateEdgeNode.op. simpl.
    rewrite Hret, Hstat. simpl. rewrite bool_decide_true by done. simpl.
    rewrite Hret, Hstat in Hcoll.
    destruct (UpdateEdgeNode.collect _ _ _ _ _ _) as [ret st4'] eqn:Hc.
    injection Hcoll as -> <-. simpl.
    destruct (UpdateEdgeNode.updateAndWriteBack node partId ek _) as [[b|] st5]; simpl;
      rewrite Hdirect; eexists; reflexivity.
Qed.

(** When the collection of the properties fails, the executor returns
    the code of that failure with nothing committed. *)
Lemma runExecutor_collect_fails x partId st w ret st4 :
  ~ lockHeld x partId w ->
  commitsDirectly x ->
  keyOfOwnType x ->
  RelNode_ret (dependenciesOf x partId st w) = SUCCEEDED ->
  RelNode_resultStat (dependenciesOf x partId st w) = NORMAL ->
  collectOf x partId st w = (ret, st4) ->
  ret <> SUCCEEDED ->
  runExecutor x partId st w = (ret, st4, emit (RunDependencies partId) w).
Proof.
  intros Hfree Hdirect Hown Hret Hstat Hcoll Hfail.
  apply succeeded_false in Hfail.
  destruct x as [node fn tc vId | node fn ec ek]; simpl in *.
  - rewrite tag_execute_free by done.
    unfold UpdateTagNode.executeLocked. simpl. rewrite Hret, Hstat. simpl.
    rewrite Hstat in Hcoll. rewrite Hcoll. simpl. by rewrite Hfail.
  - rewrite edge_execute_free by done.
    unfold UpdateEdgeNode.executeLocked, UpdateEdgeNode.op. simpl.
    rewrite Hret, Hstat. simpl. rewrite bool_decide_true by done. simpl.
    rewrite Hret, Hstat in Hcoll.
    destruct (UpdateEdgeNode.collect _ _ _ _ _ _) as [ret' st4'] eqn:Hc.
    injection Hcoll as -> <-. simpl. rewrite Hfail. by rewrite Hdirect.
Qed.
End StageFacts.

(** ** The two ways to commit *)

Section EitherWay.
Context {E : ExprEngine} {C : RowCodec} {U : KeyUtils}.

(** Through the transaction manager, [execute] is the closure followed
    by the one call of [updateEdgeAtomic]. *)
Lemma edge_execute_managed node fn ec partId ek st w txnMan batch st' :
  ~ lockHeld (OnEdge node fn ec ek) partId w ->
  UpdateEdgeNode.tossManager node = Some txnMan ->
  UpdateEdgeNode.op node fn ec partId ek st w
  = (batch, st', emit (RunDependencies partId) w) ->
  exists ret w',
    UpdateEdgeNode.execute node fn ec partId ek st w = (ret, st', w')
    /\ handedOver txnMan node partId ek batch w ret w'.
Proof.
  intros Hfree Hman Hop. simpl in Hfree.
  rewrite edge_execute_free by done.
  unfold UpdateEdgeNode.executeLocked. rewrite Hop, Hman. simpl.
  unfold handedOver.
  destruct (updateEdgeAtomic _ _ _ _ _ _ _) as [f store']. simpl.
  do 2 eexists. split; [reflexivity|]. simpl.
  split; [done|]. split; [done|]. by rewrite <- app_assoc.
Qed.

(** The closure of an edge executor, stage by stage. *)
Lemma edge_op_failed node fn ec partId ek st w :
  let x := OnEdge node fn ec ek in
  RelNode_ret (dependenciesOf x partId st w) <> SUCCEEDED ->
  UpdateEdgeNode.op node fn ec partId ek st w
  = (None, afterDependencies x partId st w, emit (RunDependencies partId) w).
Proof.
  intros x Hret. apply succeeded_false in Hret. simpl in Hret.
  unfold UpdateEdgeNode.op. simpl. by rewrite Hret.
Qed.

Lemma edge_op_foreign node fn ec partId ek st w :
  let x := OnEdge node fn ec ek in
  RelNode_ret (dependenciesOf x partId st w) = SUCCEEDED ->
  EdgeKey_edge_type ek <> edgeType_ (planContext_ node) ->
  UpdateEdgeNode.op node fn ec partId ek st w
  = (None, set_exeResult_ E_STORAGE_KVSTORE_KEY_NOT_FOUND (afterDependencies x partId st w),
     emit (RunDependencies partId) w).
Proof.
  intros x Hret Hne. simpl in Hret.
  unfold UpdateEdgeNode.op. simpl. rewrite Hret. simpl.
  by rewrite bool_decide_false.
Qed.

Lemma edge_op_status node fn ec partId ek st w :
  let x := OnEdge node fn ec ek in
  RelNode_ret (dependenciesOf x partId st w) = SUCCEEDED ->
  keyOfOwnType x ->
  RelNode_resultStat (dependenciesOf x partId st w) <> NORMAL ->
  UpdateEdgeNode.op node fn ec partId ek st w
  = (None,
     set_exeResult_
       (match RelNode_resultStat (dependenciesOf x partId st w) with
        | FILTER_OUT => E_STORAGE_QUERY_FILTER_NOT_PASSED
        | _ => E_STORAGE_QUERY_INVALID_DATA
        end)
       (afterDependencies x partId st w),
     emit (RunDependencies partId) w).
Proof.
  intros x Hret Hown Hstat. simpl in Hret, Hown, Hstat.
  unfold UpdateEdgeNode.op. simpl. rewrite Hret. simpl.
  rewrite bool_decide_true by done. simpl.
  by destruct (RelNode_resultStat _).
Qed.

Lemma edge_op_collected node fn ec partId ek st w ret st4 :
  let x := OnEdge node fn ec ek in
  RelNode_ret (dependenciesOf x partId st w) = SUCCEEDED ->
  keyOfOwnType x ->
  RelNode_resultStat (dependenciesOf x partId st w) = NORMAL ->
  collectOf x partId st w = (ret, st4) ->
  UpdateEdgeNode.op node fn ec partId ek st w
  = (if succeeded ret
     then match updateAndWriteBackOf x partId st4 with
          | (None, st6) => (None, set_exeResult_ E_STORAGE_QUERY_INVALID_DATA st6)
          | (Some b, st6) => (Some b, st6)
          end
     else (None, st4),
     emit (RunDependencies partId) w).
Proof.
  intros x Hret Hown Hstat Hcoll. simpl in Hret, Hown, Hstat, Hcoll.
  unfold UpdateEdgeNode.op. simpl. rewrite Hret, Hstat. simpl.
  rewrite bool_decide_true by done. simpl.
  rewrite Hret, Hstat in Hcoll.
  destruct (UpdateEdgeNode.collect _ _ _ _ _ _) as [ret' st4'] eqn:Hc.
  injection Hcoll as -> <-. simpl.
  destruct (succeeded ret); [|done].
  by destruct (UpdateEdgeNode.updateAndWriteBack node partId ek _) as [[b|] st6].
Qed.

(** An executor that commits by itself and leaves with [code] and
    nothing committed has stopped with [code]. *)
Lemma stopsWith_direct x partId st w code st' :
  commitsDirectly x ->
  runExecutor x partId st w = (code, st', emit (RunDependencies partId) w) ->
  stopsWith x partId st w code st'.
Proof.
  intros Hdirect Hrun. exists code, (emit (RunDependencies partId) w).
  split; [done|].
  destruct x as [node fn tc vId | node fn ec ek]; simpl in *; [done|].
  by rewrite Hdirect.
Qed.

(** And so has an edge executor under the transaction manager whose
    closure yields none and records [code]. *)
Lemma stopsWith_managed node fn ec ek partId st w txnMan code st' :
  ~ lockHeld (OnEdge node fn ec ek) partId w ->
  UpdateEdgeNode.tossManager node = Some txnMan ->
  UpdateEdgeNode.op node fn ec partId ek st w
  = (None, st', emit (RunDependencies partId) w) ->
  exeResult_ st' = code ->
  stopsWith (OnEdge node fn ec ek) partId st w code st'.
Proof.
  intros Hfree Hman Hop Hcode.
  destruct (edge_execute_managed _ _ _ _ _ _ _ _ _ _ Hfree Hman Hop)
    as (ret & w' & Hrun & Hover).
  exists ret, w'. split; [done|]. simpl. by rewrite Hman.
Qed.

(** The nodes the executor depends on fail. *)
Lemma stops_on_failed_dependencies x partId st w :
  ~ lockHeld x partId w ->
  RelNode_ret (dependenciesOf x partId st w) <> SUCCEEDED ->
  stopsWith x partId st w (RelNode_ret (dependenciesOf x partId st w))
    (afterDependencies x partId st w).
Proof.
  intros Hfree Hret.
  destruct x as [node fn tc vId | node fn ec ek].
  - apply stopsWith_direct; [done|]. simpl in *.
    rewrite tag_execute_free by done.
    unfold UpdateTagNode.executeLocked. simpl.
    apply succeeded_false in Hret. by rewrite Hret.
  - destruct (UpdateEdgeNode.tossManager node) as [txnMan|] eqn:Hman.
    + eapply stopsWith_managed; [done|done|by apply edge_op_failed|done].
    + apply stopsWith_direct; [done|]. simpl in *.
      rewrite edge_execute_free by done.
      unfold UpdateEdgeNode.executeLocked.
      rewrite (edge_op_failed node fn ec partId ek st w Hret). by rewrite Hman.
Qed.

(** The key of the edge is of another type than the executor. *)
Lemma stops_on_foreign_key node fn ec ek partId st w :
  let x := OnEdge node fn ec ek in
  ~ lockHeld x partId w ->
  RelNode_ret (dependenciesOf x partId st w) = SUCCEEDED ->
  EdgeKey_edge_type ek <> edgeType_ (planContext_ node) ->
  stopsWith x partId st w E_STORAGE_KVSTORE_KEY_NOT_FOUND
    (set_exeResult_ E_STORAGE_KVSTORE_KEY_NOT_FOUND (afterDependencies x partId st w)).
Proof.
  intros x Hfree Hret Hne.
  destruct (UpdateEdgeNode.tossManager node) as [txnMan|] eqn:Hman.
  - eapply stopsWith_managed; [done|done|by apply edge_op_foreign|done].
  - apply stopsWith_direct; [done|]. simpl in *.
    rewrite edge_execute_free by done.
    unfold UpdateEdgeNode.executeLocked.
    rewrite (edge_op_foreign node fn ec partId ek st w Hret Hne). by rewrite Hman.
Qed.

(** The filter node reports illegal data or a filter that did not
    pass. *)
Lemma stops_on_status x partId st w :
  ~ lockHeld x partId w ->
  keyOfOwnType x ->
  RelNode_ret (dependenciesOf x partId st w) = SUCCEEDED ->
  RelNode_resultStat (dependenciesOf x partId st w) <> NORMAL ->
  let code := match RelNode_resultStat (dependenciesOf x partId st w) with
              | FILTER_OUT => E_STORAGE_QUERY_FILTER_NOT_PASSED
              | _ => E_STORAGE_QUERY_INVALID_DATA
              end in
  exists st',
    stopsWith x partId st w code st'
    /\ st' = match x with
             | OnVertex _ _ _ _ => afterDependencies x partId st w
             | OnEdge _ _ _ _ => set_exeResult_ code (afterDependencies x partId st w)
             end.
Proof.
  intros Hfree Hown Hret Hstat code. subst code.
  destruct x as [node fn tc vId | node fn ec ek].
  - eexists. split; [|reflexivity].
    apply stopsWith_direct; [done|]. simpl in *.
    rewrite tag_execute_free by done.
    unfold UpdateTagNode.executeLocked. simpl. rewrite Hret. simpl.
    by destruct (RelNode_resultStat _).
  - eexists. split; [|reflexivity].
    destruct (UpdateEdgeNode.tossManager node) as [txnMan|] eqn:Hman.
    + eapply stopsWith_managed; [done|done|by apply edge_op_status|done].
    + apply stopsWith_direct; [done|]. simpl in Hfree |- *.
      rewrite edge_execute_free by done.
      unfold UpdateEdgeNode.executeLocked.
      rewrite (edge_op_status node fn ec partId ek st w Hret Hown Hstat).
      by rewrite Hman.
Qed.

(** The collection of the properties fails. *)
Lemma stops_on_failed_collection x partId st w ret st4 :
  ~ lockHeld x partId w ->
  keyOfOwnType x ->
  RelNode_ret (dependenciesOf x partId st w) = SUCCEEDED ->
  RelNode_resultStat (dependenciesOf x partId st w) = NORMAL ->
  collectOf x partId st w = (ret, st4) ->
  ret <> SUCCEEDED ->
  stopsWith x partId st w ret st4.
Proof.
  intros Hfree Hown Hret Hstat Hcoll Hfail.
  assert (commitsDirectly x -> stopsWith x partId st w ret st4) as Hd.
  { intros Hdirect. apply stopsWith_direct; [done|].
    by apply runExecutor_collect_fails. }
  destruct x as [node fn tc vId | node fn ec ek]; [by apply Hd|].
  destruct (UpdateEdgeNode.tossManager node) as [txnMan|] eqn:Hman; [|by apply Hd].
  eapply stopsWith_managed; [done|done| |].
  - rewrite (edge_op_collected node fn ec partId ek st w ret st4 Hret Hown Hstat Hcoll).
    apply succeeded_false in Hfail. by rewrite Hfail.
  - simpl in Hcoll.
    destruct (UpdateEdgeNode.collect _ _ _ _ _ _) as [ret' st4'].
    by injection Hcoll as -> <-.
Qed.

(** The properties are collected and [updateAndWriteBack] yields no
    batch. *)
Lemma stops_without_batch x partId st w st4 :
  propsCollected x partId st w st4 ->
  (updateAndWriteBackOf x partId st4).1 = None ->
  exists st',
    stopsWith x partId st w E_STORAGE_QUERY_INVALID_DATA st'
    /\ st' = match x with
             | OnVertex _ _ _ _ => (updateAndWriteBackOf x partId st4).2
             | OnEdge _ _ _ _ =>
                 set_exeResult_ E_STORAGE_QUERY_INVALID_DATA
                   (updateAndWriteBackOf x partId st4).2
             end.
Proof.
  intros (Hfree & Hown & Hret & Hstat & Hcoll) Hbatch.
  destruct x as [node fn tc vId | node fn ec ek].
  - eexists. split; [|reflexivity].
    apply stopsWith_direct; [done|]. simpl in *.
    rewrite tag_execute_free by done.
    unfold UpdateTagNode.executeLocked. simpl. rewrite Hret, Hstat. simpl.
    rewrite Hstat in Hcoll. rewrite Hcoll. simpl.
    destruct (UpdateTagNode.updateAndWriteBack node partId vId st4) as [[b|] st5];
      simpl in *; [done|reflexivity].
  - eexists. split; [|reflexivity].
    pose proof (edge_op_collected node fn ec partId ek st w _ st4 Hret Hown Hstat Hcoll)
      as Hop. simpl in Hop.
    destruct (UpdateEdgeNode.tossManager node) as [txnMan|] eqn:Hman.
    + eapply stopsWith_managed; [done|done| |].
      * rewrite Hop. simpl in Hbatch |- *.
        by destruct (UpdateEdgeNode.updateAndWriteBack node partId ek st4) as [[b|] st6].
      * done.
    + apply stopsWith_direct; [done|]. simpl in Hfree, Hbatch |- *.
      rewrite edge_execute_free by done.
      unfold UpdateEdgeNode.executeLocked. rewrite Hop, Hman.
      by destruct (UpdateEdgeNode.updateAndWriteBack node partId ek st4) as [[b|] st6].
Qed.


(** What stopping means on each of the two ways. *)
Lemma stopsWith_by_itself x partId st w code st' :
  commitsDirectly x ->
  stopsWith x partId st w code st' ->
  exists w',
    runExecutor x partId st w = (code, st', w')
    /\ events w' = events w ++ [RunDependencies partId]
    /\ kvstore_ w' = kvstore_ w.
Proof.
  intros Hdirect (ret & w' & Hrun & Hout).
  assert (leftAlone partId w code ret w') as (-> & Hev & Hkv).
  { destruct x as [node fn tc vId | node fn ec ek]; simpl in *; [done|].
    by rewrite Hdirect in Hout. }
  by exists w'.
Qed.

Lemma stopsWith_through_manager node fn ec ek partId st w txnMan code st' :
  UpdateEdgeNode.tossManager node = Some txnMan ->
  stopsWith (OnEdge node fn ec ek) partId st w code st' ->
  exeResult_ st' = code
  /\ exists ret w',
       runExecutor (OnEdge node fn ec ek) partId st w = (ret, st', w')
       /\ handedOver txnMan node partId ek None w ret w'.
Proof.
  intros Hman (ret & w' & Hrun & Hout). rewrite Hman in Hout.
  destruct Hout as [Hcode Hover]. split; [done|]. by exists ret, w'.
Qed.

(** The two definitions of being ready to write. *)
Lemma readyToWrite_collected x partId st w st4 :
  readyToWrite x partId st w st4
  <-> propsCollected x partId st w st4 /\ commitsDirectly x.
Proof. unfold readyToWrite, propsCollected. tauto. Qed.
End EitherWay.

(** ** The outcomes of an update that stops before it writes *)

Section EarlyExits.
Context {E : ExprEngine} {C : RowCodec} {U : KeyUtils}.

(** C8.  When the edge type of the requested key differs from the edge
    type the executor is made for, and the nodes it depends on have
    succeeded, the closure of the executor yields no batch and records
    [E_STORAGE_KVSTORE_KEY_NOT_FOUND].  An executor that commits by
    itself then returns that code with nothing committed.  One whose
    space has the transaction manager enabled hands the manager no
    batch, appends nothing itself, and returns what the manager
    replies, [E_UNKNOWN] when the future holds no value: whatever the
    manager is, the code that [execute] returns is not taken from
    [exeResult_]. *)
Theorem edge_type_mismatch_is_key_not_found (node : UpdateNode)
    (fn : FilterNode EdgeKey) (ec : UpdateEdgeNode.EdgeContext) (partId : PartitionID) (ek : EdgeKey)
    (st : State) (w : World) :
  ~ lockHeld (OnEdge node fn ec ek) partId w ->
  RelNode_ret (fn partId ek (kvstore_ w) (expCtx_ st)) = SUCCEEDED ->
  EdgeKey_edge_type ek <> edgeType_ (planContext_ node) ->
  exists st',
    UpdateEdgeNode.op node fn ec partId ek st w
    = (None, st', emit (RunDependencies partId) w)
    /\ exeResult_ st' = E_STORAGE_KVSTORE_KEY_NOT_FOUND
    /\ stopsWith (OnEdge node fn ec ek) partId st w E_STORAGE_KVSTORE_KEY_NOT_FOUND st'.
Proof.
  intros Hfree Hret Hne.
  eexists. split; [|split].
  - by apply edge_op_foreign.
  - reflexivity.
  - by apply stops_on_foreign_key.
Qed.

(** C7.  When the nodes the executor depends on succeed and report
    [FILTER_OUT], the executor stops with
    [E_STORAGE_QUERY_FILTER_NOT_PASSED] and no batch.  An executor that
    has the lock and commits by itself returns that code with nothing
    committed and the store as it was, and the node of the yielded
    columns does not treat the code as a failure: it returns it
    together with a row that starts with [_inserted] (false, as the plan
    context has it) and holds every yielded expression evaluated in the
    expression context as the filter node left it, that is, over the old
    row.  An edge executor whose space has the transaction manager
    enabled hands the manager no batch and returns what the manager
    replies; the node of the yielded columns returns that row when the
    reply is [SUCCEEDED] or [E_STORAGE_QUERY_FILTER_NOT_PASSED] and
    leaves the data set as it was on any other reply. *)
Theorem filtered_out_update (x : UpdateExecutor) (partId : PartitionID)
    (st : State) (w : World) (returnPropsExp_ : list Expression)
    (result_ : UpdateResNode.DataSet) :
  let run := dependenciesOf x partId st w in
  let ret := (runExecutor x partId st w).1.1 in
  let withOldRow :=
    UpdateResNode.mkDataSet
      (UpdateResNode.colNames result_
       ++ "_inserted"
          :: map (fun exp => String.append (sym exp) (String.append "." (prop exp)))
               returnPropsExp_)
      (UpdateResNode.rows result_
       ++ [VBool false
           :: map (fun exp => Expression_eval exp (RelNode_expCtx run)) returnPropsExp_]) in
  ~ lockHeld x partId w ->
  keyOfOwnType x ->
  RelNode_ret run = SUCCEEDED ->
  RelNode_resultStat run = FILTER_OUT ->
  insert_ st = false ->
  (exists st', stopsWith x partId st w E_STORAGE_QUERY_FILTER_NOT_PASSED st')
  /\ (commitsDirectly x ->
      UpdateResNode.execute returnPropsExp_ (runExecutor x partId st w) result_
      = (E_STORAGE_QUERY_FILTER_NOT_PASSED, withOldRow))
  /\ UpdateResNode.execute returnPropsExp_ (runExecutor x partId st w) result_
     = (ret, if bool_decide (ret = SUCCEEDED \/ ret = E_STORAGE_QUERY_FILTER_NOT_PASSED)
             then withOldRow else result_).
Proof.
  intros run ret withOldRow Hfree Hown Hret Hstat Hins.
  assert (RelNode_resultStat run <> NORMAL) as Hnot by (by rewrite Hstat).
  destruct (stops_on_status x partId st w Hfree Hown Hret Hnot) as (st' & Hstop & Hst').
  fold run in Hstop, Hst'. rewrite Hstat in Hstop, Hst'.
  assert (insert_ st' = false /\ expCtx_ st' = RelNode_expCtx run) as [Hi Hc].
  { subst st'. by destruct x. }
  assert (UpdateResNode.execute returnPropsExp_ (runExecutor x partId st w) result_
          = (ret, if bool_decide (ret = SUCCEEDED \/ ret = E_STORAGE_QUERY_FILTER_NOT_PASSED)
                  then withOldRow else result_)) as Hres.
  { subst ret withOldRow. destruct Hstop as (r & w' & Hrun & _). rewrite Hrun. simpl.
    rewrite Hi, Hc.
    destruct (succeeded r) eqn:Hs; simpl.
    - apply succeeded_true in Hs. subst r. by rewrite bool_decide_true by auto.
    - apply succeeded_false in Hs. case_bool_decide as Hf; simpl.
      + by rewrite bool_decide_true by auto.
      + rewrite bool_decide_false; [done|]. by intros [?|?]. }
  split; [by exists st'|]. split; [|exact Hres].
  intros Hdirect. rewrite Hres. subst ret.
  destruct Hstop as (r & w' & Hrun & Hout). rewrite Hrun. simpl.
  assert (r = E_STORAGE_QUERY_FILTER_NOT_PASSED) as ->.
  { destruct x as [node fn tc vId | node fn ec ek]; simpl in *; [by destruct Hout|].
    rewrite Hdirect in Hout. by destruct Hout. }
  by rewrite bool_decide_true by auto.
Qed.
End EarlyExits.

(** ** Index maintenance *)

Section IndexMaintenance.
Context {E : ExprEngine} {C : RowCodec} {U : KeyUtils}.

Lemma newRowOf_frame x st4 nVal st2 :
  newRowOf x st4 = Some (nVal, st2) ->
  key_ st2 = key_ st4 /\ reader_ st2 = reader_ st4
  /\ val_ st2 = val_ st4 /\ schema_ st2 = schema_ st4.
Proof.
  unfold newRowOf. intros Hrow.
  destruct (applyUpdatedProps _ _ _ _) as [ok st1] eqn:Happ.
  apply applyUpdatedProps_frame in Happ.
  destruct ok; [|done].
  destruct (encodeRow st1) as [encoded st2'] eqn:Henc.
  apply encodeRow_frame in Henc.
  destruct encoded; simpl in Hrow; [|done]. injection Hrow as <- <-.
  rewrite Henc, Happ. done.
Qed.

(** [updateAndWriteBack] yields the index records of the new row
    followed by the put of the row itself, in one batch. *)
Lemma updateAndWriteBackOf_batch x partId st4 :
  (updateAndWriteBackOf x partId st4).1
  = '(nVal, st2) ← newRowOf x st4;
    schema ← schema_ st2;
    records ← indexRecordsOf x partId st2 schema nVal;
    Some (records ++ [OP_BATCH_PUT (key_ st2) nVal]).
Proof.
  rewrite updateAndWriteBackOf_unfold. unfold newRowOf.
  destruct (applyUpdatedProps _ _ _ _) as [[] st1]; [|done].
  destruct (encodeRow st1) as [[nVal|] st2]; [|done]. simpl.
  destruct (schema_ st2) as [schema|]; [|done]. simpl.
  by destruct (indexRecordsOf x partId st2 schema nVal).
Qed.

Lemma indexRecordsOf_frame x partId st2 st4 schema nVal :
  reader_ st2 = reader_ st4 -> val_ st2 = val_ st4 ->
  indexRecordsOf x partId st2 schema nVal = indexRecordsOf x partId st4 schema nVal.
Proof. unfold indexRecordsOf. by intros -> ->. Qed.

(** A batch that is committed: the events and the store afterwards. *)
Lemma runExecutor_commits x partId st w st4 batch :
  readyToWrite x partId st w st4 ->
  (updateAndWriteBackOf x partId st4).1 = Some batch ->
  let env := env_ (planContext_ (nodeOf x)) in
  let spaceId := spaceId_ (planContext_ (nodeOf x)) in
  let reply := appendReply env spaceId partId batch in
  exists st' w',
    runExecutor x partId st w = (reply, st', w')
    /\ events w' = events w ++ [RunDependencies partId;
                                AsyncAppendBatch spaceId partId batch]
    /\ kvstore_ w' = (if succeeded reply
                      then applyBatch spaceId partId batch (kvstore_ w)
                      else kvstore_ w).
Proof.
  intros (Hfree & Hdirect & Hown & Hret & Hstat & Hcoll) Hbatch.
  destruct (runExecutor_collected x partId st w st4 Hfree Hdirect Hown Hret Hstat Hcoll)
    as [st' Hrun].
  rewrite Hbatch in Hrun. simpl in Hrun.
  do 2 eexists. split; [exact Hrun|].
  unfold asyncAppendBatch. simpl.
  destruct (succeeded _); simpl; by rewrite <- app_assoc.
Qed.

(** When no batch is made, nothing is committed. *)
Lemma runExecutor_no_batch x partId st w st4 :
  readyToWrite x partId st w st4 ->
  (updateAndWriteBackOf x partId st4).1 = None ->
  exists st' w',
    runExecutor x partId st w = (E_STORAGE_QUERY_INVALID_DATA, st', w')
    /\ events w' = events w ++ [RunDependencies partId]
    /\ kvstore_ w' = kvstore_ w.
Proof.
  intros (Hfree & Hdirect & Hown & Hret & Hstat & Hcoll) Hbatch.
  destruct (runExecutor_collected x partId st w st4 Hfree Hdirect Hown Hret Hstat Hcoll)
    as [st' Hrun].
  rewrite Hbatch in Hrun. by do 2 eexists.
Qed.



Lemma updateAndWriteBackOf_batchOfMutation x partId st w st4 batch :
  collectOf x partId st w = (SUCCEEDED, st4) ->
  (updateAndWriteBackOf x partId st4).1 = Some batch ->
  batchOfMutation x partId st w batch.
Proof.
  intros Hcoll Hbatch. rewrite updateAndWriteBackOf_batch in Hbatch.
  destruct (newRowOf x st4) as [[nVal st2]|] eqn:Hrow; [|done]. simpl in Hbatch.
  destruct (schema_ st2) as [schema|] eqn:Hschema; [|done]. simpl in Hbatch.
  destruct (indexRecordsOf x partId st2 schema nVal) as [records|] eqn:Hrecords; [|done].
  injection Hbatch as <-.
  exists st4, nVal, st2, schema, records. repeat (split; [done|]).
  split; [|done].
  unfold indexRecordsOf in Hrecords. intros op. split.
  - intros Hop.
    destruct (updateIndexes_sound _ _ _ _ _ _ _ _ _ _ _ _ (or_introl eq_refl) Hrecords)
      as (added & -> & Hadded).
    rewrite Forall_forall in Hadded. by apply Hadded.
  - intros (index & Hin & Hm & [r Hval Hr Hoi Hop | nr Hnr Hni Hop]).
    + destruct (updateIndexes_old_complete _ _ _ _ _ _ _ _ _ _ _ _ index r
                  (or_introl eq_refl) Hrecords Hin Hm Hval Hr Hoi) as (op' & Hop' & Hin').
      congruence.
    + destruct (updateIndexes_new_complete _ _ _ _ _ _ _ _ _ _ _ _ index nr
                  (or_introl eq_refl) Hrecords Hin Hm Hnr Hni) as (op' & Hop' & Hin').
      congruence.
Qed.




(** C2.  The properties of the row of an update or upsert are
    collected, the oracle reports [Locked] for the space and the
    partition, and an index entry is due for [index], which targets the
    schema: its old key or its new key is not empty.  Then
    [updateAndWriteBack] yields no batch and the executor stops with
    [E_STORAGE_QUERY_INVALID_DATA]: one that commits by itself returns
    that code with nothing committed and the store as it was; an edge
    executor whose space has the transaction manager enabled hands the
    manager no batch and returns what the manager replies. *)
Theorem locked_index_aborts (x : UpdateExecutor) (partId : PartitionID)
    (st : State) (w : World) (st4 : State) (index : IndexItem) :
  let env := env_ (planContext_ (nodeOf x)) in
  let spaceId := spaceId_ (planContext_ (nodeOf x)) in
  propsCollected x partId st w st4 ->
  getIndexState env spaceId partId = Locked ->
  index ∈ indexes_ (nodeOf x) ->
  matchesOf x index = true ->
  (val_ st4 <> EmptyString
   /\ exists r, reader_ st4 = Some r /\ indexKeyOf x partId r index <> EmptyString)
  \/ (exists nVal st2 nr,
        newRowOf x st4 = Some (nVal, st2)
        /\ newReaderOf x nVal = Some nr
        /\ indexKeyOf x partId nr index <> EmptyString) ->
  (updateAndWriteBackOf x partId st4).1 = None
  /\ exists st', stopsWith x partId st w E_STORAGE_QUERY_INVALID_DATA st'.
Proof.
  intros env spaceId Hcollected Hstate Hin Hm Hdue.
  assert ((updateAndWriteBackOf x partId st4).1 = None) as Hnone.
  { rewrite updateAndWriteBackOf_batch.
    destruct (newRowOf x st4) as [[nVal st2]|] eqn:Hrow; [|done]. simpl.
    destruct (schema_ st2) as [schema|]; [|done]. simpl.
    destruct (indexRecordsOf x partId st2 schema nVal) as [records|] eqn:Hrecords; [|done].
    exfalso.
    destruct (newRowOf_frame _ _ _ _ Hrow) as (Hk & Hr & Hv & Hs).
    unfold indexRecordsOf in Hrecords. fold env spaceId in Hrecords.
    rewrite Hstate, Hr, Hv in Hrecords.
    destruct Hdue as [[Hval (r & Hreader & Hoi)] | (nVal' & st2' & nr & Hrow' & Hnr & Hni)].
    - rewrite Hreader in Hrecords.
      by destruct (updateIndexes_old_complete _ _ _ _ _ _ _ _ _ _ _ _ index r
                     (or_introl eq_refl) Hrecords Hin Hm Hval eq_refl Hoi) as (op & Hop & _).
    - assert (nVal' = nVal) as -> by congruence.
      by destruct (updateIndexes_new_complete _ _ _ _ _ _ _ _ _ _ _ _ index nr
                     (or_introl eq_refl) Hrecords Hin Hm Hnr Hni) as (op & Hop & _). }
  split; [done|].
  destruct (stops_without_batch x partId st w st4 Hcollected Hnone) as (st' & Hstop & _).
  by exists st'.
Qed.

End IndexMaintenance.

(** ** The defaults of an inserted row *)

Section DefaultFacts.
Context {E : ExprEngine} {C : RowCodec} {U : KeyUtils}.
Variable node : UpdateNode.
Variable schema : Schema.
Hypothesis schema_nodup : NoDup (map Field_name schema).

Lemma Schema_field_Some name f :
  Schema_field schema name = Some f -> f ∈ schema /\ Field_name f = name.
Proof.
  unfold Schema_field. intros Hfind. apply find_some in Hfind as [Hin Hname].
  split; [by apply list_elem_of_In|]. by apply bool_decide_eq_true in Hname.
Qed.

Lemma field_by_name f g :
  f ∈ schema -> g ∈ schema -> Field_name f = Field_name g -> f = g.
Proof.
  clear node. induction schema as [|h rest IH]; intros Hf Hg Hname.
  - by apply elem_of_nil in Hf.
  - simpl in schema_nodup. apply NoDup_cons in schema_nodup as [Hh Hrest].
    apply elem_of_cons in Hf as [->|Hf]; apply elem_of_cons in Hg as [->|Hg].
    + done.
    + exfalso. apply Hh. rewrite Hname. by apply list_elem_of_fmap_2.
    + exfalso. apply Hh. rewrite <- Hname. by apply list_elem_of_fmap_2.
    + by apply IH.
Qed.

Lemma getDefaultOrNullValue_ok f st st' :
  getDefaultOrNullValue f (Field_name f) st = (SUCCEEDED, st') ->
  props_ st' = <[Field_name f := defaultOrNull f (expCtx_ st)]> (props_ st)
  /\ expCtx_ st' = expCtx_ st
  /\ hasDefaultOrNullable f.
Proof.
  unfold getDefaultOrNullValue, defaultOrNull, hasDefaultOrNullable.
  destruct (Field_defaultValue f) as [expr|].
  - intros [= <-]. simpl. eauto.
  - destruct (Field_nullable f); [|done]. intros [= <-]. simpl. eauto.
Qed.

Lemma getDefaultOrNullValue_code f name st :
  (getDefaultOrNullValue f name st).1 = SUCCEEDED
  \/ (getDefaultOrNullValue f name st).1
     = E_STORAGE_SCHEMA_NO_DEFAULT_VALUE_AND_NOT_NULLABLE.
Proof. unfold getDefaultOrNullValue. repeat case_match; simpl; auto. Qed.

Lemma getDefaultOrNullValue_fail f name st ret st' :
  getDefaultOrNullValue f name st = (ret, st') -> ret <> SUCCEEDED -> st' = st.
Proof. unfold getDefaultOrNullValue. repeat case_match; by intros [= <- <-]. Qed.

Lemma sameButProps_expCtx st st' : sameButProps st st' -> expCtx_ st' = expCtx_ st.
Proof. unfold sameButProps. by intros ->. Qed.

Lemma defaultsGiven_step keys ctx (P : string -> Prop) f st st' :
  f ∈ schema ->
  expCtx_ st = ctx ->
  getDefaultOrNullValue f (Field_name f) st = (SUCCEEDED, st') ->
  defaultsGiven schema keys ctx P st ->
  defaultsGiven schema keys ctx (fun n => n = Field_name f \/ P n) st'.
Proof.
  intros Hf Hctx Hget Hinv g Hg HP Hkey.
  apply getDefaultOrNullValue_ok in Hget as (Hprops & _ & Hhas).
  destruct (decide (Field_name g = Field_name f)) as [Heq|Hne].
  - assert (g = f) as -> by (by apply field_by_name).
    split; [|done]. rewrite Hprops, Hctx. apply lookup_insert_eq.
  - destruct HP as [?|HP]; [done|].
    destruct (Hinv g Hg HP Hkey) as [Hp Hh]. split; [|done].
    rewrite Hprops. by rewrite lookup_insert_ne.
Qed.

Lemma defaultsGiven_weaken keys ctx (P Q : string -> Prop) st :
  (forall n, Q n -> n ∉ keys -> P n) ->
  defaultsGiven schema keys ctx P st -> defaultsGiven schema keys ctx Q st.
Proof. intros HPQ Hinv f Hf HQ Hkey. apply Hinv; auto. Qed.

Lemma checkDepProps_inv keys ctx deps : forall checked st ret checked' st',
  checkDepProps node schema deps checked st = (ret, checked', st') ->
  expCtx_ st = ctx ->
  defaultsGiven schema keys ctx (fun n => n ∈ checked) st ->
  defaultsGiven schema keys ctx (fun n => n ∈ checked') st'.
Proof.
  induction deps as [|p rest IH]; intros checked st ret checked' st' Hchk Hctx Hinv;
    simpl in Hchk.
  - by simplify_eq.
  - case_bool_decide; [by eapply IH|].
    destruct (Schema_field schema p) as [f|] eqn:Hfield; [|by simplify_eq].
    apply Schema_field_Some in Hfield as [Hf <-].
    destruct (getDefaultOrNullValue f (Field_name f) st) as [r st1] eqn:Hget.
    destruct (succeeded r) eqn:Hr.
    + apply succeeded_true in Hr. subst r.
      eapply IH; [exact Hchk| |].
      * pose proof (getDefaultOrNullValue_frame _ _ _ _ _ Hget) as Hframe.
        apply sameButProps_expCtx in Hframe. congruence.
      * eapply defaultsGiven_weaken; [|by eapply defaultsGiven_step].
        intros n Hn _. simpl. set_solver.
    + apply succeeded_false in Hr.
      apply getDefaultOrNullValue_fail in Hget; [|done]. by simplify_eq.
Qed.

Lemma checkSetProps_inv keys ctx depPropMap : forall checked st ret checked' st',
  checkSetProps node schema depPropMap checked st = (ret, checked', st') ->
  (forall prop, prop ∈ depPropMap -> prop.1 ∈ keys) ->
  expCtx_ st = ctx ->
  defaultsGiven schema keys ctx (fun n => n ∈ checked) st ->
  defaultsGiven schema keys ctx (fun n => n ∈ checked') st'.
Proof.
  induction depPropMap as [|prop rest IH];
    intros checked st ret checked' st' Hchk Hkeys Hctx Hinv; simpl in Hchk.
  - by simplify_eq.
  - destruct (checkDepProps node schema prop.2 checked st) as [[r c1] st1] eqn:Hdep.
    pose proof (checkDepProps_inv keys ctx _ _ _ _ _ _ Hdep Hctx Hinv) as Hinv1.
    pose proof (checkDepProps_frame _ _ _ _ _ _ _ _ Hdep) as Hframe.
    apply sameButProps_expCtx in Hframe.
    destruct (succeeded r); [|by simplify_eq].
    destruct (succeeded (checkField node (Schema_field schema prop.1)));
      [|by simplify_eq].
    eapply IH; [exact Hchk| | |].
    + intros q Hq. apply Hkeys. by apply list_elem_of_further.
    + congruence.
    + eapply defaultsGiven_weaken; [|exact Hinv1].
      intros n Hn Hkey. apply elem_of_union in Hn as [Hn|Hn]; [|done].
      apply elem_of_singleton in Hn. subst n. exfalso. apply Hkey, Hkeys.
      apply list_elem_of_here.
Qed.

Lemma checkOtherProps_inv keys ctx checked fieldIter : forall (P : string -> Prop) st st',
  checkOtherProps fieldIter checked st = (SUCCEEDED, st') ->
  (forall f, f ∈ fieldIter -> f ∈ schema) ->
  (forall n, n ∈ checked -> P n) ->
  expCtx_ st = ctx ->
  defaultsGiven schema keys ctx P st ->
  defaultsGiven schema keys ctx (fun n => P n \/ n ∈ map Field_name fieldIter) st'.
Proof.
  induction fieldIter as [|f rest IH]; intros P st st' Hchk Hsub Hchecked Hctx Hinv;
    simpl in Hchk.
  - simplify_eq. eapply defaultsGiven_weaken; [|exact Hinv].
    intros n [Hn|Hn] _; [done|]. by apply elem_of_nil in Hn.
  - assert (forall g, g ∈ rest -> g ∈ schema) as Hsub'
        by (intros g Hg; by apply Hsub, list_elem_of_further).
    case_bool_decide as Hf.
    + eapply defaultsGiven_weaken; [|by eapply (IH P)].
      intros n [Hn|Hn] _; [by left|].
      simpl in Hn. apply elem_of_cons in Hn as [->|Hn]; [left; by apply Hchecked|by right].
    + destruct (getDefaultOrNullValue f (Field_name f) st) as [r st1] eqn:Hget.
      destruct (succeeded r) eqn:Hr; [|simplify_eq; by apply succeeded_false in Hr].
      apply succeeded_true in Hr. subst r.
      pose proof (getDefaultOrNullValue_frame _ _ _ _ _ Hget) as Hframe.
      apply sameButProps_expCtx in Hframe.
      eapply defaultsGiven_weaken;
        [|eapply (IH (fun n => n = Field_name f \/ P n)); [exact Hchk|done| | |]].
      * intros n [Hn|Hn] _; [left; by right|].
        simpl in Hn. apply elem_of_cons in Hn as [->|Hn]; [left; by left|by right].
      * intros n Hn. right. by apply Hchecked.
      * congruence.
      * eapply defaultsGiven_step; try done. apply Hsub, list_elem_of_here.
Qed.

(** After a successful [checkPropsAndGetDefaultValue], every column of
    the schema that is not a key of the dependency map holds its default
    or null. *)
Lemma checkPropsAndGetDefaultValue_ok st st' :
  checkPropsAndGetDefaultValue node schema st = (SUCCEEDED, st') ->
  forall f, f ∈ schema -> Field_name f ∉ map fst (depPropMap_ node) ->
            defaulted (expCtx_ st) f st'.
Proof.
  unfold checkPropsAndGetDefaultValue. intros Hchk f Hf Hkey.
  destruct (checkSetProps node schema (depPropMap_ node) ∅ st) as [[r checked] st1] eqn:Hset.
  destruct (succeeded r) eqn:Hr; [|simplify_eq; by apply succeeded_false in Hr].
  assert (defaultsGiven schema (map fst (depPropMap_ node)) (expCtx_ st) (fun n => n ∈ checked) st1)
    as Hinv1.
  { eapply checkSetProps_inv; [exact Hset| |done|].
    - intros prop Hprop. by apply list_elem_of_fmap_2.
    - intros g _ Hg. set_solver. }
  pose proof (checkSetProps_frame _ _ _ _ _ _ _ _ Hset) as Hframe.
  apply sameButProps_expCtx in Hframe.
  assert (defaultsGiven schema (map fst (depPropMap_ node)) (expCtx_ st)
            (fun n => n ∈ checked \/ n ∈ map Field_name schema) st') as Hinv2.
  { eapply (checkOtherProps_inv _ _ checked schema (fun n => n ∈ checked));
      [exact Hchk|done|done|done|exact Hinv1]. }
  apply Hinv2; [done| |done]. right. by apply list_elem_of_fmap_2.
Qed.

Lemma checkDepProps_code deps : forall checked st,
  (forall p, p ∈ deps -> is_Some (Schema_field schema p)) ->
  (checkDepProps node schema deps checked st).1.1 = SUCCEEDED
  \/ (checkDepProps node schema deps checked st).1.1
     = E_STORAGE_SCHEMA_NO_DEFAULT_VALUE_AND_NOT_NULLABLE.
Proof.
  induction deps as [|p rest IH]; intros checked st Hknown; simpl; [by left|].
  assert (forall q, q ∈ rest -> is_Some (Schema_field schema q)) as Hknown'
      by (intros q Hq; by apply Hknown, list_elem_of_further).
  case_bool_decide; [by apply IH|].
  destruct (Hknown p (list_elem_of_here _ _)) as [f ->].
  pose proof (getDefaultOrNullValue_code f p st) as Hcode.
  destruct (getDefaultOrNullValue f p st) as [r st1]. simpl in Hcode.
  destruct Hcode as [-> | ->]; simpl; [by apply IH|by right].
Qed.

Lemma checkSetProps_code depPropMap : forall checked st,
  (forall prop, prop ∈ depPropMap ->
     is_Some (Schema_field schema prop.1)
     /\ forall p, p ∈ prop.2 -> is_Some (Schema_field schema p)) ->
  (checkSetProps node schema depPropMap checked st).1.1 = SUCCEEDED
  \/ (checkSetProps node schema depPropMap checked st).1.1
     = E_STORAGE_SCHEMA_NO_DEFAULT_VALUE_AND_NOT_NULLABLE.
Proof.
  induction depPropMap as [|prop rest IH]; intros checked st Hknown; simpl; [by left|].
  destruct (Hknown prop (list_elem_of_here _ _)) as [[f Hf] Hdeps].
  pose proof (checkDepProps_code prop.2 checked st Hdeps) as Hcode.
  destruct (checkDepProps node schema prop.2 checked st) as [[r c1] st1].
  simpl in Hcode. destruct Hcode as [-> | ->]; simpl; [|by right].
  rewrite Hf. simpl. apply IH. intros q Hq. by apply Hknown, list_elem_of_further.
Qed.

Lemma checkOtherProps_code fieldIter checked : forall st,
  (checkOtherProps fieldIter checked st).1 = SUCCEEDED
  \/ (checkOtherProps fieldIter checked st).1
     = E_STORAGE_SCHEMA_NO_DEFAULT_VALUE_AND_NOT_NULLABLE.
Proof.
  induction fieldIter as [|f rest IH]; intros st; simpl; [by left|].
  case_bool_decide; [by apply IH|].
  pose proof (getDefaultOrNullValue_code f (Field_name f) st) as Hcode.
  destruct (getDefaultOrNullValue f (Field_name f) st) as [r st1]. simpl in Hcode.
  destruct Hcode as [-> | ->]; simpl; [by apply IH|by right].
Qed.

(** When every name of the request is a column and some column that is
    not a key of the dependency map has neither a default nor is
    nullable, [checkPropsAndGetDefaultValue] fails with the code of the
    missing default. *)
Lemma checkPropsAndGetDefaultValue_missing st f :
  namesKnown node schema ->
  f ∈ schema -> Field_name f ∉ map fst (depPropMap_ node) ->
  Field_defaultValue f = None -> Field_nullable f = false ->
  (checkPropsAndGetDefaultValue node schema st).1
  = E_STORAGE_SCHEMA_NO_DEFAULT_VALUE_AND_NOT_NULLABLE.
Proof.
  intros Hknown Hf Hkey Hdef Hnull.
  destruct (checkPropsAndGetDefaultValue node schema st) as [ret st'] eqn:Hchk. simpl.
  assert (ret = SUCCEEDED \/ ret = E_STORAGE_SCHEMA_NO_DEFAULT_VALUE_AND_NOT_NULLABLE)
    as [-> | ->]; [| |done].
  - revert Hchk. unfold checkPropsAndGetDefaultValue.
    pose proof (checkSetProps_code (depPropMap_ node) ∅ st Hknown) as Hcode.
    destruct (checkSetProps node schema (depPropMap_ node) ∅ st) as [[r checked] st1].
    simpl in Hcode. destruct Hcode as [-> | ->]; simpl.
    + pose proof (checkOtherProps_code schema checked st1) as Hcode.
      destruct (checkOtherProps schema checked st1) as [r2 st2]. simpl in Hcode.
      intros [= <- <-]. done.
    + intros [= <- <-]. by right.
  - destruct (checkPropsAndGetDefaultValue_ok _ _ Hchk f Hf Hkey) as [_ [[d Hd]|Hn]];
      congruence.
Qed.
End DefaultFacts.

(** ** Upsert on a row that does not exist *)

Section UpsertFacts.
Context {E : ExprEngine} {C : RowCodec} {U : KeyUtils}.

Lemma getLatestTagSchemaAndName_hit node tc st schema name :
  latestOfTag tc (tagId_ (planContext_ node)) = Some schema ->
  UpdateTagNode.tagNames_ tc !! tagId_ (planContext_ node) = Some name ->
  UpdateTagNode.getLatestTagSchemaAndName node tc st
  = (SUCCEEDED, set_tagName_ name (set_schema_ (Some schema) st)).
Proof.
  unfold latestOfTag, UpdateTagNode.getLatestTagSchemaAndName. intros Hs Hn.
  destruct (UpdateTagNode.schemas_ tc !! tagId_ (planContext_ node)) as [versions|];
    simpl in Hs; [|done].
  destruct (last versions) as [back|]; simpl in Hs; [|done].
  subst back. by rewrite Hn.
Qed.

(** On the insert path the collection of the properties is
    [checkPropsAndGetDefaultValue] on the latest schema, in the
    expression context that has just been reset. *)
Lemma collectOf_insert x partId st w schema name :
  FilterNode_valid (dependenciesOf x partId st w) = false ->
  reader_ st = None ->
  insertable_ (nodeOf x) = true ->
  schemaAndNameOf x = Some (schema, name) ->
  exists st1,
    expCtx_ st1 = reset (RelNode_expCtx (dependenciesOf x partId st w))
    /\ forall ret st4,
         collectOf x partId st w = (ret, st4) ->
         exists ret2 st2,
           checkPropsAndGetDefaultValue (nodeOf x) schema st1 = (ret2, st2)
           /\ ret = ret2
           /\ (ret = SUCCEEDED -> props_ st4 = props_ st2).
Proof.
  intros Hvalid Hreader Hins Hschema.
  destruct x as [node fn tc vId | node fn ec ek]; simpl in *.
  - unfold UpdateTagNode.collect. rewrite Hvalid. simpl. rewrite Hreader, Hins.
    unfold UpdateTagNode.insertTagProps.
    destruct (latestOfTag tc _) as [schema'|] eqn:Hs; simpl in Hschema; [|done].
    destruct (UpdateTagNode.tagNames_ tc !! _) as [name'|] eqn:Hn; simpl in Hschema; [|done].
    injection Hschema as -> ->.
    rewrite (getLatestTagSchemaAndName_hit _ _ _ _ _ Hs Hn). simpl.
    eexists. split; cycle 1.
    + intros ret st4.
      destruct (checkPropsAndGetDefaultValue node schema _) as [ret2 st2] eqn:Hchk.
      destruct (succeeded ret2) eqn:Hr.
      * apply succeeded_true in Hr. subst ret2. intros [= <- <-].
        do 2 eexists. split; [exact Hchk|]. by split.
      * intros [= <- <-]. do 2 eexists. split; [exact Hchk|]. split; [done|].
        intros ->. by apply succeeded_false in Hr.
    + reflexivity.
  - unfold UpdateEdgeNode.collect. rewrite Hvalid. simpl. rewrite Hreader, Hins.
    unfold UpdateEdgeNode.insertEdgeProps.
    destruct (latestByAbsoluteType ec _) as [schema'|] eqn:Hs; simpl in Hschema; [|done].
    destruct (nameBySignedType ec _) as [name'|] eqn:Hn; simpl in Hschema; [|done].
    injection Hschema as -> ->.
    rewrite (getLatestEdgeSchemaAndName_hit _ _ _ _ _ Hs Hn). simpl.
    eexists. split; cycle 1.
    + intros ret st4.
      destruct (checkPropsAndGetDefaultValue node schema _) as [ret2 st2] eqn:Hchk.
      destruct (succeeded ret2) eqn:Hr.
      * apply succeeded_true in Hr. subst ret2. intros [= <- <-].
        do 2 eexists. split; [exact Hchk|]. by split.
      * intros [= <- <-]. do 2 eexists. split; [exact Hchk|]. split; [done|].
        intros ->. by apply succeeded_false in Hr.
    + reflexivity.
Qed.

(** The assignments leave the properties they do not name as they
    were. *)
Lemma applyUpdatedProps_other setProp name ups : forall st ok st' n,
  applyUpdatedProps setProp name ups st = (ok, st') ->
  n ∉ map UpdatedProp_name ups ->
  props_ st' !! n = props_ st !! n.
Proof.
  induction ups as [|u rest IH]; intros st ok st' n Happ Hn; simpl in Happ.
  - by simplify_eq.
  - simpl in Hn. apply not_elem_of_cons in Hn as [Hne Hn].
    destruct (Expression_decode (UpdatedProp_value u)); [|by simplify_eq].
    rewrite (IH _ _ _ _ Happ Hn). simpl. by rewrite lookup_insert_ne.
Qed.

Lemma newRowOf_other x st4 nVal st2 n :
  newRowOf x st4 = Some (nVal, st2) ->
  n ∉ map UpdatedProp_name (updatedProps_ (nodeOf x)) ->
  props_ st2 !! n = props_ st4 !! n.
Proof.
  unfold newRowOf. intros Hrow Hn.
  destruct (applyUpdatedProps _ _ _ _) as [ok st1] eqn:Happ.
  destruct ok; [|done].
  destruct (encodeRow st1) as [encoded st2'] eqn:Henc.
  apply encodeRow_frame in Henc.
  destruct encoded; simpl in Hrow; [|done]. injection Hrow as <- <-.
  rewrite Henc. simpl. by eapply applyUpdatedProps_other.
Qed.

(** C5.  The executor has the lock, and the nodes it depends on have
    succeeded without finding a row.  When the request is not
    insertable, the executor stops with
    [E_STORAGE_KVSTORE_KEY_NOT_FOUND] and no batch.  When it is
    insertable, in every batch of the mutation the put of the row is
    the encoding of a property map in which each column that the
    updates do not set holds its default, evaluated in the expression
    context that has just been reset, if it has one, and null otherwise,
    in which case the column is nullable; and when some such column has
    neither a default nor is nullable (every name of the request being a
    column of the schema), the executor stops with
    [E_STORAGE_SCHEMA_NO_DEFAULT_VALUE_AND_NOT_NULLABLE] and no batch.
    An executor that stops and commits by itself returns the code and
    writes nothing; an edge executor whose space has the transaction
    manager enabled records the code, hands the manager no batch and
    returns what the manager replies. *)
Theorem upsert_on_missing_row (x : UpdateExecutor) (partId : PartitionID)
    (st : State) (w : World) :
  let run := dependenciesOf x partId st w in
  let node := nodeOf x in
  ~ lockHeld x partId w ->
  keyOfOwnType x ->
  RelNode_ret run = SUCCEEDED ->
  RelNode_resultStat run = NORMAL ->
  FilterNode_valid run = false ->
  reader_ st = None ->
  (insertable_ node = false ->
   exists st', stopsWith x partId st w E_STORAGE_KVSTORE_KEY_NOT_FOUND st')
  /\ (insertable_ node = true ->
      forall schema name,
        schemaAndNameOf x = Some (schema, name) ->
        NoDup (map Field_name schema) ->
        (forall batch,
            batchOfMutation x partId st w batch ->
            exists st4 nVal st2,
              collectOf x partId st w = (SUCCEEDED, st4)
              /\ newRowOf x st4 = Some (nVal, st2)
              /\ last batch = Some (OP_BATCH_PUT (key_ st2) nVal)
              /\ forall f,
                   f ∈ schema ->
                   notSetByUpdates node f ->
                   props_ st2 !! Field_name f
                   = Some (defaultOrNull f (reset (RelNode_expCtx run)))
                   /\ hasDefaultOrNullable f)
        /\ (namesKnown node schema ->
            (exists f,
                f ∈ schema /\ notSetByUpdates node f
                /\ Field_defaultValue f = None /\ Field_nullable f = false) ->
            exists st',
              stopsWith x partId st w
                E_STORAGE_SCHEMA_NO_DEFAULT_VALUE_AND_NOT_NULLABLE st')).
Proof.
  intros run node Hfree Hown Hret Hstat Hvalid Hreader. subst run node.
  split.
  - intros Hins.
    assert (exists st4, collectOf x partId st w = (E_STORAGE_KVSTORE_KEY_NOT_FOUND, st4))
      as [st4 Hcoll].
    { destruct x as [nd fn tc vId | nd fn ec ek]; simpl in *.
      - unfold UpdateTagNode.collect. rewrite Hvalid. simpl. rewrite Hreader, Hins.
        by eexists.
      - unfold UpdateEdgeNode.collect. rewrite Hvalid. simpl. rewrite Hreader, Hins.
        by eexists. }
    exists st4. by eapply stops_on_failed_collection.
  - intros Hins schema name Hschema Hnodup.
    destruct (collectOf_insert x partId st w schema name Hvalid Hreader Hins Hschema)
      as (st1 & Hctx & Hcollect).
    split.
    + intros batch (st4 & nVal & st2 & sch & records & Hcoll & Hrow & _ & _ & _ & ->).
      exists st4, nVal, st2. split; [done|]. split; [done|].
      split; [apply last_snoc|].
      intros f Hf [Hupd Hkey].
      destruct (Hcollect _ _ Hcoll) as (ret2 & st2' & Hchk & <- & Hprops).
      destruct (checkPropsAndGetDefaultValue_ok _ _ Hnodup _ _ Hchk f Hf Hkey)
        as [Hdef Hhas].
      split; [|done].
      rewrite (newRowOf_other _ _ _ _ _ Hrow Hupd), (Hprops eq_refl), <- Hctx. done.
    + intros Hknown (f & Hf & [Hupd Hkey] & Hdef & Hnull).
      destruct (collectOf x partId st w) as [ret st4] eqn:Hcoll.
      destruct (Hcollect _ _ eq_refl) as (ret2 & st2' & Hchk & <- & _).
      pose proof (checkPropsAndGetDefaultValue_missing (nodeOf x) schema Hnodup st1 f
                    Hknown Hf Hkey Hdef Hnull) as Hmiss.
      rewrite Hchk in Hmiss. simpl in Hmiss. subst ret.
      exists st4. by eapply stops_on_failed_collection.
Qed.
End UpsertFacts.

(** ** The order of the assignments *)

Section UpdateOrderingFacts.
Context {E : ExprEngine} {C : RowCodec} {U : KeyUtils}.
Variable node : UpdateNode.

(** What one assignment does to the state. *)
Lemma applyUpdatedProps_cons setProp name u rest st e :
  Expression_decode (UpdatedProp_value u) = Some e ->
  applyUpdatedProps setProp name (u :: rest) st
  = let v := Expression_eval e (expCtx_ st) in
    applyUpdatedProps setProp name rest
      (set_expCtx_ (setProp (expCtx_ st) name (UpdatedProp_name u) v)
         (set_props_ (<[UpdatedProp_name u := v]> (props_ st)) st)).
Proof. intros He. simpl. rewrite He. reflexivity. Qed.

(** The expression of an assignment is evaluated in the state that the
    assignments before it have produced. *)
Lemma applyUpdatedProps_app setProp name earlier : forall later st st1,
  applyUpdatedProps setProp name earlier st = (true, st1) ->
  applyUpdatedProps setProp name (earlier ++ later) st
  = applyUpdatedProps setProp name later st1.
Proof.
  induction earlier as [|u rest IH]; intros later st st1 Hearlier; simpl in *.
  - by simplify_eq.
  - destruct (Expression_decode (UpdatedProp_value u)); [|done].
    by apply IH.
Qed.
End UpdateOrderingFacts.

Section UpdateOrdering.
Import Ref.

(** C4.  The assignments of a request are applied from left to right:
  the value expression of an assignment is evaluated in the expression
  context that the earlier assignments of the same request have
  produced, and its value is put into the property map and into that
  context before the next assignment is looked at.  In particular, with
  the reference expression engine, [set x = a, y = x + 1] over a context
  in which [a] is 5 yields [x = 5] and [y = 6], whatever [x] was before,
  for a vertex and for an edge. *)
Theorem updates_apply_in_order :
(forall (E : ExprEngine) (C : RowCodec)
        (setProp : ExprCtx -> string -> string -> Value -> ExprCtx) (name : string)
        (earlier later : list UpdatedProp) (u : UpdatedProp) (e : Expression)
        (st st1 : State),
    applyUpdatedProps setProp name earlier st = (true, st1) ->
    Expression_decode (UpdatedProp_value u) = Some e ->
    let v := Expression_eval e (expCtx_ st1) in
    applyUpdatedProps setProp name (earlier ++ u :: later) st
    = applyUpdatedProps setProp name later
        (set_expCtx_ (setProp (expCtx_ st1) name (UpdatedProp_name u) v)
           (set_props_ (<[UpdatedProp_name u := v]> (props_ st1)) st1)))
/\ (forall (setProp : Ref.Ctx -> string -> string -> Value -> Ref.Ctx)
           (st : State),
      setProp = setTagProp \/ setProp = setEdgeProp ->
      Ref.ctx_reader (expCtx_ st) = None ->
      Ref.ctx_props (expCtx_ st) !! ("person", "a") = Some (VInt 5) ->
      let a := Ref.TagPropertyExpression "person" "a" in
      let x := Ref.TagPropertyExpression "person" "x" in
      let one := Ref.ConstantExpression (VInt 1) in
      exists st',
        applyUpdatedProps setProp "person"
          [mkUpdatedProp "x" (Ref.encodeExpr a);
           mkUpdatedProp "y" (Ref.encodeExpr (Ref.ArithmeticAdd x one))] st
        = (true, st')
        /\ props_ st' !! "x" = Some (VInt 5)
        /\ props_ st' !! "y" = Some (VInt 6)).
Proof.
split.
- intros E C setProp name earlier later u e st st1 Hearlier He v.
  rewrite (applyUpdatedProps_app setProp name earlier (u :: later) st st1 Hearlier).
  by apply applyUpdatedProps_cons.
- intros setProp st HsetProp Hreader Ha a x one.
  assert (Expression_decode (Ref.encodeExpr a) = Some a) as Hda by (vm_compute; done).
  assert (Expression_decode (Ref.encodeExpr (Ref.ArithmeticAdd x one))
          = Some (Ref.ArithmeticAdd x one)) as Hdy by (vm_compute; done).
  eexists. split.
  + rewrite applyUpdatedProps_cons with (e := a) by exact Hda.
    cbv zeta.
    rewrite applyUpdatedProps_cons with (e := ArithmeticAdd x one) by exact Hdy.
    reflexivity.
  + assert (Expression_eval a (expCtx_ st) = VInt 5) as Hva.
    { simpl. unfold Ref.getProp. by rewrite Hreader, Ha. }
    rewrite Hva.
    assert (Expression_eval (Ref.ArithmeticAdd x one)
              (setProp (expCtx_ st) "person" "x" (VInt 5)) = VInt 6) as Hvy.
    { destruct HsetProp as [-> | ->]; simpl; unfold Ref.getProp; simpl;
        rewrite Hreader, lookup_insert_eq; done. }
    simpl. simpl in Hvy. rewrite Hvy. simpl.
    split; [|apply lookup_insert_eq].
    rewrite lookup_insert_ne by done. apply lookup_insert_eq.
Qed.
End UpdateOrdering.

(** * Further properties of the executors and the processors *)

Section Outcomes.
Context {E : ExprEngine} {C : RowCodec} {U : KeyUtils}.

(** The ways out of an executor that has the lock and commits by
    itself: it stops with a code other than [SUCCEEDED] and nothing
    committed, or it has made a batch. *)
Lemma runExecutor_stops x partId st w :
  ~ lockHeld x partId w ->
  commitsDirectly x ->
  exists ret st' w',
    runExecutor x partId st w = (ret, st', w')
    /\ ((ret <> SUCCEEDED
         /\ events w' = events w ++ [RunDependencies partId]
         /\ kvstore_ w' = kvstore_ w)
        \/ exists st4 batch,
             readyToWrite x partId st w st4
             /\ (updateAndWriteBackOf x partId st4).1 = Some batch).
Proof.
  intros Hfree Hdirect.
  assert (keyOfOwnType x \/ ~ keyOfOwnType x) as [Hown|Hown].
  { destruct x as [node fn tc vId | node fn ec ek]; simpl; [by left|].
    destruct (decide (EdgeKey_edge_type ek = edgeType_ (planContext_ node))); auto. }
  - destruct (decide (RelNode_ret (dependenciesOf x partId st w) = SUCCEEDED)) as [Hret|Hret].
    + destruct (RelNode_resultStat (dependenciesOf x partId st w)) eqn:Hstat.
      * destruct (collectOf x partId st w) as [cret st4] eqn:Hcoll.
        destruct (decide (cret = SUCCEEDED)) as [->|Hcret].
        -- assert (readyToWrite x partId st w st4) as Hready by done.
           destruct ((updateAndWriteBackOf x partId st4).1) as [batch|] eqn:Hbatch.
           ++ destruct (runExecutor_commits x partId st w st4 batch Hready Hbatch)
                as (st' & w' & Hrun & _).
              do 3 eexists. split; [exact Hrun|]. right. by exists st4, batch.
           ++ destruct (runExecutor_no_batch x partId st w st4 Hready Hbatch)
                as (st' & w' & Hrun & Hev & Hkv).
              do 3 eexists. split; [exact Hrun|]. by left.
        -- rewrite (runExecutor_collect_fails x partId st w cret st4) by done.
           do 3 eexists. split; [reflexivity|]. by left.
      * destruct x as [node fn tc vId | node fn ec ek]; simpl in *.
        -- rewrite tag_execute_free by done.
           unfold UpdateTagNode.executeLocked. simpl. rewrite Hret, Hstat. simpl.
           do 3 eexists. split; [reflexivity|]. by left.
        -- rewrite edge_execute_free by done.
           unfold UpdateEdgeNode.executeLocked, UpdateEdgeNode.op. simpl.
           rewrite Hret, Hstat. simpl. rewrite Hdirect.
           rewrite bool_decide_true by done. simpl.
           do 3 eexists. split; [reflexivity|]. by left.
      * destruct x as [node fn tc vId | node fn ec ek]; simpl in *.
        -- rewrite tag_execute_free by done.
           unfold UpdateTagNode.executeLocked. simpl. rewrite Hret, Hstat. simpl.
           do 3 eexists. split; [reflexivity|]. by left.
        -- rewrite edge_execute_free by done.
           unfold UpdateEdgeNode.executeLocked, UpdateEdgeNode.op. simpl.
           rewrite Hret, Hstat. simpl. rewrite Hdirect.
           rewrite bool_decide_true by done. simpl.
           do 3 eexists. split; [reflexivity|]. by left.
    + pose proof Hret as Hfail. apply succeeded_false in Hfail.
      destruct x as [node fn tc vId | node fn ec ek]; simpl in *.
      * rewrite tag_execute_free by done.
        unfold UpdateTagNode.executeLocked. simpl. rewrite Hfail.
        do 3 eexists. split; [reflexivity|]. by left.
      * rewrite edge_execute_free by done.
        unfold UpdateEdgeNode.executeLocked, UpdateEdgeNode.op. simpl.
        rewrite Hfail. rewrite Hdirect.
        do 3 eexists. split; [reflexivity|]. by left.
  - destruct x as [node fn tc vId | node fn ec ek]; simpl in *; [done|].
    rewrite edge_execute_free by done.
    unfold UpdateEdgeNode.executeLocked, UpdateEdgeNode.op. simpl.
    destruct (succeeded (RelNode_ret _)) eqn:Hret; simpl.
    + rewrite bool_decide_false by done. simpl. rewrite Hdirect.
      do 3 eexists. split; [reflexivity|]. by left.
    + rewrite Hdirect. apply succeeded_false in Hret.
      do 3 eexists. split; [reflexivity|]. by left.
Qed.

(** X1. Whatever an executor does (the key is locked by another request,
    the dependencies fail, the row is filtered out, the update commits
    or does not), the two lock tables after [execute] are the ones before
    it: the guard taken by [execute] is released on every way out, and a
    request that fails on a conflict leaves the lock of its holder. *)
Theorem execute_releases_the_lock (x : UpdateExecutor) (partId : PartitionID)
    (st : State) (w : World) :
  let w' := (runExecutor x partId st w).2 in
  verticesML_ w' = verticesML_ w /\ edgesML_ w' = edgesML_ w.
Proof.
  destruct x as [node fn tc vId | node fn ec ek]; simpl.
  - destruct (decide ((spaceId_ (planContext_ node), partId, tagId_ (planContext_ node), vId)
                      ∈ verticesML_ w)) as [Hheld|Hfree].
    + unfold UpdateTagNode.execute, MemoryLockGuard_lock.
      rewrite bool_decide_true by done. done.
    + rewrite tag_execute_free by done. apply tag_executeLocked_locks.
  - destruct (decide ((spaceId_ (planContext_ node), partId, EdgeKey_src ek,
                       EdgeKey_edge_type ek, EdgeKey_ranking ek, EdgeKey_dst ek)
                      ∈ edgesML_ w)) as [Hheld|Hfree].
    + unfold UpdateEdgeNode.execute, MemoryLockGuard_lock.
      rewrite bool_decide_true by done. done.
    + rewrite edge_execute_free by done. apply edge_executeLocked_locks.
Qed.

(** X2. An executor that has the lock and commits by itself leaves the
    store as it was whenever it returns a code other than [SUCCEEDED],
    also when the store itself refuses the batch. *)
Theorem failed_update_writes_nothing (x : UpdateExecutor) (partId : PartitionID)
    (st : State) (w : World) :
  ~ lockHeld x partId w ->
  commitsDirectly x ->
  (runExecutor x partId st w).1.1 <> SUCCEEDED ->
  kvstore_ (runExecutor x partId st w).2 = kvstore_ w.
Proof.
  intros Hfree Hdirect Hfail.
  destruct (runExecutor_stops x partId st w Hfree Hdirect)
    as (ret & st' & w' & Hrun & [(Hret & Hev & Hkv) | (st4 & batch & Hready & Hbatch)]).
  - by rewrite Hrun.
  - destruct (runExecutor_commits x partId st w st4 batch Hready Hbatch)
      as (st'' & w'' & Hrun' & Hev & Hkv).
    rewrite Hrun' in Hfail |- *. simpl in *.
    apply succeeded_false in Hfail. by rewrite Hfail in Hkv.
Qed.

End Outcomes.

Section EarlyExits2.
Context {E : ExprEngine} {C : RowCodec} {U : KeyUtils}.

(** X6. When the nodes the executor depends on fail, the executor stops
    with their code, and its properties, reader and insert flag are
    untouched.  An executor that commits by itself returns the code as
    it is, having only run the dependencies and committed nothing; an
    edge executor whose space has the transaction manager enabled
    records the code, hands the manager no batch and returns what the
    manager replies. *)
Theorem failed_dependencies_stop_the_update (x : UpdateExecutor) (partId : PartitionID)
    (st : State) (w : World) :
  let run := dependenciesOf x partId st w in
  ~ lockHeld x partId w ->
  RelNode_ret run <> SUCCEEDED ->
  exists st',
    stopsWith x partId st w (RelNode_ret run) st'
    /\ props_ st' = props_ st
    /\ reader_ st' = reader_ st
    /\ insert_ st' = insert_ st.
Proof.
  intros run Hfree Hfail. subst run.
  exists (afterDependencies x partId st w).
  split; [by apply stops_on_failed_dependencies|]. by destruct x.
Qed.

(** X7. When the dependencies succeed with the result status
    [ILLEGAL_DATA] (for an edge: on a key of the edge type of the
    executor), the executor stops with [E_STORAGE_QUERY_INVALID_DATA]
    without reading a row: its properties, reader and insert flag are
    untouched.  An executor that commits by itself returns that code,
    having only run the dependencies; an edge executor whose space has
    the transaction manager enabled records the code, hands the manager
    no batch and returns what the manager replies. *)
Theorem illegal_data_stops_the_update (x : UpdateExecutor) (partId : PartitionID)
    (st : State) (w : World) :
  let run := dependenciesOf x partId st w in
  ~ lockHeld x partId w ->
  keyOfOwnType x ->
  RelNode_ret run = SUCCEEDED ->
  RelNode_resultStat run = ILLEGAL_DATA ->
  exists st',
    stopsWith x partId st w E_STORAGE_QUERY_INVALID_DATA st'
    /\ props_ st' = props_ st
    /\ reader_ st' = reader_ st
    /\ insert_ st' = insert_ st.
Proof.
  intros run Hfree Hown Hret Hstat. subst run.
  assert (RelNode_resultStat (dependenciesOf x partId st w) <> NORMAL) as Hnot
    by (by rewrite Hstat).
  destruct (stops_on_status x partId st w Hfree Hown Hret Hnot) as (st' & Hstop & Hst').
  rewrite Hstat in Hstop, Hst'.
  exists st'. split; [done|]. subst st'. by destruct x.
Qed.

Lemma applyUpdatedProps_undecodable setProp name ups : forall st,
  (exists u, u ∈ ups /\ Expression_decode (UpdatedProp_value u) = None) ->
  (applyUpdatedProps setProp name ups st).1 = false.
Proof.
  induction ups as [|u rest IH]; intros st (u' & Hin & Hdec).
  - by apply elem_of_nil in Hin.
  - simpl. apply elem_of_cons in Hin as [->|Hin].
    + by rewrite Hdec.
    + destruct (Expression_decode (UpdatedProp_value u)); [|done].
      apply IH. eauto.
Qed.

(** X8. Once the properties of the row are collected, if the expression
    of one of the updated properties cannot be decoded, no batch is
    made, whatever the other assignments are, and the executor stops
    with [E_STORAGE_QUERY_INVALID_DATA]: one that commits by itself
    returns that code and commits nothing; an edge executor whose space
    has the transaction manager enabled records the code, hands the
    manager no batch and returns what the manager replies. *)
Theorem undecodable_update_commits_nothing (x : UpdateExecutor) (partId : PartitionID)
    (st : State) (w : World) (st4 : State) (u : UpdatedProp) :
  propsCollected x partId st w st4 ->
  u ∈ updatedProps_ (nodeOf x) ->
  Expression_decode (UpdatedProp_value u) = None ->
  (updateAndWriteBackOf x partId st4).1 = None
  /\ exists st', stopsWith x partId st w E_STORAGE_QUERY_INVALID_DATA st'.
Proof.
  intros Hcollected Hin Hdec.
  assert ((updateAndWriteBackOf x partId st4).1 = None) as Hnone.
  { rewrite updateAndWriteBackOf_batch. unfold newRowOf.
    pose proof (applyUpdatedProps_undecodable (setPropOf x) (nameOf x st4)
                  (updatedProps_ (nodeOf x)) st4 (ex_intro _ u (conj Hin Hdec))) as Hfalse.
    destruct (applyUpdatedProps _ _ _ _) as [ok st1]. simpl in Hfalse. by subst ok. }
  split; [done|].
  destruct (stops_without_batch x partId st w st4 Hcollected Hnone) as (st' & Hstop & _).
  by exists st'.
Qed.
End EarlyExits2.

Section SchemaAndRead.
Context {E : ExprEngine} {C : RowCodec} {U : KeyUtils}.

Lemma getLatestTagSchemaAndName_miss node tc st :
  latestOfTag tc (tagId_ (planContext_ node)) = None
  \/ UpdateTagNode.tagNames_ tc !! tagId_ (planContext_ node) = None ->
  (UpdateTagNode.getLatestTagSchemaAndName node tc st).1 = E_STORAGE_SCHEMA_TAG_NOT_FOUND.
Proof.
  unfold latestOfTag, UpdateTagNode.getLatestTagSchemaAndName. intros Hmiss.
  destruct (UpdateTagNode.schemas_ tc !! tagId_ (planContext_ node)) as [versions|];
    simpl in *; [|done].
  destruct (last versions) as [[schema|]|]; simpl in *; try done.
  destruct (UpdateTagNode.tagNames_ tc !! tagId_ (planContext_ node)); [|done].
  by destruct Hmiss.
Qed.

(** The schema of the row is not resolved: every look-up of the executor
    fails with the not-found code of its kind. *)
Lemma schemaAndNameOf_miss x :
  schemaAndNameOf x = None ->
  match x with
  | OnVertex node _ tc _ =>
      forall st, (UpdateTagNode.getLatestTagSchemaAndName node tc st).1 = schemaNotFoundOf x
  | OnEdge node _ ec _ =>
      forall st, (UpdateEdgeNode.getLatestEdgeSchemaAndName node ec st).1 = schemaNotFoundOf x
  end.
Proof.
  destruct x as [node fn tc vId | node fn ec ek]; simpl; intros Hnone st.
  - apply getLatestTagSchemaAndName_miss.
    destruct (latestOfTag tc _); [|by left]. simpl in Hnone.
    destruct (UpdateTagNode.tagNames_ tc !! _); [done|by right].
  - apply getLatestEdgeSchemaAndName_miss.
    destruct (latestByAbsoluteType ec _); [|by left]. simpl in Hnone.
    destruct (nameBySignedType ec _) eqn:Hn; [done|by right].
Qed.

Lemma collectOf_schema_miss x partId st w :
  schemaAndNameOf x = None ->
  is_Some (rowOf x partId st w) \/ insertable_ (nodeOf x) = true ->
  (collectOf x partId st w).1 = schemaNotFoundOf x.
Proof.
  intros Hnone Hrow. pose proof (schemaAndNameOf_miss x Hnone) as Hmiss.
  unfold rowOf in Hrow.
  destruct x as [node fn tc vId | node fn ec ek]; simpl in *.
  - unfold UpdateTagNode.collect.
    match goal with |- context [reader_ ?s] => set (st3 := s) end.
    assert (reader_ st3 = if FilterNode_valid (fn partId vId (kvstore_ w) (expCtx_ st))
                          then FilterNode_reader (fn partId vId (kvstore_ w) (expCtx_ st))
                          else reader_ st) as Hr.
    { subst st3. by destruct (FilterNode_valid _). }
    rewrite <- Hr in Hrow.
    destruct (reader_ st3) as [r|] eqn:Hreader.
    + unfold UpdateTagNode.collTagProp.
      specialize (Hmiss (set_key_ (FilterNode_key (fn partId vId (kvstore_ w) (expCtx_ st))) st3)).
      destruct (UpdateTagNode.getLatestTagSchemaAndName _ _ _) as [ret st1].
      simpl in Hmiss. subst ret. done.
    + destruct Hrow as [[? ?]|Hins]; [done|]. rewrite Hins.
      unfold UpdateTagNode.insertTagProps.
      specialize (Hmiss (set_insert_ true st3)).
      destruct (UpdateTagNode.getLatestTagSchemaAndName _ _ _) as [ret st1].
      simpl in Hmiss. subst ret. done.
  - unfold UpdateEdgeNode.collect.
    match goal with |- context [reader_ ?s] => set (st3 := s) end.
    assert (reader_ st3 = if FilterNode_valid (fn partId ek (kvstore_ w) (expCtx_ st))
                          then FilterNode_reader (fn partId ek (kvstore_ w) (expCtx_ st))
                          else reader_ st) as Hr.
    { subst st3. by destruct (FilterNode_valid _). }
    rewrite <- Hr in Hrow.
    destruct (reader_ st3) as [r|] eqn:Hreader.
    + unfold UpdateEdgeNode.collEdgeProp.
      specialize (Hmiss (set_key_ (FilterNode_key (fn partId ek (kvstore_ w) (expCtx_ st))) st3)).
      destruct (UpdateEdgeNode.getLatestEdgeSchemaAndName _ _ _) as [ret st1].
      simpl in Hmiss. subst ret. done.
    + destruct Hrow as [[? ?]|Hins]; [done|]. rewrite Hins.
      unfold UpdateEdgeNode.insertEdgeProps.
      specialize (Hmiss (set_insert_ true st3)).
      destruct (UpdateEdgeNode.getLatestEdgeSchemaAndName _ _ _) as [ret st1].
      simpl in Hmiss. subst ret. done.
Qed.

(** X9. If the schema manager has no latest schema or no name for the tag
    or the edge type, an update of a stored row, and an upsert of a
    missing one, stops with [E_STORAGE_SCHEMA_TAG_NOT_FOUND] or
    [E_STORAGE_SCHEMA_EDGE_NOT_FOUND] once the nodes it depends on have
    succeeded with the filter passed (for an edge: on a key of the edge
    type of the executor).  An executor that commits by itself returns
    that code, having only run the dependencies; an edge executor whose
    space has the transaction manager enabled records the code, hands
    the manager no batch and returns what the manager replies. *)
Theorem unknown_schema_stops_the_update (x : UpdateExecutor) (partId : PartitionID)
    (st : State) (w : World) :
  let run := dependenciesOf x partId st w in
  ~ lockHeld x partId w ->
  keyOfOwnType x ->
  RelNode_ret run = SUCCEEDED ->
  RelNode_resultStat run = NORMAL ->
  schemaAndNameOf x = None ->
  is_Some (rowOf x partId st w) \/ insertable_ (nodeOf x) = true ->
  exists st', stopsWith x partId st w (schemaNotFoundOf x) st'.
Proof.
  intros run Hfree Hown Hret Hstat Hnone Hrow.
  pose proof (collectOf_schema_miss x partId st w Hnone Hrow) as Hcode.
  destruct (collectOf x partId st w) as [ret st4] eqn:Hcoll. simpl in Hcode. subst ret.
  exists st4. eapply stops_on_failed_collection; try done.
  by destruct x.
Qed.
End SchemaAndRead.

Section ReadTheRow.
Context {E : ExprEngine} {C : RowCodec} {U : KeyUtils}.

Lemma collectProps_reads reader schema fieldIter : forall st,
  (forall f, f ∈ fieldIter -> is_Some (readValue reader (Field_name f) schema)) ->
  exists st',
    collectProps reader schema fieldIter st = (true, st')
    /\ sameButProps st st'
    /\ forall n, props_ st' !! n
                 = if decide (n ∈ map Field_name fieldIter)
                   then readValue reader n schema else props_ st !! n.
Proof.
  induction fieldIter as [|f rest IH]; intros st Hall; simpl.
  - exists st. split; [done|]. split; [apply sameButProps_refl|]. intros n.
    destruct (decide (n ∈ map Field_name [])) as [Hin|_]; [by apply elem_of_nil in Hin|done].
  - destruct (Hall f (list_elem_of_here _ _)) as [v Hv]. rewrite Hv.
    destruct (IH (set_props_ (<[Field_name f := v]> (props_ st)) st))
      as (st' & Hcoll & Hsame & Hprops).
    { intros g Hg. by apply Hall, list_elem_of_further. }
    exists st'. split; [done|]. split.
    { eapply sameButProps_trans; [apply sameButProps_set|done]. }
    intros n. rewrite Hprops.
    change (map Field_name (f :: rest)) with (Field_name f :: map Field_name rest).
    destruct (decide (n ∈ map Field_name rest)) as [Hin|Hnin];
      destruct (decide (n ∈ Field_name f :: map Field_name rest)) as [Hin'|Hnin'].
    + done.
    + exfalso. apply Hnin'. by apply list_elem_of_further.
    + apply elem_of_cons in Hin' as [->|?]; [|done].
      simpl. by rewrite lookup_insert_eq.
    + simpl. rewrite lookup_insert_ne; [done|].
      intros <-. apply Hnin'. apply list_elem_of_here.
Qed.

Lemma collectProps_fails reader schema fieldIter : forall st,
  (exists f, f ∈ fieldIter /\ readValue reader (Field_name f) schema = None) ->
  (collectProps reader schema fieldIter st).1 = false.
Proof.
  induction fieldIter as [|f rest IH]; intros st (g & Hg & Hnone).
  - by apply elem_of_nil in Hg.
  - simpl. apply elem_of_cons in Hg as [->|Hg].
    + by rewrite Hnone.
    + destruct (readValue reader (Field_name f) schema); [|done]. apply IH. eauto.
Qed.

(** With the row there and its schema resolved, the collection of the
    properties is the loop over the fields of the latest schema. *)
Lemma collectOf_found x partId st w reader schema name :
  rowOf x partId st w = Some reader ->
  schemaAndNameOf x = Some (schema, name) ->
  exists st1,
    props_ st1 = props_ st /\ insert_ st1 = insert_ st
    /\ reader_ st1 = Some reader /\ schema_ st1 = Some schema
    /\ key_ st1 = FilterNode_key (dependenciesOf x partId st w)
    /\ forall ok st2,
         collectProps reader schema schema st1 = (ok, st2) ->
         if ok
         then exists st4,
                collectOf x partId st w = (SUCCEEDED, st4)
                /\ props_ st4 = props_ st2 /\ insert_ st4 = insert_ st2
                /\ key_ st4 = key_ st2 /\ schema_ st4 = schema_ st2
                /\ reader_ st4 = reader_ st2
                /\ val_ st4 = getData reader
                /\ rowWriter_ st4 = Some (RowWriterV2_new schema)
         else (collectOf x partId st w).1 = readFailedOf x.
Proof.
  unfold rowOf. intros Hrow Hschema.
  destruct x as [node fn tc vId | node fn ec ek]; simpl in *.
  - destruct (latestOfTag tc _) as [schema'|] eqn:Hs; simpl in Hschema; [|done].
    destruct (UpdateTagNode.tagNames_ tc !! _) as [name'|] eqn:Hn; simpl in Hschema; [|done].
    injection Hschema as -> ->.
    unfold UpdateTagNode.collect.
    match goal with |- context [reader_ ?s] => remember s as st3 eqn:Hst3 end.
    assert (reader_ st3 = Some reader /\ props_ st3 = props_ st /\ insert_ st3 = insert_ st)
      as (Hr & Hp3 & Hi3).
    { subst st3. rewrite <- Hrow. by destruct (FilterNode_valid _). }
    clear Hst3. rewrite Hr. unfold UpdateTagNode.collTagProp.
    rewrite (getLatestTagSchemaAndName_hit _ _ _ _ _ Hs Hn). simpl. rewrite Hr.
    exists (set_tagName_ name (set_schema_ (Some schema)
              (set_key_ (FilterNode_key (fn partId vId (kvstore_ w) (expCtx_ st))) st3))).
    split; [done|]. split; [done|].
    split; [done|]. split; [done|]. split; [done|].
    intros ok st2 Hcoll. rewrite Hcoll. destruct ok; [|done].
    eexists. split; [reflexivity|]. done.
  - destruct (latestByAbsoluteType ec _) as [schema'|] eqn:Hs; simpl in Hschema; [|done].
    destruct (nameBySignedType ec _) as [name'|] eqn:Hn; simpl in Hschema; [|done].
    injection Hschema as -> ->.
    unfold UpdateEdgeNode.collect.
    match goal with |- context [reader_ ?s] => remember s as st3 eqn:Hst3 end.
    assert (reader_ st3 = Some reader /\ props_ st3 = props_ st /\ insert_ st3 = insert_ st)
      as (Hr & Hp3 & Hi3).
    { subst st3. rewrite <- Hrow. by destruct (FilterNode_valid _). }
    clear Hst3. rewrite Hr. unfold UpdateEdgeNode.collEdgeProp.
    rewrite (getLatestEdgeSchemaAndName_hit _ _ _ _ _ Hs Hn). simpl. rewrite Hr.
    exists (set_edgeName_ name (set_schema_ (Some schema)
              (set_key_ (FilterNode_key (fn partId ek (kvstore_ w) (expCtx_ st))) st3))).
    split; [done|]. split; [done|].
    split; [done|]. split; [done|]. split; [done|].
    intros ok st2 Hcoll. rewrite Hcoll. destruct ok; [|done].
    eexists. split; [reflexivity|]. done.
Qed.

(** X10. A stored row is read under the latest schema: if a field of the
    schema cannot be read from the row, collecting fails with
    [E_STORAGE_QUERY_READ_TAG_PROP_FAILD] or
    [E_STORAGE_QUERY_READ_EDGE_PROP_FAILED]; otherwise it succeeds, every
    field of the schema is in [props_] with the value read from the row,
    the other entries of [props_] are kept, and the executor holds the
    bytes, the key and the reader of the row, the schema, a fresh row
    writer for that schema, and the insert flag it had. *)
Theorem existing_row_is_read_under_the_latest_schema (x : UpdateExecutor)
    (partId : PartitionID) (st : State) (w : World) (reader : RowReader)
    (schema : Schema) (name : string) :
  rowOf x partId st w = Some reader ->
  schemaAndNameOf x = Some (schema, name) ->
  ((exists f, f ∈ schema /\ readValue reader (Field_name f) schema = None) ->
   (collectOf x partId st w).1 = readFailedOf x)
  /\ ((forall f, f ∈ schema -> is_Some (readValue reader (Field_name f) schema)) ->
      exists st4,
        collectOf x partId st w = (SUCCEEDED, st4)
        /\ (forall f, f ∈ schema ->
              props_ st4 !! Field_name f = readValue reader (Field_name f) schema)
        /\ (forall n, n ∉ map Field_name schema -> props_ st4 !! n = props_ st !! n)
        /\ val_ st4 = getData reader
        /\ key_ st4 = FilterNode_key (dependenciesOf x partId st w)
        /\ reader_ st4 = Some reader
        /\ schema_ st4 = Some schema
        /\ rowWriter_ st4 = Some (RowWriterV2_new schema)
        /\ insert_ st4 = insert_ st).
Proof.
  intros Hrow Hschema.
  destruct (collectOf_found x partId st w reader schema name Hrow Hschema)
    as (st1 & Hp1 & Hi1 & Hr1 & Hs1 & Hk1 & Hloop).
  split.
  - intros Hbad.
    pose proof (collectProps_fails reader schema schema st1 Hbad) as Hfalse.
    destruct (collectProps reader schema schema st1) as [ok st2] eqn:Hcoll.
    simpl in Hfalse. subst ok. exact (Hloop false st2 eq_refl).
  - intros Hall.
    destruct (collectProps_reads reader schema schema st1 Hall)
      as (st2 & Hcoll & Hsame & Hprops).
    destruct (Hloop true st2 Hcoll) as (st4 & Hc & Hp & Hi & Hk & Hs & Hr & Hv & Hw).
    exists st4. split; [done|].
    unfold sameButProps in Hsame.
    split.
    { intros f Hf. rewrite Hp, Hprops.
      rewrite decide_True; [done|]. by apply list_elem_of_fmap_2. }
    split.
    { intros n Hn. rewrite Hp, Hprops. rewrite decide_False by done. by rewrite Hp1. }
    split; [done|].
    split; [by rewrite Hk, Hsame|].
    split; [by rewrite Hr, Hsame|].
    split; [by rewrite Hs, Hsame|].
    split; [done|].
    by rewrite Hi, Hsame.
Qed.
End ReadTheRow.

Section RequestNames.
Context {E : ExprEngine} {C : RowCodec} {U : KeyUtils}.
Variable node : UpdateNode.
Variable schema : Schema.

Lemma checkField_codes (ret : ErrorCode) :
  ret = checkField node None ->
  ret = (if isEdge_ node then E_STORAGE_SCHEMA_EDGE_PROP_NOT_FOUND
         else E_STORAGE_SCHEMA_TAG_PROP_NOT_FOUND)
  /\ ret <> SUCCEEDED.
Proof. intros ->. simpl. by destruct (isEdge_ node). Qed.

Lemma checkDepProps_checks deps : forall checked st ret checked' st',
  checkDepProps node schema deps checked st = (ret, checked', st') ->
  (ret = SUCCEEDED \/ ret = checkField node None
   \/ ret = E_STORAGE_SCHEMA_NO_DEFAULT_VALUE_AND_NOT_NULLABLE)
  /\ (forall q, q ∈ checked' -> q ∈ checked \/ is_Some (Schema_field schema q))
  /\ (ret = SUCCEEDED ->
      forall p, p ∈ deps -> p ∈ checked \/ is_Some (Schema_field schema p)).
Proof.
  induction deps as [|p rest IH]; intros checked st ret checked' st' Hchk; simpl in Hchk.
  - simplify_eq. split; [by left|]. split; [by left|].
    intros _ p Hp. by apply elem_of_nil in Hp.
  - case_bool_decide as Hin.
    + destruct (IH _ _ _ _ _ Hchk) as (Hc & Hsub & Hk). split; [done|]. split; [done|].
      intros Hok q [->|Hq]%elem_of_cons; [by left|by apply Hk].
    + destruct (Schema_field schema p) as [f|] eqn:Hf.
      * pose proof (getDefaultOrNullValue_code f p st) as Hcode.
        destruct (getDefaultOrNullValue f p st) as [r st1]. simpl in Hcode.
        destruct Hcode as [-> | ->]; simpl in Hchk.
        -- destruct (IH _ _ _ _ _ Hchk) as (Hc & Hsub & Hk). split; [done|].
           assert (forall q, q ∈ {[p]} ∪ checked ->
                     q ∈ checked \/ is_Some (Schema_field schema q)) as Hp.
           { intros q [->%elem_of_singleton|Hq]%elem_of_union;
               [right; by rewrite Hf|by left]. }
           split.
           ++ intros q Hq. destruct (Hsub q Hq) as [Hq'|Hq']; [by apply Hp|by right].
           ++ intros Hok q [->|Hq]%elem_of_cons; [right; by rewrite Hf|].
              destruct (Hk Hok q Hq) as [Hq'|Hq']; [by apply Hp|by right].
        -- simplify_eq. split; [by right; right|]. split; [by left|done].
      * simplify_eq. split; [right; by left|]. split; [by left|].
        intros Hok. by destruct (checkField_codes _ eq_refl) as [_ Hne].
Qed.

Lemma checkSetProps_checks depPropMap : forall checked st ret checked' st',
  (forall q, q ∈ checked -> is_Some (Schema_field schema q)) ->
  checkSetProps node schema depPropMap checked st = (ret, checked', st') ->
  (ret = SUCCEEDED \/ ret = checkField node None
   \/ ret = E_STORAGE_SCHEMA_NO_DEFAULT_VALUE_AND_NOT_NULLABLE)
  /\ (ret = SUCCEEDED ->
      forall prop, prop ∈ depPropMap ->
        is_Some (Schema_field schema prop.1)
        /\ forall p, p ∈ prop.2 -> is_Some (Schema_field schema p)).
Proof.
  induction depPropMap as [|prop rest IH]; intros checked st ret checked' st' Hchecked Hchk;
    simpl in Hchk.
  - simplify_eq. split; [by left|]. intros _ p Hp. by apply elem_of_nil in Hp.
  - destruct (checkDepProps node schema prop.2 checked st) as [[r c1] st1] eqn:Hdep.
    destruct (checkDepProps_checks _ _ _ _ _ _ Hdep) as (Hc & Hsub & Hk).
    destruct Hc as [-> | [-> | ->]]; simpl in Hchk.
    + destruct (Schema_field schema prop.1) as [f|] eqn:Hf; simpl in Hchk.
      * assert (forall q, q ∈ {[prop.1]} ∪ c1 -> is_Some (Schema_field schema q)) as Hc1.
        { intros q [->%elem_of_singleton|Hq]%elem_of_union; [by rewrite Hf|].
          destruct (Hsub q Hq); [by apply Hchecked|done]. }
        destruct (IH _ _ _ _ _ Hc1 Hchk) as [Hc' Hk'].
        split; [done|].
        intros Hok q [->|Hq]%elem_of_cons; [|by apply Hk'].
        split; [by rewrite Hf|]. intros p Hp.
        destruct (Hk eq_refl p Hp) as [Hin|Hknown]; [by apply Hchecked|done].
      * unfold checkField in *.
        destruct (isEdge_ node); simpl in Hchk; simplify_eq; (split; [right; by left|done]).
    + unfold checkField in *.
      destruct (isEdge_ node); simpl in Hchk; simplify_eq; (split; [right; by left|done]).
    + simplify_eq. split; [right; by right|done].
Qed.

(** X11. [checkPropsAndGetDefaultValue] returns one of three codes:
    [SUCCEEDED], the property-not-found code of the kind of the node, or
    [E_STORAGE_SCHEMA_NO_DEFAULT_VALUE_AND_NOT_NULLABLE].  When it
    succeeds, every property the request names (the keys of the
    dependency map and the properties they depend on) is a field of the
    schema; when all of them are fields of the schema, the
    property-not-found code is not returned. *)
Theorem names_of_the_request_are_checked (st : State) :
  let ret := (checkPropsAndGetDefaultValue node schema st).1 in
  (ret = SUCCEEDED
   \/ ret = (if isEdge_ node then E_STORAGE_SCHEMA_EDGE_PROP_NOT_FOUND
             else E_STORAGE_SCHEMA_TAG_PROP_NOT_FOUND)
   \/ ret = E_STORAGE_SCHEMA_NO_DEFAULT_VALUE_AND_NOT_NULLABLE)
  /\ (ret = SUCCEEDED -> namesKnown node schema)
  /\ (namesKnown node schema ->
      ret = SUCCEEDED \/ ret = E_STORAGE_SCHEMA_NO_DEFAULT_VALUE_AND_NOT_NULLABLE).
Proof.
  intros ret. subst ret. unfold checkPropsAndGetDefaultValue.
  pose proof (checkSetProps_code node schema (depPropMap_ node) ∅ st) as Hknown.
  destruct (checkSetProps node schema (depPropMap_ node) ∅ st) as [[r checked] st1] eqn:Hset.
  destruct (checkSetProps_checks _ _ _ _ _ _ (fun q Hq => False_ind _ (not_elem_of_empty q Hq))
              Hset) as [Hc Hk].
  pose proof (checkOtherProps_code schema checked st1) as Hother.
  simpl in Hknown.
  destruct (succeeded r) eqn:Hr.
  - apply succeeded_true in Hr. subst r.
    destruct (checkOtherProps schema checked st1) as [r2 st2]. simpl in *.
    split; [destruct Hother as [-> | ->]; auto|].
    split; [intros _; exact (Hk eq_refl)|]. by intros _.
  - apply succeeded_false in Hr. simpl.
    destruct Hc as [? | [-> | ->]]; [done| |].
    + destruct (checkField_codes _ eq_refl) as [Hcode Hne].
      split; [right; by left|]. split; [done|].
      intros Hnames. destruct (Hknown Hnames) as [Hr'|Hr']; [done|].
      rewrite Hr' in Hcode. by destruct (isEdge_ node).
    + split; [by right; right|]. split; [done|]. by right.
Qed.
End RequestNames.

Section IndexOrder.
Context {E : ExprEngine} {C : RowCodec} {U : KeyUtils}.

Lemma removeOldIndex_ops indexKey newReader schema iState partId val reader
    index batch batch1 :
  removeOldIndex indexKey iState partId val reader index batch = Some batch1 ->
  batch1 ++ match newReader with
            | Some nr =>
                if bool_decide (indexKey nr index = EmptyString) then []
                else option_list (newIndexRecord iState partId (indexKey nr index)
                                    (indexValueOf schema nr))
            | None => []
            end
  = batch ++ indexOpsOf indexKey val reader newReader schema iState partId index.
Proof.
  rewrite removeOldIndex_spec. unfold indexOpsOf. intros Hold.
  rewrite app_assoc. f_equal.
  case_bool_decide; [simplify_eq; by rewrite app_nil_r|].
  destruct reader as [r|]; [|done].
  case_bool_decide; [simplify_eq; by rewrite app_nil_r|].
  destruct (oldIndexRecord iState partId (indexKey r index)); simpl in *; by simplify_eq.
Qed.

(** The loop over the indexes adds, index by index in the order of
    [indexes_], the records of the indexes that target the schema. *)
Lemma updateIndexes_in_order matches indexKey newReader schema iState partId val reader
    indexes : forall cache batch out,
  cache = None \/ cache = newReader ->
  updateIndexes matches indexKey newReader schema iState partId val reader indexes cache batch
  = Some out ->
  out = batch ++ flat_map (indexOpsOf indexKey val reader newReader schema iState partId)
                   (List.filter matches indexes).
Proof.
  induction indexes as [|index rest IH]; intros cache batch out Hcache Hloop;
    simpl in Hloop |- *.
  - simplify_eq. by rewrite app_nil_r.
  - destruct (matches index) eqn:Hm; [|by apply (IH cache)].
    destruct (removeOldIndex indexKey iState partId val reader index batch)
      as [batch1|] eqn:Hold; [|done].
    assert (match cache with None => newReader | Some _ => cache end = newReader) as Hnr.
    { destruct Hcache as [-> | ->]; [done|by destruct newReader]. }
    rewrite Hnr in Hloop.
    destruct newReader as [nr|] eqn:Hnew; [|done].
    destruct (putNewIndex indexKey schema iState partId index nr batch1)
      as [batch2|] eqn:Hput; [|done].
    apply (IH (Some nr)) in Hloop; [|by right]. subst out.
    simpl. rewrite app_assoc. f_equal.
    rewrite <- (removeOldIndex_ops indexKey (Some nr) schema iState partId val reader
                  index batch batch1 Hold).
    rewrite putNewIndex_spec in Hput.
    case_bool_decide; [simplify_eq; by rewrite app_nil_r|].
    destruct (newIndexRecord iState partId (indexKey nr index) (indexValueOf schema nr));
      simpl in *; by simplify_eq.
Qed.

(** X5. The batch of a mutation is laid out in the order of the code: for
    every index of the node that targets the schema, in the order of
    [indexes_], the record of its old key followed by the record of its new
    key, and the put of the row as the last operation. *)
Theorem batch_of_an_update_in_order (x : UpdateExecutor) (partId : PartitionID)
    (st : State) (w : World) (batch : list BatchOp) :
  let iState := getIndexState (env_ (planContext_ (nodeOf x)))
                  (spaceId_ (planContext_ (nodeOf x))) partId in
  batchOfMutation x partId st w batch ->
  exists st4 nVal st2 schema,
    collectOf x partId st w = (SUCCEEDED, st4)
    /\ newRowOf x st4 = Some (nVal, st2)
    /\ schema_ st2 = Some schema
    /\ batch
       = flat_map (indexOpsOf (indexKeyOf x partId) (val_ st2) (reader_ st2)
                     (newReaderOf x nVal) schema iState partId)
           (List.filter (matchesOf x) (indexes_ (nodeOf x)))
         ++ [OP_BATCH_PUT (key_ st2) nVal].
Proof.
  intros iState (st4 & nVal & st2 & schema & records & Hcoll & Hrow & Hschema & Hrec & _ & ->).
  exists st4, nVal, st2, schema. repeat (split; [done|]). f_equal.
  unfold indexRecordsOf in Hrec.
  by apply updateIndexes_in_order in Hrec; [|by left].
Qed.
End IndexOrder.

Section CommittedUpdate.
Context {E : ExprEngine} {C : RowCodec} {U : KeyUtils}.

Lemma applyBatch_app spaceId partId b1 b2 store :
  applyBatch spaceId partId (b1 ++ b2) store
  = applyBatch spaceId partId b2 (applyBatch spaceId partId b1 store).
Proof. unfold applyBatch. apply fold_left_app. Qed.

(** An executor that has the lock and commits by itself returns
    [SUCCEEDED] only after it has made a batch and the store has taken
    it. *)
Lemma runExecutor_succeeded x partId st w :
  let spaceId := spaceId_ (planContext_ (nodeOf x)) in
  ~ lockHeld x partId w ->
  commitsDirectly x ->
  (runExecutor x partId st w).1.1 = SUCCEEDED ->
  exists st4 nVal st2 schema records,
    readyToWrite x partId st w st4
    /\ newRowOf x st4 = Some (nVal, st2)
    /\ schema_ st2 = Some schema
    /\ indexRecordsOf x partId st2 schema nVal = Some records
    /\ events (runExecutor x partId st w).2
       = events w ++ [RunDependencies partId;
                      AsyncAppendBatch spaceId partId
                        (records ++ [OP_BATCH_PUT (key_ st2) nVal])]
    /\ kvstore_ (runExecutor x partId st w).2
       = applyBatch spaceId partId (records ++ [OP_BATCH_PUT (key_ st2) nVal]) (kvstore_ w).
Proof.
  intros spaceId Hfree Hdirect Hok.
  destruct (runExecutor_stops x partId st w Hfree Hdirect)
    as (ret & st' & w' & Hrun & [(Hret & Hev & Hkv) | (st4 & batch & Hready & Hbatch)]).
  - rewrite Hrun in Hok. done.
  - destruct (runExecutor_commits x partId st w st4 batch Hready Hbatch)
      as (st'' & w'' & Hrun' & Hev & Hkv).
    rewrite Hrun' in Hok |- *. simpl in *. rewrite Hok in Hkv. simpl in Hkv.
    rewrite updateAndWriteBackOf_batch in Hbatch.
    destruct (newRowOf x st4) as [[nVal st2]|] eqn:Hrow; [|done]. simpl in Hbatch.
    destruct (schema_ st2) as [schema|] eqn:Hschema; [|done]. simpl in Hbatch.
    destruct (indexRecordsOf x partId st2 schema nVal) as [records|] eqn:Hrecords; [|done].
    injection Hbatch as <-.
    by exists st4, nVal, st2, schema, records.
Qed.

(** X3. When an executor that has the lock and commits by itself returns
    [SUCCEEDED], the properties of the row were collected, one batch was
    made and handed to the store in the only [asyncAppendBatch] call, the
    store is the old one with that batch applied, and the key of the row
    now holds the newly encoded row. *)
Theorem succeeded_update_is_readable (x : UpdateExecutor) (partId : PartitionID)
    (st : State) (w : World) :
  let spaceId := spaceId_ (planContext_ (nodeOf x)) in
  ~ lockHeld x partId w ->
  commitsDirectly x ->
  (runExecutor x partId st w).1.1 = SUCCEEDED ->
  exists batch st4 nVal st2,
    batchOfMutation x partId st w batch
    /\ collectOf x partId st w = (SUCCEEDED, st4)
    /\ newRowOf x st4 = Some (nVal, st2)
    /\ events (runExecutor x partId st w).2
       = events w ++ [RunDependencies partId; AsyncAppendBatch spaceId partId batch]
    /\ kvstore_ (runExecutor x partId st w).2 = applyBatch spaceId partId batch (kvstore_ w)
    /\ kvstore_ (runExecutor x partId st w).2 !! (spaceId, partId, key_ st4) = Some nVal.
Proof.
  intros spaceId Hfree Hdirect Hok.
  destruct (runExecutor_succeeded x partId st w Hfree Hdirect Hok)
    as (st4 & nVal & st2 & schema & records & Hready & Hrow & Hschema & Hrec & Hev & Hkv).
  destruct Hready as (_ & _ & _ & _ & _ & Hcoll).
  exists (records ++ [OP_BATCH_PUT (key_ st2) nVal]), st4, nVal, st2.
  split.
  { apply (updateAndWriteBackOf_batchOfMutation x partId st w st4); [done|].
    rewrite updateAndWriteBackOf_batch, Hrow. simpl. rewrite Hschema. simpl.
    by rewrite Hrec. }
  repeat (split; [done|]).
  destruct (newRowOf_frame _ _ _ _ Hrow) as (Hk & _).
  rewrite Hkv, applyBatch_app. simpl. rewrite Hk. apply lookup_insert_eq.
Qed.

(** X: one index *)
(** X4. For an executor that has the lock and commits by itself (a
    vertex executor, or an edge executor whose space does not have the
    transaction manager enabled), with one index on the schema, in its
    normal state: a succeeded update leaves the index in step with the
    row.  The index key of the new row, when it is not empty and is not
    the key of the row, holds the index value of the new row; and the
    index key of the old row, when it is not empty and differs from the
    new index key and from the key of the row, is no longer in the
    store. *)
Theorem index_entry_follows_the_row (x : UpdateExecutor) (partId : PartitionID)
    (st : State) (w : World) (index : IndexItem) :
  let env := env_ (planContext_ (nodeOf x)) in
  let spaceId := spaceId_ (planContext_ (nodeOf x)) in
  ~ lockHeld x partId w ->
  commitsDirectly x ->
  indexes_ (nodeOf x) = [index] ->
  matchesOf x index = true ->
  getIndexState env spaceId partId = Normal ->
  (runExecutor x partId st w).1.1 = SUCCEEDED ->
  exists st4 nVal st2 schema nr,
    collectOf x partId st w = (SUCCEEDED, st4)
    /\ newRowOf x st4 = Some (nVal, st2)
    /\ schema_ st4 = Some schema
    /\ newReaderOf x nVal = Some nr
    /\ let store' := kvstore_ (runExecutor x partId st w).2 in
       let ni := indexKeyOf x partId nr index in
       (ni <> EmptyString -> ni <> key_ st4 ->
        store' !! (spaceId, partId, ni) = Some (indexValueOf schema nr))
       /\ (forall r,
             val_ st4 <> EmptyString -> reader_ st4 = Some r ->
             let oi := indexKeyOf x partId r index in
             oi <> EmptyString -> oi <> ni -> oi <> key_ st4 ->
             store' !! (spaceId, partId, oi) = None).
Proof.
  intros env spaceId Hfree Hdirect Hindexes Hm Hnormal Hok.
  destruct (runExecutor_succeeded x partId st w Hfree Hdirect Hok)
    as (st4 & nVal & st2 & schema & records & Hready & Hrow & Hschema & Hrec & Hev & Hkv).
  destruct Hready as (_ & _ & _ & _ & _ & Hcoll).
  destruct (newRowOf_frame _ _ _ _ Hrow) as (Hk & Hr & Hv & Hs).
  unfold indexRecordsOf in Hrec. fold env spaceId in Hrec.
  rewrite Hnormal, Hindexes in Hrec.
  destruct (updateIndexes_turn _ _ _ _ _ _ _ _ _ _ _ _ _ (or_introl eq_refl) Hm Hrec)
    as (batch1 & nr & batch2 & Hold & Hnr & Hput & _).
  apply updateIndexes_in_order in Hrec; [|by left]. simpl in Hrec. rewrite Hm in Hrec.
  simpl in Hrec. rewrite app_nil_r in Hrec. unfold indexOpsOf in Hrec.
  rewrite Hnr in Hrec. simpl in Hrec.
  match type of Hrec with
  | _ = ?a ++ ?b => remember a as olds eqn:Holds; remember b as news eqn:Hnews
  end.
  exists st4, nVal, st2, schema, nr.
  split; [done|]. split; [done|]. split; [congruence|]. split; [done|].
  fold spaceId in Hkv. rewrite Hkv, applyBatch_app. simpl.
  rewrite Hk. subst records. rewrite applyBatch_app. split.
  - intros Hni Hkey. rewrite lookup_insert_ne by congruence.
    rewrite bool_decide_false in Hnews by done. subst news. simpl.
    apply lookup_insert_eq.
  - intros r Hval Hreader Hoi Hne Hkey. rewrite lookup_insert_ne by congruence.
    rewrite Hv, Hr, Hreader in Holds. rewrite bool_decide_false in Holds by done.
    rewrite bool_decide_false in Holds by done. simpl in Holds. subst olds news.
    case_bool_decide; simpl.
    + apply lookup_delete_eq.
    + rewrite lookup_insert_ne by congruence. apply lookup_delete_eq.
Qed.
End CommittedUpdate.

Section Yields.
Context {E : ExprEngine} {C : RowCodec} {U : KeyUtils}.

Lemma getLatestTagSchemaAndName_frame node tc st :
  let st' := (UpdateTagNode.getLatestTagSchemaAndName node tc st).2 in
  insert_ st' = insert_ st /\ props_ st' = props_ st /\ expCtx_ st' = expCtx_ st.
Proof.
  unfold UpdateTagNode.getLatestTagSchemaAndName. repeat case_match; done.
Qed.

Lemma getLatestEdgeSchemaAndName_frame node ec st :
  let st' := (UpdateEdgeNode.getLatestEdgeSchemaAndName node ec st).2 in
  insert_ st' = insert_ st /\ props_ st' = props_ st /\ expCtx_ st' = expCtx_ st.
Proof.
  unfold UpdateEdgeNode.getLatestEdgeSchemaAndName. repeat case_match; done.
Qed.

Lemma sameButProps_insert st st' : sameButProps st st' -> insert_ st' = insert_ st.
Proof. unfold sameButProps. by intros ->. Qed.

Lemma insertTagProps_insert node tc partId vId st :
  insert_ (UpdateTagNode.insertTagProps node tc partId vId st).2 = true.
Proof.
  unfold UpdateTagNode.insertTagProps.
  pose proof (getLatestTagSchemaAndName_frame node tc (set_insert_ true st)) as (Hi & _).
  destruct (UpdateTagNode.getLatestTagSchemaAndName node tc (set_insert_ true st))
    as [ret st1]. simpl in Hi.
  destruct (succeeded ret); [|done].
  destruct (schema_ st1) as [schema|]; [|done].
  destruct (checkPropsAndGetDefaultValue node schema st1) as [ret2 st2] eqn:Hchk.
  apply checkPropsAndGetDefaultValue_frame, sameButProps_insert in Hchk.
  destruct (succeeded ret2); simpl; congruence.
Qed.

Lemma insertEdgeProps_insert node ec partId ek st :
  insert_ (UpdateEdgeNode.insertEdgeProps node ec partId ek st).2 = true.
Proof.
  unfold UpdateEdgeNode.insertEdgeProps.
  pose proof (getLatestEdgeSchemaAndName_frame node ec (set_insert_ true st)) as (Hi & _).
  destruct (UpdateEdgeNode.getLatestEdgeSchemaAndName node ec (set_insert_ true st))
    as [ret st1]. simpl in Hi.
  destruct (succeeded ret); [|done].
  destruct (schema_ st1) as [schema|]; [|done].
  destruct (checkPropsAndGetDefaultValue node schema st1) as [ret2 st2] eqn:Hchk.
  apply checkPropsAndGetDefaultValue_frame, sameButProps_insert in Hchk.
  destruct (succeeded ret2); simpl; congruence.
Qed.

Lemma collTagProp_insert node tc vId st :
  insert_ (UpdateTagNode.collTagProp node tc vId st).2 = insert_ st.
Proof.
  unfold UpdateTagNode.collTagProp.
  pose proof (getLatestTagSchemaAndName_frame node tc st) as (Hi & _).
  destruct (UpdateTagNode.getLatestTagSchemaAndName node tc st) as [ret st1]. simpl in Hi.
  destruct (succeeded ret); [|done].
  destruct (schema_ st1) as [schema|]; [|done].
  destruct (reader_ st1) as [reader|]; [|done].
  destruct (collectProps reader schema schema st1) as [ok st2] eqn:Hcoll.
  apply collectProps_frame, sameButProps_insert in Hcoll.
  destruct ok; simpl; congruence.
Qed.

Lemma collEdgeProp_insert node ec ek st :
  insert_ (UpdateEdgeNode.collEdgeProp node ec ek st).2 = insert_ st.
Proof.
  unfold UpdateEdgeNode.collEdgeProp.
  pose proof (getLatestEdgeSchemaAndName_frame node ec st) as (Hi & _).
  destruct (UpdateEdgeNode.getLatestEdgeSchemaAndName node ec st) as [ret st1]. simpl in Hi.
  destruct (succeeded ret); [|done].
  destruct (schema_ st1) as [schema|]; [|done].
  destruct (reader_ st1) as [reader|]; [|done].
  destruct (collectProps reader schema schema st1) as [ok st2] eqn:Hcoll.
  apply collectProps_frame, sameButProps_insert in Hcoll.
  destruct ok; simpl; congruence.
Qed.

(** X12. The insert flag after the properties are collected tells which
    way was taken: it is the flag the executor had when a row was found,
    it is raised when no row was found and the node is insertable, and
    it is kept when no row was found and the node is not. *)
Theorem inserted_flag_tells_the_path (x : UpdateExecutor) (partId : PartitionID)
    (st : State) (w : World) :
  insert_ (collectOf x partId st w).2
  = match rowOf x partId st w with
    | Some _ => insert_ st
    | None => insertable_ (nodeOf x) || insert_ st
    end.
Proof.
  unfold rowOf.
  destruct x as [node fn tc vId | node fn ec ek]; simpl.
  - unfold UpdateTagNode.collect.
    match goal with |- context [reader_ ?s] => remember s as st3 eqn:Hst3 end.
    assert (reader_ st3 = (if FilterNode_valid (fn partId vId (kvstore_ w) (expCtx_ st))
                           then FilterNode_reader (fn partId vId (kvstore_ w) (expCtx_ st))
                           else reader_ st)
            /\ insert_ st3 = insert_ st) as [Hr Hi].
    { subst st3. by destruct (FilterNode_valid _). }
    clear Hst3. rewrite <- Hr.
    destruct (reader_ st3) as [r|].
    + by rewrite collTagProp_insert.
    + destruct (insertable_ node); [by rewrite insertTagProps_insert|done].
  - unfold UpdateEdgeNode.collect.
    match goal with |- context [reader_ ?s] => remember s as st3 eqn:Hst3 end.
    assert (reader_ st3 = (if FilterNode_valid (fn partId ek (kvstore_ w) (expCtx_ st))
                           then FilterNode_reader (fn partId ek (kvstore_ w) (expCtx_ st))
                           else reader_ st)
            /\ insert_ st3 = insert_ st) as [Hr Hi].
    { subst st3. by destruct (FilterNode_valid _). }
    clear Hst3. rewrite <- Hr.
    destruct (reader_ st3) as [r|].
    + destruct (UpdateEdgeNode.collEdgeProp node ec ek _) as [ret st4] eqn:Hc.
      simpl. change st4 with (ret, st4).2. rewrite <- Hc. by rewrite collEdgeProp_insert.
    + destruct (insertable_ node); [|done].
      destruct (UpdateEdgeNode.insertEdgeProps node ec partId ek _) as [ret st4] eqn:Hc.
      simpl. change st4 with (ret, st4).2. rewrite <- Hc. by rewrite insertEdgeProps_insert.
Qed.

(** The state an executor ends in once it has collected the
    properties: that of [updateAndWriteBack], but for the code the
    closure of an edge records. *)
Lemma runExecutor_final x partId st w st4 :
  propsCollected x partId st w st4 ->
  let st' := (runExecutor x partId st w).1.2 in
  let st5 := (updateAndWriteBackOf x partId st4).2 in
  insert_ st' = insert_ st5 /\ expCtx_ st' = expCtx_ st5 /\ props_ st' = props_ st5.
Proof.
  intros (Hfree & Hown & Hret & Hstat & Hcoll).
  destruct x as [node fn tc vId | node fn ec ek].
  - simpl in *. rewrite tag_execute_free by done.
    unfold UpdateTagNode.executeLocked. simpl. rewrite Hret, Hstat. simpl.
    rewrite Hstat in Hcoll. rewrite Hcoll. simpl.
    destruct (UpdateTagNode.updateAndWriteBack node partId vId st4) as [[b|] st5]; done.
  - pose proof (edge_op_collected node fn ec partId ek st w _ st4 Hret Hown Hstat Hcoll)
      as Hop.
    simpl in Hfree, Hop |- *. rewrite edge_execute_free by done.
    unfold UpdateEdgeNode.executeLocked. rewrite Hop.
    destruct (UpdateEdgeNode.updateAndWriteBack node partId ek st4) as [[b|] st5];
      destruct (UpdateEdgeNode.tossManager node) as [txnMan|]; simpl;
      try destruct (updateEdgeAtomic _ _ _ _ _ _ _) as [f store']; done.
Qed.

Lemma updateAndWriteBackOf_final x partId st4 :
  let st1 := (applyUpdatedProps (setPropOf x) (nameOf x st4)
                (updatedProps_ (nodeOf x)) st4).2 in
  let st5 := (updateAndWriteBackOf x partId st4).2 in
  insert_ st5 = insert_ st4 /\ expCtx_ st5 = expCtx_ st1 /\ props_ st5 = props_ st1.
Proof.
  rewrite updateAndWriteBackOf_unfold.
  destruct (applyUpdatedProps _ _ _ _) as [ok st1] eqn:Happ.
  apply applyUpdatedProps_frame in Happ. simpl.
  destruct ok; [|by rewrite Happ].
  destruct (encodeRow st1) as [encoded st2] eqn:Henc.
  apply encodeRow_frame in Henc.
  assert (insert_ st2 = insert_ st4 /\ expCtx_ st2 = expCtx_ st1 /\ props_ st2 = props_ st1)
    as Hst2 by (rewrite Henc, Happ; done).
  destruct encoded as [nVal|]; [|done].
  destruct (schema_ st2) as [schema|]; [|done].
  by destruct (indexRecordsOf x partId st2 schema nVal).
Qed.

(** X13. After a run in which the properties of the row were collected
    and that returns [SUCCEEDED], the result node appends one row to the
    data set: the insert flag, then every yielded expression evaluated in
    the expression context as the assignments left it, so a yield reads
    the new values; the column names are [_inserted] and the
    [symbol.property] of every yield.  Every run of an executor that has
    the lock and commits by itself and that returns [SUCCEEDED] is such
    a run; under the transaction manager the code is the reply of the
    manager.  After any run, of any executor, that returns a code other
    than [SUCCEEDED] and [E_STORAGE_QUERY_FILTER_NOT_PASSED], the result
    node returns that code and the data set as it was. *)
Theorem yields_follow_the_update (x : UpdateExecutor) (partId : PartitionID)
    (st : State) (w : World) (returnPropsExp_ : list Expression)
    (result_ : UpdateResNode.DataSet) :
  let ret := (runExecutor x partId st w).1.1 in
  (forall st4,
      propsCollected x partId st w st4 ->
      ret = SUCCEEDED ->
      let st1 := (applyUpdatedProps (setPropOf x) (nameOf x st4)
                    (updatedProps_ (nodeOf x)) st4).2 in
      UpdateResNode.execute returnPropsExp_ (runExecutor x partId st w) result_
      = (SUCCEEDED,
         UpdateResNode.mkDataSet
           (UpdateResNode.colNames result_
            ++ "_inserted"
               :: map (fun exp => String.append (sym exp) (String.append "." (prop exp)))
                    returnPropsExp_)
           (UpdateResNode.rows result_
            ++ [VBool (insert_ st4)
                :: map (fun exp => Expression_eval exp (expCtx_ st1)) returnPropsExp_])))
  /\ (~ lockHeld x partId w -> commitsDirectly x -> ret = SUCCEEDED ->
      exists st4, propsCollected x partId st w st4)
  /\ (ret <> SUCCEEDED -> ret <> E_STORAGE_QUERY_FILTER_NOT_PASSED ->
      UpdateResNode.execute returnPropsExp_ (runExecutor x partId st w) result_
      = (ret, result_)).
Proof.
  intros ret. subst ret. split; [|split].
  - intros st4 Hcollected Hok st1. subst st1.
    destruct (runExecutor_final x partId st w st4 Hcollected) as (Hi & Hc & _).
    destruct (updateAndWriteBackOf_final x partId st4) as (Hi' & Hc' & _).
    destruct (runExecutor x partId st w) as [[ret st'] w']. simpl in *. subst ret.
    unfold UpdateResNode.execute. simpl. by rewrite Hi, Hi', Hc, Hc'.
  - intros Hfree Hdirect Hok.
    destruct (runExecutor_succeeded x partId st w Hfree Hdirect Hok)
      as (st4 & nVal & st2 & schema & records & Hready & _).
    exists st4. by apply readyToWrite_collected in Hready as [? _].
  - destruct (runExecutor x partId st w) as [[ret st'] w']. simpl.
    intros Hne Hnf. unfold UpdateResNode.execute.
    apply succeeded_false in Hne. rewrite Hne.
    by rewrite bool_decide_false by done.
Qed.
End Yields.

Module BaseProcessorCallsFacts.
Import BaseProcessor BaseProcessorCalls.

Section Facts.
Variable partLeader : GraphSpaceID -> PartitionID -> ErrorCode + HostAddr.

Lemma handleErrorCode_snoc c s p codes :
  handleErrorCode partLeader c s p codes
  = codes ++ handleErrorCode partLeader c s p [].
Proof.
  unfold handleErrorCode, handleLeaderChanged, pushResultCode.
  destruct (succeeded c); [by rewrite app_nil_r|].
  case_bool_decide.
  - destruct (partLeader s p) as [err|ldr]; simpl.
    + destruct (succeeded err); [by rewrite app_nil_r|done].
    + done.
  - done.
Qed.

Lemma handleAsyncs_spec spaceId replies : forall p,
  let q := handleAsyncs partLeader spaceId replies p in
  codes_ q = codes_ p ++ flat_map (fun r => handleErrorCode partLeader r.2 spaceId r.1 [])
                           replies
  /\ callingNum_ q = callingNum_ p - Z.of_nat (length replies)
  /\ finished q
     = (if bool_decide (0 < callingNum_ p <= Z.of_nat (length replies))
        then S (finished p) else finished p).
Proof.
  induction replies as [|r rest IH]; intros p; simpl.
  - split; [by rewrite app_nil_r|]. split; [lia|].
    rewrite bool_decide_false by lia. done.
  - destruct (IH (handleAsync partLeader spaceId r.1 r.2 p)) as (Hc & Hn & Hf).
    unfold handleAsyncs in *. simpl in *.
    split.
    { rewrite Hc. rewrite (handleErrorCode_snoc r.2). by rewrite <- app_assoc. }
    split; [lia|]. rewrite Hf.
    repeat case_bool_decide; try done; lia.
Qed.

(** X14. When [callingNum_] is the number of the calls in flight,
    [onFinished] is called exactly once, by the callback that comes last
    and by none before it, whatever the codes of the replies are; the
    result vector has then been extended by what [handleErrorCode] makes of
    every reply, in the order of the callbacks. *)
Theorem onFinished_after_the_last_callback (spaceId : GraphSpaceID)
    (replies : list (PartitionID * ErrorCode)) (p : Processor) :
  callingNum_ p = Z.of_nat (length replies) ->
  replies <> [] ->
  let q := handleAsyncs partLeader spaceId replies p in
  finished q = S (finished p)
  /\ callingNum_ q = 0
  /\ (forall earlier later,
        replies = earlier ++ later -> later <> [] ->
        finished (handleAsyncs partLeader spaceId earlier p) = finished p)
  /\ codes_ q
     = codes_ p ++ flat_map (fun r => handleErrorCode partLeader r.2 spaceId r.1 []) replies.
Proof.
  intros Hn Hne q. subst q.
  destruct (handleAsyncs_spec spaceId replies p) as (Hc & Hk & Hf).
  split.
  { rewrite Hf. rewrite bool_decide_true; [done|].
    destruct replies; [done|]. simpl in *. lia. }
  split; [lia|]. split; [|done].
  intros earlier later -> Hlater.
  destruct (handleAsyncs_spec spaceId earlier p) as (_ & _ & Hf').
  rewrite Hf'. rewrite bool_decide_false; [done|].
  rewrite length_app in Hn. destruct later; [done|]. simpl in Hn. lia.
Qed.
End Facts.
End BaseProcessorCallsFacts.

Section EncodeRowValFacts.
Import BaseProcessorCalls.
Context {E : ExprEngine} {C : RowCodec}.
Variable setValueAt : RowWriterV2 -> nat -> Value -> ErrorCode * RowWriterV2.

(** Over the names and the values of a list of pairs, the loop of
    [encodeRowVal] does what the loop of [updateAndWriteBack] does. *)
Lemma setNamed_setValues (l : list (string * Value)) : forall w,
  exists r,
    setNamed (map fst l) (map snd l) w = Some (r, (setValues l w).2)
    /\ succeeded r = (setValues l w).1.
Proof.
  induction l as [|e rest IH]; intros w; simpl.
  - by exists SUCCEEDED.
  - destruct (setValue w e.1 e.2) as [wRet w'].
    destruct (succeeded wRet) eqn:Hret; [apply IH|].
    exists wRet. by rewrite Hret.
Qed.

Lemma setNamed_take (propNames : list string) : forall props w,
  (length propNames <= length props)%nat ->
  is_Some (setNamed propNames props w)
  /\ setNamed propNames (take (length propNames) props) w = setNamed propNames props w.
Proof.
  induction propNames as [|name names IH]; intros props w Hlen; simpl.
  - by split; [eexists|].
  - destruct props as [|v vs]; simpl in *; [lia|].
    destruct (setValue w name v) as [wRet w'].
    destruct (succeeded wRet); [apply IH; lia|]. by split; [eexists|].
Qed.

(** X15. The row an update encodes is the one [encodeRowVal] makes of the
    names and the values of [props_], in the order of the map: both
    return the same bytes, or both fail. *)
Theorem update_encodes_like_encodeRowVal (st : State) (schema : Schema) :
  rowWriter_ st = Some (RowWriterV2_new schema) ->
  let l := map_to_list (props_ st) in
  exists r,
    encodeRowVal setValueAt schema (map fst l) (map snd l) = Some r
    /\ (encodeRow st).1 = match r with inr nVal => Some nVal | inl _ => None end.
Proof.
  intros Hw l. unfold encodeRow, encodeRowVal. rewrite Hw.
  change (map_to_list (props_ st)) with l. clearbody l.
  destruct (setNamed_setValues l (RowWriterV2_new schema)) as (r & Hnamed & Hr).
  assert (match map fst l with
          | [] => Some (setPositional setValueAt 0 (map snd l) (RowWriterV2_new schema))
          | _ :: _ => setNamed (map fst l) (map snd l) (RowWriterV2_new schema)
          end = Some (r, (setValues l (RowWriterV2_new schema)).2)) as ->.
  { destruct l as [|e rest]; [|exact Hnamed]. simpl in *. by simplify_eq. }
  simpl. destruct (setValues l (RowWriterV2_new schema)) as [ok w1]. simpl in *.
  rewrite Hr. destruct ok; [|eexists; split; reflexivity].
  destruct (finish w1) as [fRet w2].
  destruct (succeeded fRet); eexists; split; reflexivity.
Qed.

(** X16. With names given and at least as many values as names,
    [encodeRowVal] never reads [props] past its end, and the values beyond
    the last name are not used. *)
Theorem encodeRowVal_reads_one_value_per_name (schema : Schema) (propNames : list string)
    (props : list Value) :
  propNames <> [] ->
  (length propNames <= length props)%nat ->
  is_Some (encodeRowVal setValueAt schema propNames props)
  /\ encodeRowVal setValueAt schema propNames (take (length propNames) props)
     = encodeRowVal setValueAt schema propNames props.
Proof.
  intros Hne Hlen. unfold encodeRowVal.
  destruct propNames as [|name names]; [done|].
  destruct (setNamed_take (name :: names) props (RowWriterV2_new schema) Hlen)
    as [[[wRet w] Hsome] Htake].
  rewrite Htake, Hsome. simpl. split; [|done].
  destruct (succeeded wRet); [|by eexists].
  destruct (finish w) as [fRet w']. destruct (succeeded fRet); by eexists.
Qed.
End EncodeRowValFacts.

Module ResultVectorFacts.
Import BaseProcessor LookupProcessor.

Section Facts.
Variable partLeader : GraphSpaceID -> PartitionID -> ErrorCode + HostAddr.
Variable Plan : Type.
Variable go : Plan -> PartitionID -> ErrorCode * Plan.

Lemma pushResultCode_all c parts : forall codes,
  c <> SUCCEEDED ->
  fold_left (fun cs p => pushResultCode c p noHost cs) parts codes
  = codes ++ map (fun p => mkPartitionResult c p None) parts.
Proof.
  induction parts as [|p rest IH]; intros codes Hc; simpl.
  - by rewrite app_nil_r.
  - rewrite IH by done. unfold pushResultCode.
    apply succeeded_false in Hc. rewrite Hc. rewrite bool_decide_true by done.
    by rewrite <- app_assoc.
Qed.

(** X17. A request that is rejected before any partition is run (the
    check of the request fails, or no plan can be built) gets one entry
    per requested partition, in the order of the request and once for
    every repetition of a partition in it, all with the code of the
    rejection ([E_INDEX_NOT_FOUND] when there is no plan). *)
Theorem rejected_request_fails_every_part (spaceId : GraphSpaceID)
    (requestCheck : ErrorCode) (buildPlan : option Plan) (parts : list PartitionID) :
  (requestCheck <> SUCCEEDED ->
   process partLeader Plan go spaceId requestCheck buildPlan parts
   = map (fun p => mkPartitionResult requestCheck p None) parts)
  /\ (requestCheck = SUCCEEDED -> buildPlan = None ->
      process partLeader Plan go spaceId requestCheck buildPlan parts
      = map (fun p => mkPartitionResult E_INDEX_NOT_FOUND p None) parts).
Proof.
  unfold process. split.
  - intros Hc. apply succeeded_false in Hc as Hs. rewrite Hs. simpl.
    by rewrite pushResultCode_all.
  - intros -> ->. simpl. by rewrite pushResultCode_all.
Qed.

Lemma handleErrorCode_failures (Q : PartitionID -> Prop) c s p codes :
  Q p ->
  Forall (fun r => code r <> SUCCEEDED /\ Q (part_id r)) codes ->
  Forall (fun r => code r <> SUCCEEDED /\ Q (part_id r))
    (handleErrorCode partLeader c s p codes).
Proof.
  intros Hp Hcodes. unfold handleErrorCode, handleLeaderChanged, pushResultCode.
  destruct (succeeded c) eqn:Hc; [done|]. apply succeeded_false in Hc.
  case_bool_decide.
  - destruct (partLeader s p) as [err|ldr]; simpl.
    + destruct (succeeded err) eqn:Herr; [done|]. apply succeeded_false in Herr.
      apply Forall_app. split; [done|]. by repeat constructor.
    + apply Forall_app. split; [done|]. by repeat constructor.
  - apply Forall_app. split; [done|]. by repeat constructor.
Qed.

Lemma processParts_failures (Q : PartitionID -> Prop) spaceId parts :
  forall plan failedParts codes,
  (forall p, p ∈ parts -> Q p) ->
  Forall (fun r => code r <> SUCCEEDED /\ Q (part_id r)) codes ->
  Forall (fun r => code r <> SUCCEEDED /\ Q (part_id r))
    (processParts partLeader Plan go spaceId parts plan failedParts codes).
Proof.
  induction parts as [|p rest IH]; intros plan failedParts codes HQ Hcodes; simpl; [done|].
  assert (forall q, q ∈ rest -> Q q) as HQ' by (intros q Hq; by apply HQ, list_elem_of_further).
  destruct (go plan p) as [ret plan'].
  destruct (succeeded ret); [by apply IH|].
  case_bool_decide; [by apply IH|].
  apply IH; [done|]. apply handleErrorCode_failures; [|done].
  apply HQ, list_elem_of_here.
Qed.

(** X18. The result vector of [LookupProcessor::process] never holds an
    entry with the code [SUCCEEDED], and every entry is for a partition
    of the request. *)
Theorem result_vector_holds_failures_only (spaceId : GraphSpaceID)
    (requestCheck : ErrorCode) (buildPlan : option Plan) (parts : list PartitionID)
    (r : PartitionResult) :
  r ∈ process partLeader Plan go spaceId requestCheck buildPlan parts ->
  code r <> SUCCEEDED /\ part_id r ∈ parts.
Proof.
  unfold process. intros Hr.
  destruct (succeeded requestCheck) eqn:Hc; simpl in Hr.
  - destruct buildPlan as [plan|].
    + pose proof (processParts_failures (fun p => p ∈ parts) spaceId parts plan ∅ []
                    (fun p Hp => Hp) (Forall_nil_2 _)) as Hall.
      rewrite Forall_forall in Hall. by apply Hall.
    + rewrite pushResultCode_all in Hr by done.
      apply list_elem_of_fmap in Hr as (p & -> & Hp). done.
  - apply succeeded_false in Hc.
    rewrite pushResultCode_all in Hr by done.
    apply list_elem_of_fmap in Hr as (p & -> & Hp). done.
Qed.

(** X19. [handleErrorCode] adds nothing for [SUCCEEDED] and one entry with
    the code and no leader for any other code but [E_LEADER_CHANGED];
    for [E_LEADER_CHANGED] the entry names the leader the store gives,
    unless it is the empty host [noHost], and when the store cannot give the
    leader, the entry carries the code of that failure instead. *)
Theorem leader_change_names_the_leader (c : ErrorCode) (spaceId : GraphSpaceID)
    (partId : PartitionID) (codes : list PartitionResult) :
  (c = SUCCEEDED -> handleErrorCode partLeader c spaceId partId codes = codes)
  /\ (c <> SUCCEEDED -> c <> E_LEADER_CHANGED ->
      handleErrorCode partLeader c spaceId partId codes
      = codes ++ [mkPartitionResult c partId None])
  /\ (c = E_LEADER_CHANGED ->
      forall ldr, partLeader spaceId partId = inr ldr ->
      handleErrorCode partLeader c spaceId partId codes
      = codes ++ [mkPartitionResult E_LEADER_CHANGED partId
                    (if bool_decide (ldr = noHost) then None else Some ldr)])
  /\ (c = E_LEADER_CHANGED ->
      forall err, partLeader spaceId partId = inl err ->
      handleErrorCode partLeader c spaceId partId codes
      = if bool_decide (err = SUCCEEDED) then codes
        else codes ++ [mkPartitionResult err partId None]).
Proof.
  unfold handleErrorCode, handleLeaderChanged, pushResultCode, succeeded.
  repeat split.
  - by intros ->.
  - intros Hc Hl. repeat case_bool_decide; done.
  - intros -> ldr ->. simpl. done.
  - intros -> err ->. simpl. repeat case_bool_decide; done.
Qed.
End Facts.
End ResultVectorFacts.

Module MetaFacts.
Import Meta.

Section DropEdge.
Variable Index FTIndex : Type.
Variable doGet : string -> ErrorCode + string.
Variable doPrefix : string -> ErrorCode + list (string * string).
Variable getIndexes : GraphSpaceID -> EdgeType -> ErrorCode + list Index.
Variable getFTIndex : GraphSpaceID -> EdgeType -> ErrorCode + FTIndex.
Variable indexEdgeKey : GraphSpaceID -> string -> string.
Variable schemaEdgePrefix : GraphSpaceID -> EdgeType -> string.
Variable CHECK_SPACE_ID_AND_RETURN : GraphSpaceID -> option (list Call).
Variable edgeTypeOf : string -> EdgeType.

Local Abbreviation process :=
  (DropEdgeProcessor_process Index FTIndex doGet doPrefix getIndexes getFTIndex
     indexEdgeKey schemaEdgePrefix CHECK_SPACE_ID_AND_RETURN edgeTypeOf).

Lemma fail_no_write c call :
  call ∈ fail c -> call = HandleErrorCode c \/ call = OnFinished.
Proof.
  unfold fail. intros [->|[->|Hnil%elem_of_nil]%elem_of_cons]%elem_of_cons; auto. done.
Qed.

(** X20. When the macro that checks the space id does not return,
    [DropEdgeProcessor::process] removes keys in exactly one case: the
    name of the edge is known, the edge has no index, the look-up of a
    full-text index fails with [E_META_FULLTEXT_INDEX_NOT_FOUND], and
    the versions of the schema can be listed.  It then sets the id of
    the response and removes every version of the schema and, last, the
    name of the edge, in one call.  When the macro returns, the
    processor does nothing but what the macro did. *)
Theorem edge_is_dropped_only_when_nothing_indexes_it (spaceId : GraphSpaceID)
    (edgeName : string) (if_exists : bool) :
  let indexKey := indexEdgeKey spaceId edgeName in
  (forall keys,
      CHECK_SPACE_ID_AND_RETURN spaceId = None ->
      DoSyncMultiRemoveAndUpdate keys ∈ process spaceId edgeName if_exists ->
      exists v iter,
        doGet indexKey = inr v
        /\ getIndexes spaceId (edgeTypeOf v) = inr []
        /\ getFTIndex spaceId (edgeTypeOf v) = inl E_META_FULLTEXT_INDEX_NOT_FOUND
        /\ doPrefix (schemaEdgePrefix spaceId (edgeTypeOf v)) = inr iter
        /\ keys = map fst iter ++ [indexKey])
  /\ (forall v iter,
        CHECK_SPACE_ID_AND_RETURN spaceId = None ->
        doGet indexKey = inr v ->
        getIndexes spaceId (edgeTypeOf v) = inr [] ->
        getFTIndex spaceId (edgeTypeOf v) = inl E_META_FULLTEXT_INDEX_NOT_FOUND ->
        doPrefix (schemaEdgePrefix spaceId (edgeTypeOf v)) = inr iter ->
        process spaceId edgeName if_exists
        = [SetId (edgeTypeOf v); DoSyncMultiRemoveAndUpdate (map fst iter ++ [indexKey])])
  /\ (forall calls,
        CHECK_SPACE_ID_AND_RETURN spaceId = Some calls ->
        process spaceId edgeName if_exists = calls).
Proof.
  intros indexKey. subst indexKey. split; [|split].
  - intros keys Hs. unfold DropEdgeProcessor_process, getEdgeKeys. rewrite Hs.
    destruct (doGet _) as [err|v] eqn:Hg; [by intros [?|?]%fail_no_write|].
    intros [?|Hin]%elem_of_cons; [done|]. revert Hin.
    destruct (getIndexes _ _) as [err|[|index indexes]] eqn:Hi;
      [by intros [?|?]%fail_no_write| |by intros [?|?]%fail_no_write].
    destruct (getFTIndex _ _) as [ftErr|fti] eqn:Hf; [|by intros [?|?]%fail_no_write].
    case_bool_decide as Hft; simpl; [|by intros [?|?]%fail_no_write]. subst ftErr.
    destruct (doPrefix _) as [err|iter] eqn:Hp; [by intros [?|?]%fail_no_write|].
    intros [[= Hk]|Hnil%elem_of_nil]%elem_of_cons; [|done].
    by exists v, iter.
  - intros v iter Hs Hget Hidx Hft Hpre. unfold DropEdgeProcessor_process, getEdgeKeys.
    rewrite Hs, Hget, Hidx, Hft, Hpre. simpl. done.
  - intros calls Hs. unfold DropEdgeProcessor_process. by rewrite Hs.
Qed.

(** X21. When the macro that checks the space id does not return,
    dropping an edge whose name is not stored reports [SUCCEEDED] with
    [if_exists] and [E_META_SCHEMA_EDGE_NOT_FOUND] without it, and does
    nothing else; and when no collaborator fails with the code
    [SUCCEEDED], that is the only case in which the processor hands
    [SUCCEEDED] to [handleErrorCode].  When the macro returns, the
    processor does nothing but what the macro did, also with
    [if_exists]. *)
Theorem drop_of_a_missing_edge (spaceId : GraphSpaceID) (edgeName : string)
    (if_exists : bool) :
  (forall k, doGet k <> inl SUCCEEDED) ->
  (forall s t, getIndexes s t <> inl SUCCEEDED) ->
  (forall s t, getFTIndex s t <> inl SUCCEEDED) ->
  (forall k, doPrefix k <> inl SUCCEEDED) ->
  let indexKey := indexEdgeKey spaceId edgeName in
  (CHECK_SPACE_ID_AND_RETURN spaceId = None ->
   doGet indexKey = inl E_STORAGE_KVSTORE_KEY_NOT_FOUND ->
   process spaceId edgeName if_exists
   = fail (if if_exists then SUCCEEDED else E_META_SCHEMA_EDGE_NOT_FOUND))
  /\ (CHECK_SPACE_ID_AND_RETURN spaceId = None ->
      HandleErrorCode SUCCEEDED ∈ process spaceId edgeName if_exists ->
      doGet indexKey = inl E_STORAGE_KVSTORE_KEY_NOT_FOUND /\ if_exists = true)
  /\ (forall calls,
        CHECK_SPACE_ID_AND_RETURN spaceId = Some calls ->
        process spaceId edgeName if_exists = calls).
Proof.
  intros Hget Hidx Hfti Hpre indexKey. subst indexKey. split; [|split].
  - intros Hs Hmiss. unfold DropEdgeProcessor_process. rewrite Hs, Hmiss. done.
  - intros Hs. unfold DropEdgeProcessor_process, getEdgeKeys. rewrite Hs.
    destruct (doGet _) as [err|v] eqn:Hg.
    + intros [[= Hc]|?]%fail_no_write; [|done]. revert Hc.
      case_bool_decide as Hk; [subst err|].
      * by destruct if_exists.
      * intros <-. by destruct (Hget _ Hg).
    + intros [?|Hin]%elem_of_cons; [done|]. revert Hin.
      destruct (getIndexes _ _) as [err|[|index indexes]] eqn:Hi.
      * intros [[= <-]|?]%fail_no_write; [|done]. by destruct (Hidx _ _ Hi).
      * destruct (getFTIndex _ _) as [ftErr|fti] eqn:Hf; [|by intros [?|?]%fail_no_write].
        case_bool_decide as Hft; simpl.
        -- subst ftErr. destruct (doPrefix _) as [err|iter] eqn:Hp.
           ++ intros [[= <-]|?]%fail_no_write; [|done]. by destruct (Hpre _ Hp).
           ++ intros [?|Hnil%elem_of_nil]%elem_of_cons; done.
        -- intros [[= <-]|?]%fail_no_write; [|done]. by destruct (Hfti _ _ Hf).
      * by intros [?|?]%fail_no_write.
  - intros calls Hs. unfold DropEdgeProcessor_process. by rewrite Hs.
Qed.
End DropEdge.
End MetaFacts.

Module MetaAlterFacts.
Import Meta.

Section AlterEdge.
Variable Index FTIndex : Type.
Variable doPrefix : string -> ErrorCode + list (string * string).
Variable getIndexes : GraphSpaceID -> EdgeType -> ErrorCode + list Index.
Variable getFTIndex : GraphSpaceID -> EdgeType -> ErrorCode + FTIndex.
Variable schemaEdgePrefix : GraphSpaceID -> EdgeType -> string.
Variable CHECK_SPACE_ID_AND_RETURN : GraphSpaceID -> option (list Call).
Variable Column AlterOp : Type.
Variable getEdgeType : GraphSpaceID -> string -> ErrorCode + EdgeType.
Variable parseEdgeVersion : string -> Z.
Variable parseSchema : string -> Schema Column.
Variable indexCheck : list Index -> list (AlterSchemaItem Column AlterOp) -> ErrorCode.
Variable FTIndex_fields : FTIndex -> list string.
Variable ftIndexCheck : list string -> list (AlterSchemaItem Column AlterOp) -> ErrorCode.
Variable alterColumnDefs :
  list Column -> SchemaProp -> Column -> AlterOp -> bool
  -> ErrorCode * list Column * SchemaProp.
Variable checkType : list Column -> bool * list Column.
Variable alterSchemaProp :
  list Column -> SchemaProp -> SchemaProp -> bool -> bool
  -> ErrorCode * list Column * SchemaProp.
Variable schemaEdgeKey : GraphSpaceID -> EdgeType -> Z -> string.
Variable schemaVal : string -> Schema Column -> string.

Local Abbreviation process :=
  (AlterEdgeProcessor_process Index FTIndex doPrefix getIndexes getFTIndex
     schemaEdgePrefix CHECK_SPACE_ID_AND_RETURN Column AlterOp getEdgeType
     parseEdgeVersion parseSchema
     indexCheck FTIndex_fields ftIndexCheck alterColumnDefs checkType
     alterSchemaProp schemaEdgeKey schemaVal).
Local Abbreviation alterAndPut' :=
  (alterAndPut Column AlterOp alterColumnDefs checkType alterSchemaProp
     schemaEdgeKey schemaVal).
Local Abbreviation alterItems' := (alterItems Column AlterOp alterColumnDefs).

Lemma fail_is_no_put c data : DoSyncPutAndUpdate data ∉ fail c.
Proof.
  unfold fail. intros [?|[?|Hnil%elem_of_nil]%elem_of_cons]%elem_of_cons; done.
Qed.

(** Within the range of a 64-bit integer nothing wraps. *)
Lemma int64_in_range z : - 2 ^ 63 <= z < 2 ^ 63 -> int64 z = z.
Proof.
  intros Hz. unfold int64.
  rewrite Z.mod_small by lia. lia.
Qed.

Lemma alterAndPut_put spaceId edgeName edgeType version schema existIndex
    edgeItems alterProp data :
  DoSyncPutAndUpdate data ∈
    alterAndPut' spaceId edgeName edgeType version schema existIndex edgeItems alterProp ->
  exists columns1 prop1 columns2 columns3 prop3,
    alterItems' edgeItems (columns Column schema) (schema_prop Column schema)
    = (SUCCEEDED, columns1, prop1)
    /\ checkType columns1 = (true, columns2)
    /\ alterSchemaProp columns2 prop1 alterProp existIndex true
       = (SUCCEEDED, columns3, prop3)
    /\ data = [(schemaEdgeKey spaceId edgeType version,
                schemaVal edgeName (mkSchema Column columns3 prop3))]
    /\ alterAndPut' spaceId edgeName edgeType version schema existIndex edgeItems alterProp
       = [SetId edgeType; DoSyncPutAndUpdate data].
Proof.
  unfold alterAndPut.
  destruct (alterItems _ _ _ _ _ _) as [[retCode columns1] prop1] eqn:Ha.
  case_bool_decide as Hc; simpl; [subst retCode|by intros ?%fail_is_no_put].
  destruct (checkType columns1) as [[] columns2] eqn:Hty; simpl; [|by intros ?%fail_is_no_put].
  destruct (alterSchemaProp _ _ _ _ _) as [[retCode columns3] prop3] eqn:Hsp.
  case_bool_decide as Hc; simpl; [subst retCode|by intros ?%fail_is_no_put].
  intros [?|[[= Hd]|Hnil%elem_of_nil]%elem_of_cons]%elem_of_cons; [done| |done].
  exists columns1, prop1, columns2, columns3, prop3. subst data. done.
Qed.

(** X22. When the macro that checks the space id does not return,
    [AlterEdgeProcessor::process] writes only when every step has
    succeeded, and then it writes one pair: the key of the version after
    the latest stored one (the first entry of the prefix scan), as a
    64-bit integer, holding the schema with the altered columns and
    property; the call comes after the id of the response is set, and
    no error is reported.  The version is the latest one plus one
    unless the latest one is the greatest 64-bit integer. *)
Theorem altered_edge_is_written_as_the_next_version (spaceId : GraphSpaceID)
    (edgeName : string) (edgeItems : list (AlterSchemaItem Column AlterOp))
    (alterProp : SchemaProp) (data : list (string * string)) :
  CHECK_SPACE_ID_AND_RETURN spaceId = None ->
  DoSyncPutAndUpdate data ∈ process spaceId edgeName edgeItems alterProp ->
  exists edgeType key val rest columns1 prop1 columns2 columns3 prop3,
    getEdgeType spaceId edgeName = inr edgeType
    /\ doPrefix (schemaEdgePrefix spaceId edgeType) = inr ((key, val) :: rest)
    /\ alterItems' edgeItems (columns Column (parseSchema val))
         (schema_prop Column (parseSchema val)) = (SUCCEEDED, columns1, prop1)
    /\ checkType columns1 = (true, columns2)
    /\ (exists indexes,
          getIndexes spaceId edgeType = inr indexes
          /\ alterSchemaProp columns2 prop1 alterProp
               (match indexes with [] => false | _ :: _ => true end) true
             = (SUCCEEDED, columns3, prop3))
    /\ data = [(schemaEdgeKey spaceId edgeType (int64 (parseEdgeVersion key + 1)),
                schemaVal edgeName (mkSchema Column columns3 prop3))]
    /\ (- 2 ^ 63 <= parseEdgeVersion key < 2 ^ 63 - 1 ->
        int64 (parseEdgeVersion key + 1) = parseEdgeVersion key + 1)
    /\ process spaceId edgeName edgeItems alterProp
       = [SetId edgeType; DoSyncPutAndUpdate data].
Proof.
  intros Hs. unfold AlterEdgeProcessor_process. rewrite Hs.
  destruct (getEdgeType _ _) as [err|edgeType] eqn:Ht; [by intros ?%fail_is_no_put|].
  destruct (doPrefix _) as [err|[|[key val] rest]] eqn:Hp;
    [by intros ?%fail_is_no_put|by intros ?%fail_is_no_put|].
  destruct (getIndexes _ _) as [err|indexes] eqn:Hg; [by intros ?%fail_is_no_put|].
  case_bool_decide as Hi; simpl; [|by intros ?%fail_is_no_put].
  destruct (_ && setsTtl alterProp); [by intros ?%fail_is_no_put|].
  destruct (getFTIndex _ _) as [ftErr|fti];
    (case_bool_decide; simpl; [|by intros ?%fail_is_no_put]);
    intros Hin;
    destruct (alterAndPut_put _ _ _ _ _ _ _ _ _ Hin)
      as (columns1 & prop1 & columns2 & columns3 & prop3 & H1 & H2 & H3 & H4 & H5);
    exists edgeType, key, val, rest, columns1, prop1, columns2, columns3, prop3;
    (split; [done|]); (split; [done|]); (split; [done|]);
    (split; [done|]); (split; [by exists indexes|]); (split; [done|]);
    (split; [intros Hv; apply int64_in_range; lia|done]).
Qed.

(** X23. On an edge that has an index, a request that sets a TTL (a TTL
    column and a positive duration) writes nothing: when the macro that
    checks the space id does not return, the request fails with the code
    of the index check if that check fails, and with
    [E_META_SCHEMA_CHANGE_FORBIDDEN_WHEN_HAS_TTL] otherwise; when the
    macro returns, the processor does nothing but what the macro did. *)
Theorem ttl_on_an_indexed_edge_is_refused (spaceId : GraphSpaceID)
    (edgeName : string) (edgeItems : list (AlterSchemaItem Column AlterOp))
    (alterProp : SchemaProp) (edgeType : EdgeType) (kv : string * string)
    (rest : list (string * string)) (index : Index) (indexes : list Index) :
  getEdgeType spaceId edgeName = inr edgeType ->
  doPrefix (schemaEdgePrefix spaceId edgeType) = inr (kv :: rest) ->
  getIndexes spaceId edgeType = inr (index :: indexes) ->
  setsTtl alterProp = true ->
  process spaceId edgeName edgeItems alterProp
  = match CHECK_SPACE_ID_AND_RETURN spaceId with
    | Some calls => calls
    | None =>
        fail (if bool_decide (indexCheck (index :: indexes) edgeItems = SUCCEEDED)
              then E_META_SCHEMA_CHANGE_FORBIDDEN_WHEN_HAS_TTL
              else indexCheck (index :: indexes) edgeItems)
    end.
Proof.
  intros Ht Hp Hi Httl. unfold AlterEdgeProcessor_process.
  destruct (CHECK_SPACE_ID_AND_RETURN spaceId) as [calls|]; [done|].
  rewrite Ht, Hp, Hi. destruct kv as [key val]. simpl.
  case_bool_decide; simpl; [|done]. by rewrite Httl.
Qed.
End AlterEdge.
End MetaAlterFacts.

(** * The scenarios as instances of the properties *)

Import Ref Scenario MoreScenarios.

Lemma world_unlocked x : ~ lockHeld x 1 world.
Proof. destruct x; simpl; apply not_elem_of_empty. Qed.

Lemma ready_birthday iState : readyToWrite (birthday iState) 1 fresh world (collected iState).
Proof.
  unfold readyToWrite. split; [apply world_unlocked|].
  split; [exact I|]. split; [exact I|].
  split; [destruct iState; vm_compute; reflexivity|].
  split; [destruct iState; vm_compute; reflexivity|].
  unfold collected.
  destruct (collectOf (birthday iState) 1 fresh world) as [ret st4] eqn:Hcollect.
  simpl. f_equal. change ret with (ret, st4).1. rewrite <- Hcollect.
  destruct iState; vm_compute; reflexivity.
Qed.


Lemma process_deduplicates_failures_witness :
  (forall s p, leaderIsHost1 s p <> inl SUCCEEDED)
  /\ map BaseProcessor.part_id
       (LookupProcessor.process leaderIsHost1 unit failsOn2 1 SUCCEEDED (Some tt) [1; 2; 2; 3])
     = [2].
Proof.
  assert (forall s p, leaderIsHost1 s p <> inl SUCCEEDED) as Hleader by (intros s p; discriminate).
  split; [exact Hleader|].
  pose proof (LookupProcessorFacts.process_deduplicates_failures
                leaderIsHost1 unit failsOn2 1 [1; 2; 2; 3] tt Hleader) as [Hnodup _].
  vm_compute. reflexivity.
Defined.

Lemma lock_conflict_witness :
  let w := set_verticesML_ {[ (1, 1, 10, alice) ]} world in
  lockHeld (birthday Normal) 1 w
  /\ exists w',
       runExecutor (birthday Normal) 1 fresh w = (E_STORAGE_QUERY_CONCURRENT_MODIFY, fresh, w')
       /\ kvstore_ w' = store.
Proof.
  intros w.
  assert (lockHeld (birthday Normal) 1 w) as Hheld by (simpl; apply elem_of_singleton; reflexivity).
  split; [exact Hheld|].
  destruct (lock_conflict_fails_at_once (birthday Normal) 1 fresh w Hheld)
    as (w' & Hrun & _ & Hkv & _).
  exists w'. split; [exact Hrun|exact Hkv].
Defined.

Lemma collected_birthday iState :
  propsCollected (birthday iState) 1 fresh world (collected iState).
Proof. by apply readyToWrite_collected, ready_birthday. Qed.

Lemma filtered_out_witness :
  RelNode_resultStat (dependenciesOf filtered 1 fresh world) = FILTER_OUT
  /\ (exists st' w',
        runExecutor filtered 1 fresh world = (E_STORAGE_QUERY_FILTER_NOT_PASSED, st', w')
        /\ kvstore_ w' = store)
  /\ UpdateResNode.execute [personProp "age"] (runExecutor filtered 1 fresh world)
       (UpdateResNode.mkDataSet [] [])
     = (E_STORAGE_QUERY_FILTER_NOT_PASSED,
        UpdateResNode.mkDataSet ["_inserted"; "person.age"] [[VBool false; VInt 30]]).
Proof.
  assert (RelNode_resultStat (dependenciesOf filtered 1 fresh world) = FILTER_OUT) as Hstat
    by (vm_compute; reflexivity).
  assert (RelNode_ret (dependenciesOf filtered 1 fresh world) = SUCCEEDED) as Hret
    by (vm_compute; reflexivity).
  split; [exact Hstat|].
  destruct (filtered_out_update filtered 1 fresh world [personProp "age"]
              (UpdateResNode.mkDataSet [] []) (world_unlocked _) I Hret Hstat eq_refl)
    as ([st' Hstop] & Hres & _).
  split.
  - destruct (stopsWith_by_itself filtered 1 fresh world _ st' I Hstop)
      as (w' & Hrun & _ & Hkv).
    by exists st', w'.
  - rewrite (Hres I). vm_compute. reflexivity.
Defined.

(** C7 as the specification words it fails on an edge whose space has the
    transaction manager enabled.  The filter on [since] does not pass,
    but what the executor returns is the reply of the manager: with a
    future that holds no value it is [E_UNKNOWN], and the node of the
    yielded columns, which takes that code for a failure, returns no
    row.  The executor reports the filter only if the manager itself
    replies [E_STORAGE_QUERY_FILTER_NOT_PASSED]. *)
Lemma filtered_edge_under_the_manager :
  RelNode_resultStat (dependenciesOf (under (replies None) filteredEdge) 1 fresh world)
  = FILTER_OUT
  /\ (runExecutor (under (replies None) filteredEdge) 1 fresh world).1.1 = E_UNKNOWN
  /\ UpdateResNode.execute [knowsProp "since"]
       (runExecutor (under (replies None) filteredEdge) 1 fresh world)
       (UpdateResNode.mkDataSet [] [])
     = (E_UNKNOWN, UpdateResNode.mkDataSet [] [])
  /\ (forall reply,
        reply <> Some E_STORAGE_QUERY_FILTER_NOT_PASSED ->
        (runExecutor (under (replies reply) filteredEdge) 1 fresh world).1.1
        <> E_STORAGE_QUERY_FILTER_NOT_PASSED).
Proof.
  split; [vm_compute; reflexivity|].
  split; [vm_compute; reflexivity|].
  split; [vm_compute; reflexivity|].
  intros reply Hreply.
  assert ((runExecutor (under (replies reply) filteredEdge) 1 fresh world).1.1
          = match reply with Some code => code | None => E_UNKNOWN end) as ->
    by (vm_compute; reflexivity).
  destruct reply as [code|]; [congruence|discriminate].
Qed.

Lemma edge_type_mismatch_witness :
  let ek := mkEdgeKey alice (-20) 0 bob in
  EdgeKey_edge_type ek <> 20
  /\ (exists st' w',
        runExecutor (since6 false ek) 1 fresh world
        = (E_STORAGE_KVSTORE_KEY_NOT_FOUND, st', w')
        /\ kvstore_ w' = store)
  /\ (exists ret st' w',
        runExecutor (since6 true ek) 1 fresh world = (ret, st', w')
        /\ exeResult_ st' = E_STORAGE_KVSTORE_KEY_NOT_FOUND
        /\ events w' = [RunDependencies 1; UpdateEdgeAtomic 1 1 ek None]).
Proof.
  intros ek.
  assert (EdgeKey_edge_type ek <> 20) as Hne by (simpl; lia).
  split; [exact Hne|].
  split.
  - destruct (edge_type_mismatch_is_key_not_found (E:=engine) (C:=codec) (U:=keys)
                (node Normal false [sinceIndex] true [("since", int 6)] false)
                (edgeFilterNode 1 8 "knows" None) edgeContext 1 ek fresh world
                (world_unlocked (since6 false ek)) eq_refl Hne)
      as (st' & _ & _ & Hstop).
    destruct (stopsWith_by_itself (since6 false ek) 1 fresh world _ st' eq_refl Hstop)
      as (w' & Hrun & _ & Hkv).
    by exists st', w'.
  - destruct (edge_type_mismatch_is_key_not_found (E:=engine) (C:=codec) (U:=keys)
                (node Normal true [sinceIndex] true [("since", int 6)] false)
                (edgeFilterNode 1 8 "knows" None) edgeContext 1 ek fresh world
                (world_unlocked (since6 true ek)) eq_refl Hne)
      as (st' & _ & _ & Hstop).
    destruct (stopsWith_through_manager (E:=engine) (C:=codec) (U:=keys)
                (node Normal true [sinceIndex] true [("since", int 6)] false)
                (edgeFilterNode 1 8 "knows" None) edgeContext ek 1 fresh world throughKV
                _ st' eq_refl Hstop)
      as (Hcode & ret & w' & Hrun & _ & _ & Hev).
    by exists ret, st', w'.
Defined.

(** C8 as the specification words it fails on an edge whose space has the
    transaction manager enabled.  The key is of the opposite edge type
    and the closure records [E_STORAGE_KVSTORE_KEY_NOT_FOUND], but what
    the executor returns is the reply of the manager: with a future
    that holds no value it is [E_UNKNOWN].  The executor returns
    [E_STORAGE_KVSTORE_KEY_NOT_FOUND] only if the manager itself replies
    that code. *)
Lemma mismatched_edge_under_the_manager :
  EdgeKey_edge_type (mkEdgeKey alice (-20) 0 bob) <> 20
  /\ (runExecutor (under (replies None) (since6 false (mkEdgeKey alice (-20) 0 bob)))
        1 fresh world).1.1 = E_UNKNOWN
  /\ (forall reply,
        reply <> Some E_STORAGE_KVSTORE_KEY_NOT_FOUND ->
        (runExecutor (under (replies reply) (since6 false (mkEdgeKey alice (-20) 0 bob)))
           1 fresh world).1.1
        <> E_STORAGE_KVSTORE_KEY_NOT_FOUND).
Proof.
  split; [simpl; lia|].
  split; [vm_compute; reflexivity|].
  intros reply Hreply.
  assert ((runExecutor (under (replies reply) (since6 false (mkEdgeKey alice (-20) 0 bob)))
             1 fresh world).1.1
          = match reply with Some code => code | None => E_UNKNOWN end) as ->
    by (vm_compute; reflexivity).
  destruct reply as [code|]; [congruence|discriminate].
Qed.

Lemma edge_schema_witness :
  let nd := node Normal false [sinceIndex] true [] false in
  latestByAbsoluteType edgeContext 20 = Some knows
  /\ nameBySignedType edgeContext 20 = Some "knows"
  /\ UpdateEdgeNode.getLatestEdgeSchemaAndName nd edgeContext fresh
     = (SUCCEEDED, set_edgeName_ "knows" (set_schema_ (Some knows) fresh))
  /\ latestByAbsoluteType edgeContext (-20) = latestByAbsoluteType edgeContext 20.
Proof.
  intros nd.
  assert (latestByAbsoluteType edgeContext 20 = Some knows) as Hs by reflexivity.
  assert (nameBySignedType edgeContext 20 = Some "knows") as Hn by (vm_compute; reflexivity).
  split; [exact Hs|]. split; [exact Hn|].
  destruct (edge_schema_by_absolute_type nd edgeContext fresh) as (Hhit & _ & Hopp).
  split.
  - exact (proj1 (Hhit knows "knows" Hs Hn)).
  - apply (Hopp (mkUpdateNode (mkPlanContext (env Normal false) 1 8 10 (-20))
                   [sinceIndex] [] false [] true)); [simpl; lia|reflexivity].
Defined.

Lemma updates_apply_in_order_witness :
  let st := set_props_ {[ "x" := VInt 7 ]}
              (set_expCtx_ (mkCtx None {[ ("person", "a") := VInt 5;
                                          ("person", "x") := VInt 7 ]}) fresh) in
  exists st',
    applyUpdatedProps setTagProp "person"
      [mkUpdatedProp "x" (encodeExpr (personProp "a"));
       mkUpdatedProp "y" (encodeExpr (ArithmeticAdd (personProp "x") (int 1)))] st
    = (true, st')
    /\ props_ st' !! "x" = Some (VInt 5)
    /\ props_ st' !! "y" = Some (VInt 6).
Proof.
  intros st.
  apply (proj2 updates_apply_in_order (setTagProp (ExprEngine:=engine)) st);
    [left; reflexivity|reflexivity|vm_compute; reflexivity].
Defined.

Lemma missing_bob insertable :
  let run := dependenciesOf (upsertBob insertable) 1 fresh world in
  RelNode_ret run = SUCCEEDED /\ RelNode_resultStat run = NORMAL
  /\ FilterNode_valid run = false.
Proof. destruct insertable; vm_compute; repeat split. Qed.

Lemma missing_namedBob :
  let run := dependenciesOf namedBob 1 fresh world in
  RelNode_ret run = SUCCEEDED /\ RelNode_resultStat run = NORMAL
  /\ FilterNode_valid run = false.
Proof. vm_compute; repeat split. Qed.

Lemma namedBob_batch :
  batchOfMutation namedBob 1 fresh world
    [OP_BATCH_PUT (vertexKey 8 1 bob 10) "Rname=Sb;age=N;"].
Proof.
  apply (updateAndWriteBackOf_batchOfMutation _ _ _ _ (collectOf namedBob 1 fresh world).2).
  - destruct (collectOf namedBob 1 fresh world) as [ret st4] eqn:Hcollect.
    simpl. f_equal. change ret with (ret, st4).1. rewrite <- Hcollect.
    vm_compute; reflexivity.
  - vm_compute; reflexivity.
Qed.

Lemma upsert_on_missing_row_witness :
  (exists st' w',
      runExecutor (upsertBob false) 1 fresh world
      = (E_STORAGE_KVSTORE_KEY_NOT_FOUND, st', w')
      /\ kvstore_ w' = store)
  /\ (exists st' w',
        runExecutor (upsertBob true) 1 fresh world
        = (E_STORAGE_SCHEMA_NO_DEFAULT_VALUE_AND_NOT_NULLABLE, st', w')
        /\ kvstore_ w' = store)
  /\ (exists batch nVal st2,
        batchOfMutation namedBob 1 fresh world batch
        /\ last batch = Some (OP_BATCH_PUT (key_ st2) nVal)
        /\ props_ st2 !! "age" = Some VNull).
Proof.
  split; [|split]; cycle 2.
  - destruct missing_namedBob as (Hret & Hstat & Hvalid).
    assert (reader_ fresh = None) as Hreader by reflexivity.
    assert (insertable_ (nodeOf namedBob) = true) as Hins by reflexivity.
    assert (schemaAndNameOf namedBob = Some (person, "person")) as Hschema
      by reflexivity.
    assert (NoDup (map Field_name person)) as Hnodup
      by (apply (bool_decide_unpack _); vm_compute; exact I).
    destruct (proj2 (upsert_on_missing_row namedBob 1 fresh world
                       (world_unlocked _) I Hret Hstat Hvalid Hreader) Hins
                person "person" Hschema Hnodup) as [Hrow _].
    destruct (Hrow _ namedBob_batch) as (st4 & nVal & st2 & _ & _ & Hlast & Hcols).
    exists [OP_BATCH_PUT (vertexKey 8 1 bob 10) "Rname=Sb;age=N;"], nVal, st2.
    split; [exact namedBob_batch|]. split; [exact Hlast|].
    destruct (Hcols (mkField "age" None true)) as [Hage _].
    + apply list_elem_of_further, list_elem_of_here.
    + split; simpl; by apply (bool_decide_unpack _).
    + exact Hage.
  - destruct (missing_bob false) as (Hret & Hstat & Hvalid).
    assert (reader_ fresh = None) as Hreader by reflexivity.
    assert (insertable_ (nodeOf (upsertBob false)) = false) as Hins by reflexivity.
    destruct (proj1 (upsert_on_missing_row (upsertBob false) 1 fresh world
                       (world_unlocked _) I Hret Hstat Hvalid Hreader) Hins)
      as (st' & Hstop).
    destruct (stopsWith_by_itself (upsertBob false) 1 fresh world _ st' I Hstop)
      as (w' & Hrun & _ & Hkv).
    exists st', w'. split; [exact Hrun|exact Hkv].
  - destruct (missing_bob true) as (Hret & Hstat & Hvalid).
    assert (reader_ fresh = None) as Hreader by reflexivity.
    assert (insertable_ (nodeOf (upsertBob true)) = true) as Hins by reflexivity.
    assert (schemaAndNameOf (upsertBob true) = Some (person, "person")) as Hschema
      by reflexivity.
    assert (NoDup (map Field_name person)) as Hnodup
      by (apply (bool_decide_unpack _); vm_compute; exact I).
    destruct (proj2 (upsert_on_missing_row (upsertBob true) 1 fresh world
                       (world_unlocked _) I Hret Hstat Hvalid Hreader) Hins
                person "person" Hschema Hnodup) as [_ Hmissing].
    destruct Hmissing as (st' & Hstop).
    + intros prop Hprop. simpl in Hprop. apply list_elem_of_singleton in Hprop. subst prop.
      split; [by eexists|]. intros p Hp. by apply elem_of_nil in Hp.
    + exists (mkField "name" None false). split; [apply list_elem_of_here|].
      split; [|done]. split; simpl; by apply (bool_decide_unpack _).
    + destruct (stopsWith_by_itself (upsertBob true) 1 fresh world _ st' I Hstop)
        as (w' & Hrun & _ & Hkv).
      exists st', w'. split; [exact Hrun|exact Hkv].
Defined.

(** C5 as the specification words it fails on an edge whose space has the
    transaction manager enabled.  That bob knows alice is not stored
    and the request is not insertable; the closure records
    [E_STORAGE_KVSTORE_KEY_NOT_FOUND], but what the executor returns is
    the reply of the manager: with a future that holds no value it is
    [E_UNKNOWN].  The executor returns [E_STORAGE_KVSTORE_KEY_NOT_FOUND]
    only if the manager itself replies that code. *)
Lemma missing_edge_under_the_manager :
  store !! (1, 1, edgeKey 8 1 bob 20 0 alice) = None
  /\ insertable_ (nodeOf (knowsSince6 Normal false bobKnowsAlice)) = false
  /\ (runExecutor (under (replies None) (knowsSince6 Normal false bobKnowsAlice))
        1 fresh world).1.1 = E_UNKNOWN
  /\ (forall reply,
        reply <> Some E_STORAGE_KVSTORE_KEY_NOT_FOUND ->
        (runExecutor (under (replies reply) (knowsSince6 Normal false bobKnowsAlice))
           1 fresh world).1.1
        <> E_STORAGE_KVSTORE_KEY_NOT_FOUND).
Proof.
  split; [vm_compute; reflexivity|].
  split; [reflexivity|].
  split; [vm_compute; reflexivity|].
  intros reply Hreply.
  assert ((runExecutor (under (replies reply) (knowsSince6 Normal false bobKnowsAlice))
             1 fresh world).1.1
          = match reply with Some code => code | None => E_UNKNOWN end) as ->
    by (vm_compute; reflexivity).
  destruct reply as [code|]; [congruence|discriminate].
Qed.





Lemma locked_index_witness :
  getIndexState (env Locked false) 1 1 = Locked
  /\ exists st' w',
       runExecutor (birthday Locked) 1 fresh world = (E_STORAGE_QUERY_INVALID_DATA, st', w')
       /\ events w' = [RunDependencies 1]
       /\ kvstore_ w' = store.
Proof.
  split; [reflexivity|].
  destruct (locked_index_aborts (birthday Locked) 1 fresh world (collected Locked) ageIndex
              (collected_birthday Locked) eq_refl) as (_ & st' & Hstop).
  - apply list_elem_of_here.
  - reflexivity.
  - left. split; [vm_compute; discriminate|].
    exists aliceReader. split; [reflexivity|vm_compute; discriminate].
  - destruct (stopsWith_by_itself (birthday Locked) 1 fresh world _ st' I Hstop)
      as (w' & Hrun & Hev & Hkv).
    exists st', w'. split; [exact Hrun|]. split; [exact Hev|exact Hkv].
Defined.

(** C2 as the specification words it fails in three ways.  With the
    index on [age] locked, the update of the age of alice is given up
    with [E_STORAGE_QUERY_INVALID_DATA], which is not the index-locked
    code.  The row of carol has an index too, but her age is null
    before and after she is renamed, no index key is built, the oracle
    is not asked, and the update is committed although the index is
    locked.  And on an edge whose space has the transaction manager
    enabled, what the executor returns with the index on [since] locked
    is the reply of the manager: [E_UNKNOWN] with a future that holds
    no value. *)
Lemma locked_index_returns_invalid_data :
  getIndexState (env Locked false) 1 1 = Locked
  /\ (runExecutor (birthday Locked) 1 fresh world).1.1 = E_STORAGE_QUERY_INVALID_DATA
  /\ (runExecutor (birthday Locked) 1 fresh world).1.1 <> E_INDEX_LOCKED
  /\ matchesOf (renameCarol Locked) ageIndex = true
  /\ (runExecutor (renameCarol Locked) 1 fresh withCarol).1.1 = SUCCEEDED
  /\ kvstore_ (runExecutor (renameCarol Locked) 1 fresh withCarol).2
       !! (1, 1, vertexKey 8 1 carol 10) = Some "Rname=Sd;age=N;"
  /\ (runExecutor (under (replies None) (knowsSince6 Locked false aliceKnowsBob))
        1 fresh world).1.1 = E_UNKNOWN.
Proof. vm_compute. repeat split. discriminate. Qed.



(** * The further scenarios as instances of the properties *)

Lemma failed_update_writes_nothing_witness :
  (runExecutor (birthday Locked) 1 fresh world).1.1 <> SUCCEEDED
  /\ kvstore_ (runExecutor (birthday Locked) 1 fresh world).2 = store.
Proof.
  assert ((runExecutor (birthday Locked) 1 fresh world).1.1 <> SUCCEEDED) as Hfail
    by (vm_compute; discriminate).
  split; [exact Hfail|].
  exact (failed_update_writes_nothing (birthday Locked) 1 fresh world
           (world_unlocked _) I Hfail).
Defined.

Lemma birthday_succeeds : (runExecutor (birthday Normal) 1 fresh world).1.1 = SUCCEEDED.
Proof. vm_compute; reflexivity. Qed.

Lemma succeeded_update_is_readable_witness :
  (runExecutor (birthday Normal) 1 fresh world).1.1 = SUCCEEDED
  /\ exists batch st4 nVal st2,
       batchOfMutation (birthday Normal) 1 fresh world batch
       /\ collectOf (birthday Normal) 1 fresh world = (SUCCEEDED, st4)
       /\ newRowOf (birthday Normal) st4 = Some (nVal, st2)
       /\ events (runExecutor (birthday Normal) 1 fresh world).2
          = [RunDependencies 1; AsyncAppendBatch 1 1 batch]
       /\ kvstore_ (runExecutor (birthday Normal) 1 fresh world).2
          = applyBatch 1 1 batch store
       /\ kvstore_ (runExecutor (birthday Normal) 1 fresh world).2 !! (1, 1, key_ st4)
          = Some nVal.
Proof.
  split; [exact birthday_succeeds|].
  exact (succeeded_update_is_readable (birthday Normal) 1 fresh world
           (world_unlocked _) I birthday_succeeds).
Defined.

Lemma index_entry_follows_the_row_witness :
  matchesOf (birthday Normal) ageIndex = true
  /\ (runExecutor (birthday Normal) 1 fresh world).1.1 = SUCCEEDED
  /\ exists st4 nVal st2 schema nr,
       collectOf (birthday Normal) 1 fresh world = (SUCCEEDED, st4)
       /\ newRowOf (birthday Normal) st4 = Some (nVal, st2)
       /\ schema_ st4 = Some schema
       /\ newReaderOf (birthday Normal) nVal = Some nr
       /\ let store' := kvstore_ (runExecutor (birthday Normal) 1 fresh world).2 in
          let ni := indexKeyOf (birthday Normal) 1 nr ageIndex in
          (ni <> EmptyString -> ni <> key_ st4 ->
           store' !! (1, 1, ni) = Some (indexValueOf schema nr))
          /\ (forall r,
                val_ st4 <> EmptyString -> reader_ st4 = Some r ->
                let oi := indexKeyOf (birthday Normal) 1 r ageIndex in
                oi <> EmptyString -> oi <> ni -> oi <> key_ st4 ->
                store' !! (1, 1, oi) = None).
Proof.
  assert (matchesOf (birthday Normal) ageIndex = true) as Hm by (vm_compute; reflexivity).
  split; [exact Hm|]. split; [exact birthday_succeeds|].
  exact (index_entry_follows_the_row (birthday Normal) 1 fresh world ageIndex
           (world_unlocked _) I eq_refl Hm eq_refl birthday_succeeds).
Defined.

Lemma birthday_batch :
  batchOfMutation (birthday Normal) 1 fresh world
    [OP_BATCH_REMOVE (vertexIndexKey 8 1 7 alice "I11110,");
     OP_BATCH_PUT (vertexIndexKey 8 1 7 alice "I11111,") EmptyString;
     OP_BATCH_PUT (vertexKey 8 1 alice 10) aliceRow31].
Proof.
  apply (updateAndWriteBackOf_batchOfMutation _ _ _ _ (collected Normal)).
  - apply ready_birthday.
  - vm_compute; reflexivity.
Qed.

Lemma batch_of_an_update_in_order_witness :
  let batch := [OP_BATCH_REMOVE (vertexIndexKey 8 1 7 alice "I11110,");
                OP_BATCH_PUT (vertexIndexKey 8 1 7 alice "I11111,") EmptyString;
                OP_BATCH_PUT (vertexKey 8 1 alice 10) aliceRow31] in
  batchOfMutation (birthday Normal) 1 fresh world batch
  /\ exists st4 nVal st2 schema,
       collectOf (birthday Normal) 1 fresh world = (SUCCEEDED, st4)
       /\ newRowOf (birthday Normal) st4 = Some (nVal, st2)
       /\ schema_ st2 = Some schema
       /\ batch
          = flat_map (indexOpsOf (indexKeyOf (birthday Normal) 1) (val_ st2) (reader_ st2)
                        (newReaderOf (birthday Normal) nVal) schema Normal 1)
              (List.filter (matchesOf (birthday Normal)) [ageIndex])
            ++ [OP_BATCH_PUT (key_ st2) nVal].
Proof.
  intros batch. split; [exact birthday_batch|].
  exact (batch_of_an_update_in_order (birthday Normal) 1 fresh world batch birthday_batch).
Defined.

Lemma failed_dependencies_stop_the_update_witness :
  RelNode_ret (dependenciesOf (birthday Normal) 1 fresh corrupt)
  = E_STORAGE_QUERY_INVALID_DATA
  /\ exists st' w',
       runExecutor (birthday Normal) 1 fresh corrupt
       = (E_STORAGE_QUERY_INVALID_DATA, st', w')
       /\ events w' = [RunDependencies 1]
       /\ kvstore_ w' = kvstore_ corrupt
       /\ props_ st' = props_ fresh
       /\ reader_ st' = reader_ fresh
       /\ insert_ st' = insert_ fresh.
Proof.
  assert (RelNode_ret (dependenciesOf (birthday Normal) 1 fresh corrupt)
          = E_STORAGE_QUERY_INVALID_DATA) as Hret by (vm_compute; reflexivity).
  split; [exact Hret|].
  destruct (failed_dependencies_stop_the_update (birthday Normal) 1 fresh corrupt)
    as (st' & Hstop & Hprops & Hreader & Hinsert).
  - simpl. apply not_elem_of_empty.
  - rewrite Hret. discriminate.
  - rewrite Hret in Hstop.
    destruct (stopsWith_by_itself (birthday Normal) 1 fresh corrupt _ st' I Hstop)
      as (w' & Hrun & Hev & Hkv).
    exists st', w'. split; [exact Hrun|]. split; [exact Hev|]. split; [exact Hkv|].
    split; [exact Hprops|]. split; [exact Hreader|exact Hinsert].
Defined.

Lemma illegal_data_stops_the_update_witness :
  RelNode_resultStat (dependenciesOf notABoolean 1 fresh world) = ILLEGAL_DATA
  /\ exists st' w',
       runExecutor notABoolean 1 fresh world = (E_STORAGE_QUERY_INVALID_DATA, st', w')
       /\ events w' = [RunDependencies 1]
       /\ kvstore_ w' = store
       /\ props_ st' = props_ fresh
       /\ reader_ st' = reader_ fresh
       /\ insert_ st' = insert_ fresh.
Proof.
  assert (RelNode_resultStat (dependenciesOf notABoolean 1 fresh world) = ILLEGAL_DATA)
    as Hstat by (vm_compute; reflexivity).
  split; [exact Hstat|].
  destruct (illegal_data_stops_the_update notABoolean 1 fresh world (world_unlocked _) I)
    as (st' & Hstop & Hprops & Hreader & Hinsert).
  - vm_compute; reflexivity.
  - exact Hstat.
  - destruct (stopsWith_by_itself notABoolean 1 fresh world _ st' I Hstop)
      as (w' & Hrun & Hev & Hkv).
    exists st', w'. split; [exact Hrun|]. split; [exact Hev|]. split; [exact Hkv|].
    split; [exact Hprops|]. split; [exact Hreader|exact Hinsert].
Defined.

Lemma collected_undecodable :
  propsCollected undecodable 1 fresh world (collectOf undecodable 1 fresh world).2.
Proof.
  unfold propsCollected. split; [apply world_unlocked|].
  split; [exact I|].
  split; [vm_compute; reflexivity|].
  split; [vm_compute; reflexivity|].
  destruct (collectOf undecodable 1 fresh world) as [ret st4] eqn:Hcollect.
  simpl. f_equal. change ret with (ret, st4).1. rewrite <- Hcollect.
  vm_compute; reflexivity.
Qed.

Lemma undecodable_update_commits_nothing_witness :
  Expression_decode "?" = None
  /\ exists st' w',
       runExecutor undecodable 1 fresh world = (E_STORAGE_QUERY_INVALID_DATA, st', w')
       /\ events w' = [RunDependencies 1]
       /\ kvstore_ w' = store.
Proof.
  assert (Expression_decode "?" = None) as Hdec by reflexivity.
  split; [exact Hdec|].
  destruct (undecodable_update_commits_nothing undecodable 1 fresh world
              (collectOf undecodable 1 fresh world).2 (mkUpdatedProp "age" "?")
              collected_undecodable) as (_ & st' & Hstop).
  - apply list_elem_of_here.
  - exact Hdec.
  - destruct (stopsWith_by_itself undecodable 1 fresh world _ st' I Hstop)
      as (w' & Hrun & Hev & Hkv).
    exists st', w'. split; [exact Hrun|]. split; [exact Hev|exact Hkv].
Defined.

Lemma unknown_schema_stops_the_update_witness :
  schemaAndNameOf unknownTag = None
  /\ is_Some (rowOf unknownTag 1 fresh world)
  /\ exists st' w',
       runExecutor unknownTag 1 fresh world = (E_STORAGE_SCHEMA_TAG_NOT_FOUND, st', w')
       /\ events w' = [RunDependencies 1]
       /\ kvstore_ w' = store.
Proof.
  assert (schemaAndNameOf unknownTag = None) as Hschema by reflexivity.
  assert (is_Some (rowOf unknownTag 1 fresh world)) as Hrow
    by (exists aliceReader; reflexivity).
  split; [exact Hschema|]. split; [exact Hrow|].
  destruct (unknown_schema_stops_the_update unknownTag 1 fresh world
              (world_unlocked _) I) as (st' & Hstop).
  - vm_compute; reflexivity.
  - vm_compute; reflexivity.
  - exact Hschema.
  - left; exact Hrow.
  - destruct (stopsWith_by_itself unknownTag 1 fresh world _ st' I Hstop)
      as (w' & Hrun & Hev & Hkv).
    exists st', w'. split; [exact Hrun|]. split; [exact Hev|exact Hkv].
Defined.

Lemma existing_row_is_read_witness :
  rowOf (birthday Normal) 1 fresh world = Some aliceReader
  /\ schemaAndNameOf (birthday Normal) = Some (person, "person")
  /\ exists st4,
       collectOf (birthday Normal) 1 fresh world = (SUCCEEDED, st4)
       /\ props_ st4 !! "name" = Some (VStr "a")
       /\ props_ st4 !! "age" = Some (VInt 30)
       /\ val_ st4 = aliceRow.
Proof.
  assert (rowOf (birthday Normal) 1 fresh world = Some aliceReader) as Hrow by reflexivity.
  assert (schemaAndNameOf (birthday Normal) = Some (person, "person")) as Hschema
    by reflexivity.
  split; [exact Hrow|]. split; [exact Hschema|].
  destruct (proj2 (existing_row_is_read_under_the_latest_schema (birthday Normal) 1
                     fresh world aliceReader person "person" Hrow Hschema))
    as (st4 & Hcollect & Hprops & _ & Hval & _).
  - intros f [->|[->|Hnil%elem_of_nil]%elem_of_cons]%elem_of_cons; [| |done];
      eexists; vm_compute; reflexivity.
  - exists st4. split; [exact Hcollect|].
    split; [exact (Hprops (mkField "name" None false) (list_elem_of_here _ _))|].
    split; [|exact Hval].
    exact (Hprops (mkField "age" None true)
             (list_elem_of_further _ _ _ (list_elem_of_here _ _))).
Defined.

Lemma yields_follow_the_update_witness :
  propsCollected (birthday Normal) 1 fresh world (collected Normal)
  /\ UpdateResNode.execute [personProp "age"] (runExecutor (birthday Normal) 1 fresh world)
       (UpdateResNode.mkDataSet [] [])
     = (SUCCEEDED,
        UpdateResNode.mkDataSet ["_inserted"; "person.age"] [[VBool false; VInt 31]]).
Proof.
  split; [exact (collected_birthday Normal)|].
  rewrite (proj1 (yields_follow_the_update (birthday Normal) 1 fresh world
                    [personProp "age"] (UpdateResNode.mkDataSet [] []))
             (collected Normal) (collected_birthday Normal) birthday_succeeds).
  vm_compute. reflexivity.
Defined.

Lemma onFinished_after_the_last_callback_witness :
  let p := BaseProcessorCalls.mkProcessor [] 2 0 in
  let q := BaseProcessorCalls.handleAsyncs leaderIsHost1 1
             [(1, SUCCEEDED); (2, E_LEADER_CHANGED)] p in
  BaseProcessorCalls.callingNum_ p = 2
  /\ BaseProcessorCalls.finished q = 1%nat
  /\ BaseProcessorCalls.finished
       (BaseProcessorCalls.handleAsyncs leaderIsHost1 1 [(1, SUCCEEDED)] p) = 0%nat
  /\ BaseProcessorCalls.codes_ q
     = [BaseProcessor.mkPartitionResult E_LEADER_CHANGED 2 (Some (mkHostAddr "host1" 9779))].
Proof.
  intros p q.
  destruct (BaseProcessorCallsFacts.onFinished_after_the_last_callback leaderIsHost1 1
              [(1, SUCCEEDED); (2, E_LEADER_CHANGED)] p eq_refl)
    as (Hfin & _ & Hbefore & Hcodes); [discriminate|].
  split; [reflexivity|]. split; [exact Hfin|].
  split; [exact (Hbefore [(1, SUCCEEDED)] [(2, E_LEADER_CHANGED)] eq_refl
                   ltac:(discriminate))|].
  subst q. rewrite Hcodes. vm_compute. reflexivity.
Defined.

Lemma update_encodes_like_encodeRowVal_witness :
  rowWriter_ (collected Normal) = Some (RowWriterV2_new person)
  /\ exists r,
       BaseProcessorCalls.encodeRowVal writerSetAt person
         (map fst (map_to_list (props_ (collected Normal))))
         (map snd (map_to_list (props_ (collected Normal)))) = Some r
       /\ (encodeRow (collected Normal)).1
          = match r with inr nVal => Some nVal | inl _ => None end.
Proof.
  assert (rowWriter_ (collected Normal) = Some (RowWriterV2_new person)) as Hw
    by reflexivity.
  split; [exact Hw|].
  exact (update_encodes_like_encodeRowVal writerSetAt (collected Normal) person Hw).
Defined.

Lemma encodeRowVal_reads_one_value_per_name_witness :
  (length ["since"] <= length [VInt 6; VInt 7])%nat
  /\ BaseProcessorCalls.encodeRowVal writerSetAt knows ["since"] [VInt 6; VInt 7]
     = BaseProcessorCalls.encodeRowVal writerSetAt knows ["since"] [VInt 6].
Proof.
  assert (length ["since"] <= length [VInt 6; VInt 7])%nat as Hlen by (simpl; lia).
  split; [exact Hlen|].
  symmetry.
  exact (proj2 (encodeRowVal_reads_one_value_per_name writerSetAt knows ["since"]
                  [VInt 6; VInt 7] ltac:(discriminate) Hlen)).
Defined.

Lemma result_vector_holds_failures_only_witness :
  let r := BaseProcessor.mkPartitionResult E_LEADER_CHANGED 2
             (Some (mkHostAddr "host1" 9779)) in
  r ∈ LookupProcessor.process leaderIsHost1 unit failsOn2 1 SUCCEEDED (Some tt) [1; 2; 2; 3]
  /\ BaseProcessor.code r <> SUCCEEDED
  /\ BaseProcessor.part_id r ∈ [1; 2; 2; 3].
Proof.
  intros r.
  assert (r ∈ LookupProcessor.process leaderIsHost1 unit failsOn2 1 SUCCEEDED (Some tt)
                [1; 2; 2; 3]) as Hin by (vm_compute; apply list_elem_of_here).
  split; [exact Hin|].
  exact (ResultVectorFacts.result_vector_holds_failures_only leaderIsHost1 unit failsOn2 1
           SUCCEEDED (Some tt) [1; 2; 2; 3] r Hin).
Defined.

Lemma drop_of_a_missing_edge_witness :
  (forall k, MetaScenario.doGet k <> inl Meta.SUCCEEDED)
  /\ MetaScenario.drop 1 "likes" false = Meta.fail Meta.E_META_SCHEMA_EDGE_NOT_FOUND
  /\ MetaScenario.drop 1 "likes" true = Meta.fail Meta.SUCCEEDED
  /\ MetaScenario.drop 2 "likes" true = Meta.fail (Meta.E_OTHER 1).
Proof.
  assert (forall k, MetaScenario.doGet k <> inl Meta.SUCCEEDED) as Hget
    by (intros k; unfold MetaScenario.doGet; case_bool_decide; discriminate).
  assert (forall k, MetaScenario.doPrefix k <> inl Meta.SUCCEEDED) as Hpre
    by (intros k; unfold MetaScenario.doPrefix; case_bool_decide; discriminate).
  assert (forall s t, MetaScenario.getIndexes [] s t <> inl Meta.SUCCEEDED) as Hidx
    by discriminate.
  assert (forall s t, MetaScenario.getFTIndex s t <> inl Meta.SUCCEEDED) as Hfti
    by discriminate.
  split; [exact Hget|].
  split; [|split].
  - exact (proj1 (MetaFacts.drop_of_a_missing_edge string unit MetaScenario.doGet
                    MetaScenario.doPrefix (MetaScenario.getIndexes [])
                    MetaScenario.getFTIndex MetaScenario.indexEdgeKey
                    MetaScenario.schemaEdgePrefix MetaScenario.CHECK_SPACE_ID_AND_RETURN
                    MetaScenario.edgeTypeOf 1 "likes" false Hget Hidx Hfti Hpre)
             eq_refl eq_refl).
  - exact (proj1 (MetaFacts.drop_of_a_missing_edge string unit MetaScenario.doGet
                    MetaScenario.doPrefix (MetaScenario.getIndexes [])
                    MetaScenario.getFTIndex MetaScenario.indexEdgeKey
                    MetaScenario.schemaEdgePrefix MetaScenario.CHECK_SPACE_ID_AND_RETURN
                    MetaScenario.edgeTypeOf 1 "likes" true Hget Hidx Hfti Hpre)
             eq_refl eq_refl).
  - exact (proj2 (proj2 (MetaFacts.drop_of_a_missing_edge string unit MetaScenario.doGet
                    MetaScenario.doPrefix (MetaScenario.getIndexes [])
                    MetaScenario.getFTIndex MetaScenario.indexEdgeKey
                    MetaScenario.schemaEdgePrefix MetaScenario.CHECK_SPACE_ID_AND_RETURN
                    MetaScenario.edgeTypeOf 2 "likes" true Hget Hidx Hfti Hpre))
             (Meta.fail (Meta.E_OTHER 1)) eq_refl).
Defined.

Lemma altered_edge_is_written_witness :
  let items := [Meta.mkAlterSchemaItem string bool true ["since2"]] in
  let noProp := Meta.mkSchemaProp None None in
  let data := [("s:10100:10", "knows=since,weight:since2:")] in
  MetaScenario.CHECK_SPACE_ID_AND_RETURN 1 = None
  /\ Meta.DoSyncPutAndUpdate data ∈ MetaScenario.alter 1 [] "knows" items noProp
  /\ MetaScenario.alter 1 [] "knows" items noProp
     = [Meta.SetId 20; Meta.DoSyncPutAndUpdate data].
Proof.
  intros items noProp data.
  assert (Meta.DoSyncPutAndUpdate data ∈ MetaScenario.alter 1 [] "knows" items noProp)
    as Hin by (vm_compute; apply list_elem_of_further, list_elem_of_here).
  split; [reflexivity|]. split; [exact Hin|].
  destruct (MetaAlterFacts.altered_edge_is_written_as_the_next_version string unit
              MetaScenario.doPrefix (MetaScenario.getIndexes []) MetaScenario.getFTIndex
              MetaScenario.schemaEdgePrefix MetaScenario.CHECK_SPACE_ID_AND_RETURN string bool
              MetaScenario.getEdgeType
              MetaScenario.parseEdgeVersion MetaScenario.parseSchema
              (fun _ _ => Meta.SUCCEEDED) (fun _ => []) (fun _ _ => Meta.SUCCEEDED)
              MetaScenario.alterColumnDefs (fun cols => (true, cols))
              MetaScenario.alterSchemaProp MetaScenario.schemaEdgeKey
              MetaScenario.schemaVal 1 "knows" items noProp data eq_refl Hin)
    as (edgeType & key & val & rest & columns1 & prop1 & columns2 & columns3 & prop3
        & Htype & _ & _ & _ & _ & _ & _ & Hrun).
  assert (edgeType = 20) as -> by (vm_compute in Htype; congruence).
  exact Hrun.
Defined.

Lemma ttl_on_an_indexed_edge_is_refused_witness :
  let ttl := Meta.mkSchemaProp (Some 100) (Some "since") in
  Meta.setsTtl ttl = true
  /\ MetaScenario.alter 1 ["i_since"] "knows" [] ttl
     = Meta.fail Meta.E_META_SCHEMA_CHANGE_FORBIDDEN_WHEN_HAS_TTL
  /\ MetaScenario.alter 2 ["i_since"] "knows" [] ttl = Meta.fail (Meta.E_OTHER 1).
Proof.
  intros ttl.
  assert (Meta.setsTtl ttl = true) as Httl by (vm_compute; reflexivity).
  split; [exact Httl|].
  split.
  - exact (MetaAlterFacts.ttl_on_an_indexed_edge_is_refused string unit
             MetaScenario.doPrefix (MetaScenario.getIndexes ["i_since"])
             MetaScenario.getFTIndex MetaScenario.schemaEdgePrefix
             MetaScenario.CHECK_SPACE_ID_AND_RETURN string bool
             MetaScenario.getEdgeType MetaScenario.parseEdgeVersion MetaScenario.parseSchema
             (fun _ _ => Meta.SUCCEEDED) (fun _ => []) (fun _ _ => Meta.SUCCEEDED)
             MetaScenario.alterColumnDefs (fun cols => (true, cols))
             MetaScenario.alterSchemaProp MetaScenario.schemaEdgeKey
             MetaScenario.schemaVal 1 "knows" [] ttl 20
             ("s:10100:1", "since,weight") [("s:10100:0", "since")] "i_since" []
             eq_refl eq_refl eq_refl Httl).
  - exact (MetaAlterFacts.ttl_on_an_indexed_edge_is_refused string unit
             MetaScenario.doPrefix (MetaScenario.getIndexes ["i_since"])
             MetaScenario.getFTIndex MetaScenario.schemaEdgePrefix
             MetaScenario.CHECK_SPACE_ID_AND_RETURN string bool
             MetaScenario.getEdgeType MetaScenario.parseEdgeVersion MetaScenario.parseSchema
             (fun _ _ => Meta.SUCCEEDED) (fun _ => []) (fun _ _ => Meta.SUCCEEDED)
             MetaScenario.alterColumnDefs (fun cols => (true, cols))
             MetaScenario.alterSchemaProp MetaScenario.schemaEdgeKey
             MetaScenario.schemaVal 2 "knows" [] ttl 20
             ("s:10100:1", "since,weight") [("s:10100:0", "since")] "i_since" []
             eq_refl eq_refl eq_refl Httl).
Defined.

Lemma edge_is_dropped_witness :
  MetaScenario.drop 1 "knows" false
  = [Meta.SetId 20;
     Meta.DoSyncMultiRemoveAndUpdate ["s:10100:1"; "s:10100:0"; "e:knows"]]
  /\ MetaScenario.drop 2 "knows" false = Meta.fail (Meta.E_OTHER 1).
Proof.
  split.
  - exact (proj1 (proj2 (MetaFacts.edge_is_dropped_only_when_nothing_indexes_it string unit
                    MetaScenario.doGet MetaScenario.doPrefix (MetaScenario.getIndexes [])
                    MetaScenario.getFTIndex MetaScenario.indexEdgeKey
                    MetaScenario.schemaEdgePrefix MetaScenario.CHECK_SPACE_ID_AND_RETURN
                    MetaScenario.edgeTypeOf 1 "knows" false))
             "10100" [("s:10100:1", "since,weight"); ("s:10100:0", "since")]
             eq_refl eq_refl eq_refl eq_refl eq_refl).
  - exact (proj2 (proj2 (MetaFacts.edge_is_dropped_only_when_nothing_indexes_it string unit
                    MetaScenario.doGet MetaScenario.doPrefix (MetaScenario.getIndexes [])
                    MetaScenario.getFTIndex MetaScenario.indexEdgeKey
                    MetaScenario.schemaEdgePrefix MetaScenario.CHECK_SPACE_ID_AND_RETURN
                    MetaScenario.edgeTypeOf 2 "knows" false))
             (Meta.fail (Meta.E_OTHER 1)) eq_refl).
Defined.

Lemma rejected_request_fails_every_part_witness :
  LookupProcessor.process leaderIsHost1 unit failsOn2 1 E_STORAGE_SCHEMA_TAG_NOT_FOUND (Some tt) [3; 1; 3]
  = [BaseProcessor.mkPartitionResult E_STORAGE_SCHEMA_TAG_NOT_FOUND 3 None;
     BaseProcessor.mkPartitionResult E_STORAGE_SCHEMA_TAG_NOT_FOUND 1 None;
     BaseProcessor.mkPartitionResult E_STORAGE_SCHEMA_TAG_NOT_FOUND 3 None].
Proof.
  exact (proj1 (ResultVectorFacts.rejected_request_fails_every_part leaderIsHost1 unit
                  failsOn2 1 E_STORAGE_SCHEMA_TAG_NOT_FOUND (Some tt) [3; 1; 3]) ltac:(discriminate)).
Defined.
